(** * ECC conveyor engine: a shallow embedding of the JavaScript sources

    The development follows the layout of [scripts/ecc]: one module per
    source file, holding the functions of that file under their own
    names, followed by the properties proved about them.

    Conventions of the embedding.
    - A JavaScript value is a [Js.value]; an object is the list of its
      own properties, and reading a missing property gives [VUndef].
    - A string is a [string] of code units below 256.
    - A function that pushes onto a shared [errors] array returns the
      list of the errors it pushes, in order; the caller appends.
    - A function that may throw returns a [result].
    - The file system, the child processes and the clock are explicit
      parameters or explicit state. *)

From Stdlib Require Import Permutation.
From Stdlib Require Import List String Ascii ZArith Bool Arith Lia.
From Stdlib Require Import Relations DecimalString.
Import ListNotations.
Open Scope string_scope.

(** ** JavaScript values and the string primitives the sources use *)

Module Js.

#[warnings="-register-all"]
Inductive value : Type :=
| VUndef
| VNull
| VBool (b : bool)
| VNum (n : Z)
| VStr (s : string)
| VArr (items : list value)
| VObj (fields : list (string * value)).

(** Outcome of a call that may throw [new Error(msg)]. *)
Inductive result (A : Type) : Type :=
| Ok (a : A)
| Throw (msg : string).
Arguments Ok {A} a.
Arguments Throw {A} msg.

Definition dq : string := String (ascii_of_nat 34) EmptyString.
Definition nl : string := String (ascii_of_nat 10) EmptyString.

Definition nat_str (n : nat) : string := NilEmpty.string_of_uint (Nat.to_uint n).
Definition int_str (z : Z) : string := NilZero.string_of_int (Z.to_int z).

(** [o.k] *)
Fixpoint lookup (k : string) (fields : list (string * value)) : value :=
  match fields with
  | [] => VUndef
  | (k', v) :: rest => if String.eqb k k' then v else lookup k rest
  end.

Definition get (o : value) (k : string) : value :=
  match o with
  | VObj fields => lookup k fields
  | _ => VUndef
  end.

(** [typeof v === 'object' && v !== null && !Array.isArray(v)] *)
Definition isObj (v : value) : bool :=
  match v with VObj _ => true | _ => false end.

Definition isStr (v : value) : bool :=
  match v with VStr _ => true | _ => false end.

Definition isArray (v : value) : bool :=
  match v with VArr _ => true | _ => false end.

(** Truthiness, as tested by [||], [&&], [!] and [if]. *)
Definition truthy (v : value) : bool :=
  match v with
  | VUndef | VNull => false
  | VBool b => b
  | VNum n => negb (Z.eqb n 0)
  | VStr s => negb (String.eqb s "")
  | VArr _ | VObj _ => true
  end.

(** [a || b] *)
Definition or_else (a b : value) : value := if truthy a then a else b.

Fixpoint join (sep : string) (l : list string) : string :=
  match l with
  | [] => ""
  | [x] => x
  | x :: rest => x ++ sep ++ join sep rest
  end.

(** [String(v)], as a template literal applies it.  The numbers are the
    integers the documents hold, below 10^21 in magnitude, which
    JavaScript prints with all their digits. *)
Fixpoint toString (v : value) : string :=
  match v with
  | VUndef => "undefined"
  | VNull => "null"
  | VBool true => "true"
  | VBool false => "false"
  | VNum n => int_str n
  | VStr s => s
  | VArr items =>
      join "," (map (fun x => match x with
                              | VUndef | VNull => ""
                              | _ => toString x
                              end) items)
  | VObj _ => "[object Object]"
  end.

(** Key equality of [Set] and [Map] (SameValueZero).  It is structural on
    the primitive values.  Arrays and objects are compared structurally
    here and by reference in JavaScript; the functions below only ever
    look up string keys with an effect on their result. *)
Fixpoint value_eqb (a b : value) {struct a} : bool :=
  match a, b with
  | VUndef, VUndef => true
  | VNull, VNull => true
  | VBool x, VBool y => Bool.eqb x y
  | VNum x, VNum y => Z.eqb x y
  | VStr x, VStr y => String.eqb x y
  | VArr xs, VArr ys =>
      (fix go (xs ys : list value) {struct xs} : bool :=
         match xs, ys with
         | [], [] => true
         | x :: xs', y :: ys' => value_eqb x y && go xs' ys'
         | _, _ => false
         end) xs ys
  | VObj xs, VObj ys =>
      (fix go (xs ys : list (string * value)) {struct xs} : bool :=
         match xs, ys with
         | [], [] => true
         | (k, x) :: xs', (k', y) :: ys' =>
             String.eqb k k' && value_eqb x y && go xs' ys'
         | _, _ => false
         end) xs ys
  | _, _ => false
  end.

(** [set.has(k)] on a set kept as the list of its members. *)
Definition has (k : value) (s : list value) : bool := existsb (value_eqb k) s.

(** [set.delete(k)] *)
Definition delete (k : value) (s : list value) : list value :=
  filter (fun x => negb (value_eqb k x)) s.

(** A [Map] with string keys, in insertion order.  [set] on a key that is
    present replaces the value and keeps the key's position. *)
Definition jsmap : Type := list (string * value).

Fixpoint map_set (k : string) (v : value) (m : jsmap) : jsmap :=
  match m with
  | [] => [(k, v)]
  | (k', v') :: rest =>
      if String.eqb k k' then (k', v) :: rest else (k', v') :: map_set k v rest
  end.

Fixpoint map_find (k : string) (m : jsmap) : option value :=
  match m with
  | [] => None
  | (k', v) :: rest => if String.eqb k k' then Some v else map_find k rest
  end.

(** [map.get(k)] and [map.has(k)] for an arbitrary key: only a string can
    be equal to a string key. *)
Definition map_get (m : jsmap) (k : value) : option value :=
  match k with
  | VStr s => map_find s m
  | _ => None
  end.

Definition map_has (m : jsmap) (k : value) : bool :=
  match map_get m k with Some _ => true | None => false end.

Definition map_keys (m : jsmap) : list value := map (fun kv => VStr (fst kv)) m.

(** *** String methods *)

Definition chr (n : nat) : ascii := ascii_of_nat n.

(** [s.startsWith(p)] *)
Fixpoint startsWith (p s : string) : bool :=
  match p, s with
  | EmptyString, _ => true
  | String a p', String b s' => Ascii.eqb a b && startsWith p' s'
  | String _ _, EmptyString => false
  end.

Fixpoint lastChar (s : string) : option ascii :=
  match s with
  | EmptyString => None
  | String c EmptyString => Some c
  | String _ rest => lastChar rest
  end.

(** [s.endsWith(c)] for a one-character [c] *)
Definition endsWithChar (c : ascii) (s : string) : bool :=
  match lastChar s with
  | Some c' => Ascii.eqb c c'
  | None => false
  end.

(** [s.slice(0, -1)] *)
Fixpoint dropLast (s : string) : string :=
  match s with
  | EmptyString => EmptyString
  | String _ EmptyString => EmptyString
  | String c rest => String c (dropLast rest)
  end.

(** [s.includes(needle)] *)
Fixpoint includes (needle s : string) : bool :=
  startsWith needle s
  || match s with
     | EmptyString => false
     | String _ rest => includes needle rest
     end.

(** [s.replace(/\\/g, '/')] *)
Fixpoint toPosix (s : string) : string :=
  match s with
  | EmptyString => EmptyString
  | String c rest =>
      String (if Ascii.eqb c (chr 92) then chr 47 else c) (toPosix rest)
  end.

(** White space and line terminators, as [trim] strips them (code units
    below 256). *)
Definition isWhite (c : ascii) : bool :=
  let n := nat_of_ascii c in
  ((9 <=? n)%nat && (n <=? 13)%nat) || (n =? 32)%nat || (n =? 160)%nat.

Fixpoint trimStart (s : string) : string :=
  match s with
  | EmptyString => EmptyString
  | String c rest => if isWhite c then trimStart rest else s
  end.

Fixpoint trimEnd (s : string) : string :=
  match s with
  | EmptyString => EmptyString
  | String c rest =>
      match trimEnd rest with
      | EmptyString => if isWhite c then EmptyString else String c EmptyString
      | kept => String c kept
      end
  end.

Definition trim (s : string) : string := trimEnd (trimStart s).

(** [s.split(sep)] for a one-character [sep] *)
Fixpoint splitChar (sep : ascii) (s : string) : list string :=
  match s with
  | EmptyString => [EmptyString]
  | String c rest =>
      if Ascii.eqb c sep then EmptyString :: splitChar sep rest
      else match splitChar sep rest with
           | cur :: more => String c cur :: more
           | [] => [String c EmptyString]
           end
  end.

(** [s.split(/\r?\n/)] *)
Fixpoint splitLines (s : string) : list string :=
  match s with
  | EmptyString => [EmptyString]
  | String c rest =>
      if Ascii.eqb c (chr 10) then EmptyString :: splitLines rest
      else
        match rest with
        | String c' rest' =>
            if Ascii.eqb c (chr 13) && Ascii.eqb c' (chr 10)
            then EmptyString :: splitLines rest'
            else match splitLines rest with
                 | cur :: more => String c cur :: more
                 | [] => [String c EmptyString]
                 end
        | EmptyString => [String c EmptyString]
        end
  end.

(** [s.toLowerCase()] on the letters A to Z *)
Definition lowerChar (c : ascii) : ascii :=
  let n := nat_of_ascii c in
  if ((65 <=? n)%nat && (n <=? 90)%nat) then ascii_of_nat (n + 32) else c.

Fixpoint toLowerCase (s : string) : string :=
  match s with
  | EmptyString => EmptyString
  | String c rest => String (lowerChar c) (toLowerCase rest)
  end.

(** The characters the regular-expression dot does not match. *)
Definition isLineTerminator (c : ascii) : bool :=
  Ascii.eqb c (chr 10) || Ascii.eqb c (chr 13).

Fixpoint allChars (f : ascii -> bool) (s : string) : bool :=
  match s with
  | EmptyString => true
  | String c rest => f c && allChars f rest
  end.

(** [p] removed from the front of [s], when [s] starts with [p]. *)
Fixpoint stripPrefix (p s : string) : option string :=
  match p, s with
  | EmptyString, _ => Some s
  | String a p', String b s' => if Ascii.eqb a b then stripPrefix p' s' else None
  | String _ _, EmptyString => None
  end.

(** *** [path.posix.normalize] of Node.js

    The segments between slashes are scanned from the left; empty and [.]
    segments are dropped, [..] removes the segment before it unless there
    is none or it is itself [..], in which case it is kept when the path
    is relative.  A trailing slash is kept. *)
Fixpoint normalizeSegments (allowAboveRoot : bool) (kept : list string)
         (segs : list string) : list string :=
  match segs with
  | [] => rev kept
  | seg :: rest =>
      if String.eqb seg "" || String.eqb seg "." then
        normalizeSegments allowAboveRoot kept rest
      else if String.eqb seg ".." then
        match kept with
        | top :: below =>
            if String.eqb top ".."
            then normalizeSegments allowAboveRoot
                   (if allowAboveRoot then ".." :: kept else kept) rest
            else normalizeSegments allowAboveRoot below rest
        | [] =>
            normalizeSegments allowAboveRoot
              (if allowAboveRoot then [".."] else []) rest
        end
      else normalizeSegments allowAboveRoot (seg :: kept) rest
  end.

Definition posixNormalize (path : string) : string :=
  if String.eqb path "" then "."
  else
    let isAbsolute := startsWith "/" path in
    let trailing := endsWithChar (chr 47) path in
    let res := join "/" (normalizeSegments (negb isAbsolute) []
                                            (splitChar (chr 47) path)) in
    if String.eqb res "" then
      (if isAbsolute then "/" else if trailing then "./" else ".")
    else
      let res := if trailing then res ++ "/" else res in
      if isAbsolute then "/" ++ res else res.

(** [path.join(...parts)] of Node.js *)
Definition pathJoin (parts : list string) : string :=
  let joined := join "/" (filter (fun x => negb (String.eqb x "")) parts) in
  if String.eqb joined "" then "." else posixNormalize joined.

Lemma append_assoc (a b c : string) : (a ++ b) ++ c = a ++ (b ++ c).
Proof.
  induction a as [|x a IH]; simpl; [reflexivity | now rewrite IH].
Qed.

Lemma append_nil_r (a : string) : a ++ "" = a.
Proof.
  induction a as [|x a IH]; simpl; [reflexivity | now rewrite IH].
Qed.

End Js.

Import Js.

(** ** scripts/ecc/validate.js *)

Module Validate.

Record error : Type := mkError { path : string; message : string }.

(** [pushErr(errors, path, message)] *)
Definition pushErr (p m : string) : list error := [mkError p m].

Definition validateString (p : string) (v : value) (minLength : nat) : list error :=
  match v with
  | VStr s =>
      if Nat.ltb (String.length s) minLength
      then pushErr p ("expected string length >= " ++ nat_str minLength)
      else []
  | _ => pushErr p "expected string"
  end.

(** The loop [for (let i = 0; i < v.length; i++) validateString(..., v[i])],
    started at index [i]. *)
Fixpoint validateItems (p : string) (i : nat) (items : list value) : list error :=
  match items with
  | [] => []
  | x :: rest =>
      validateString (p ++ "[" ++ nat_str i ++ "]") x 1
        ++ validateItems p (S i) rest
  end.

Definition validateStringArray (p : string) (v : value) (minItems : nat) : list error :=
  match v with
  | VArr items =>
      (if Nat.ltb (List.length items) minItems
       then pushErr p ("expected array length >= " ++ nat_str minItems)
       else [])
        ++ validateItems p 0 items
  | _ => pushErr p "expected array"
  end.

(** [Array.isArray(t.dependsOn) ? t.dependsOn : []] *)
Definition depsOf (t : value) : list value :=
  match get t "dependsOn" with
  | VArr deps => deps
  | _ => []
  end.

(** First loop of [validatePlan]: the per-task checks, from index [i], with
    [ids] the set of the ids seen so far. *)
Fixpoint validateTasks (i : nat) (ids : list value) (tasks : list value) : list error :=
  match tasks with
  | [] => []
  | t :: rest =>
      let base := "$.tasks[" ++ nat_str i ++ "]" in
      if negb (isObj t) then
        pushErr base "expected object" ++ validateTasks (S i) ids rest
      else
        validateString (base ++ ".id") (get t "id") 1
          ++ validateString (base ++ ".title") (get t "title") 1
          ++ (if value_eqb (get t "kind") (VStr "patch") then []
              else pushErr (base ++ ".kind") ("expected " ++ dq ++ "patch" ++ dq))
          ++ validateStringArray (base ++ ".dependsOn")
               (or_else (get t "dependsOn") (VArr [])) 0
          ++ validateStringArray (base ++ ".allowedPathPrefixes")
               (get t "allowedPathPrefixes") 1
          ++ validateString (base ++ ".prompt") (get t "prompt") 1
          ++ (if isStr (get t "id") then
                (if has (get t "id") ids
                 then pushErr (base ++ ".id") "duplicate task id" else [])
                  ++ validateTasks (S i) (get t "id" :: ids) rest
              else validateTasks (S i) ids rest)
  end.

(** [tasksById]: [for (const t of plan.tasks) if (isObj(t) && isStr(t.id))
    tasksById.set(t.id, t)], continued from the map [m]. *)
Fixpoint indexTasks (m : jsmap) (tasks : list value) : jsmap :=
  match tasks with
  | [] => m
  | t :: rest =>
      match t, get t "id" with
      | VObj _, VStr s => indexTasks (map_set s t m) rest
      | _, _ => indexTasks m rest
      end
  end.

(** Inner loop over [deps], from index [j]. *)
Fixpoint validateDepRefs (byId : jsmap) (i j : nat) (deps : list value) : list error :=
  match deps with
  | [] => []
  | dep :: rest =>
      (if map_has byId dep then []
       else pushErr ("$.tasks[" ++ nat_str i ++ "].dependsOn[" ++ nat_str j ++ "]")
                    "unknown task id")
        ++ validateDepRefs byId i (S j) rest
  end.

(** Second loop: the [dependsOn] references of every task, from index [i]. *)
Fixpoint validateRefs (byId : jsmap) (i : nat) (tasks : list value) : list error :=
  match tasks with
  | [] => []
  | t :: rest =>
      (if negb (isObj t) || negb (isStr (get t "id")) then []
       else validateDepRefs byId i 0 (depsOf t))
        ++ validateRefs byId (S i) rest
  end.

(** State of the cycle detection: the two sets and the errors it pushed. *)
Record dfsState : Type :=
  mkDfs { visiting : list value; visited : list value; cycles : list error }.

(** [for (const dep of deps) dfs(dep)] for a given [dfs]. *)
Fixpoint forEach (visit : value -> dfsState -> option dfsState)
                 (ids : list value) (st : dfsState) : option dfsState :=
  match ids with
  | [] => Some st
  | id :: rest =>
      match visit id st with
      | Some st' => forEach visit rest st'
      | None => None
      end
  end.

(** The successors [dfs] follows from [id]. *)
Definition successors (byId : jsmap) (id : value) : list value :=
  match map_get byId id with
  | Some t => depsOf t
  | None => []
  end.

(** The closure [dfs] of [validatePlan].  The recursion of the source is
    bounded by the number of tasks; here it is driven by [fuel], and
    [None] means that the fuel ran out. *)
Fixpoint dfs (fuel : nat) (byId : jsmap) (id : value) (st : dfsState)
  : option dfsState :=
  match fuel with
  | O => None
  | S fuel' =>
      if has id (visited st) then Some st
      else if has id (visiting st) then
        Some (mkDfs (visiting st) (visited st)
                    (cycles st ++ pushErr "$.tasks"
                       ("cycle detected at task " ++ dq ++ toString id ++ dq))%list)
      else
        match forEach (dfs fuel' byId) (successors byId id)
                      (mkDfs (id :: visiting st) (visited st) (cycles st)) with
        | Some st' =>
            Some (mkDfs (delete id (visiting st')) (id :: visited st') (cycles st'))
        | None => None
        end
  end.

(** [for (const id of tasksById.keys()) dfs(id)] *)
Definition detectCycles (fuel : nat) (byId : jsmap) : option (list error) :=
  match forEach (dfs fuel byId) (map_keys byId) (mkDfs [] [] []) with
  | Some st => Some (cycles st)
  | None => None
  end.

Definition validatePlanFuel (fuel : nat) (plan : value) : option (list error) :=
  if negb (isObj plan) then Some (pushErr "$" "expected object")
  else
    let head :=
      ((if value_eqb (get plan "version") (VNum 1) then []
        else pushErr "$.version" "expected 1")
         ++ validateString "$.intent" (get plan "intent") 1)%list in
    match get plan "tasks" with
    | VArr tasks =>
        let byId := indexTasks [] tasks in
        match detectCycles fuel byId with
        | Some cyc =>
            Some (head
                    ++ (if Nat.ltb (List.length tasks) 1
                        then pushErr "$.tasks" "expected at least 1 task" else [])
                    ++ validateTasks 0 [] tasks
                    ++ validateRefs byId 0 tasks
                    ++ cyc)%list
        | None => None
        end
    | _ => Some (head ++ pushErr "$.tasks" "expected array")%list
    end.

(** Fuel that always suffices: one more than the number of tasks. *)
Definition planFuel (plan : value) : nat :=
  match get plan "tasks" with
  | VArr tasks => S (List.length tasks)
  | _ => 1
  end.

Definition validatePlan (plan : value) : option (list error) :=
  validatePlanFuel (planFuel plan) plan.

Definition isBool (v : value) : bool :=
  match v with VBool _ => true | _ => false end.

(** [Number.isInteger(v)]; the numbers of the embedding are the integers. *)
Definition isInt (v : value) : bool :=
  match v with VNum _ => true | _ => false end.

(** The loop of [validateVerifySummary] over [summary.commands], from
    index [i]. *)
Fixpoint validateCommands (i : nat) (commands : list value) : list error :=
  match commands with
  | [] => []
  | c :: rest =>
      let base := "$.commands[" ++ nat_str i ++ "]" in
      (if negb (isObj c) then pushErr base "expected object"
       else
         validateString (base ++ ".name") (get c "name") 1
           ++ validateString (base ++ ".command") (get c "command") 1
           ++ (if isBool (get c "ok") then []
               else pushErr (base ++ ".ok") "expected boolean")
           ++ (if isInt (get c "exitCode") then []
               else pushErr (base ++ ".exitCode") "expected integer")
           ++ validateString (base ++ ".outputPath") (get c "outputPath") 1)
        ++ validateCommands (S i) rest
  end.

Definition validateVerifySummary (summary : value) : list error :=
  if negb (isObj summary) then pushErr "$" "expected object"
  else
    (if value_eqb (get summary "version") (VNum 1) then []
     else pushErr "$.version" "expected 1")
      ++ validateString "$.ranAt" (get summary "ranAt") 1
      ++ (if isBool (get summary "ok") then [] else pushErr "$.ok" "expected boolean")
      ++ match get summary "commands" with
         | VArr commands => validateCommands 0 commands
         | _ => pushErr "$.commands" "expected array"
         end.

(** The loop of [validateConfig] over [cfg.verify.commands], from index [i]. *)
Fixpoint validateConfigCommands (i : nat) (commands : list value) : list error :=
  match commands with
  | [] => []
  | c :: rest =>
      let base := "$.verify.commands[" ++ nat_str i ++ "]" in
      (if negb (isObj c) then pushErr base "expected object"
       else validateString (base ++ ".name") (get c "name") 1
              ++ validateString (base ++ ".command") (get c "command") 1)
        ++ validateConfigCommands (S i) rest
  end.

(** [['codex', 'claude'].includes(v)] *)
Definition isBackend (v : value) : bool :=
  value_eqb v (VStr "codex") || value_eqb v (VStr "claude").

Definition validateConfig (cfg : value) : list error :=
  if negb (isObj cfg) then pushErr "$" "expected object"
  else
    (if value_eqb (get cfg "version") (VNum 1) then []
     else pushErr "$.version" "expected 1")
      ++ (if isBackend (get cfg "backend") then []
          else pushErr "$.backend" ("expected " ++ dq ++ "codex" ++ dq ++ " or "
                                      ++ dq ++ "claude" ++ dq))
      ++ validateStringArray "$.packs" (get cfg "packs") 1
      ++ validateString "$.createdAt" (get cfg "createdAt") 1
      ++ (if negb (isObj (get cfg "verify")) then pushErr "$.verify" "expected object"
          else
            (if value_eqb (get (get cfg "verify") "mode") (VStr "auto")
                || value_eqb (get (get cfg "verify") "mode") (VStr "manual")
             then []
             else pushErr "$.verify.mode" ("expected " ++ dq ++ "auto" ++ dq ++ " or "
                                             ++ dq ++ "manual" ++ dq))
              ++ match get (get cfg "verify") "commands" with
                 | VUndef => []
                 | VArr commands => validateConfigCommands 0 commands
                 | _ => pushErr "$.verify.commands" "expected array"
                 end).

Definition validateLock (lock : value) : list error :=
  if negb (isObj lock) then pushErr "$" "expected object"
  else
    (if value_eqb (get lock "version") (VNum 1) then []
     else pushErr "$.version" "expected 1")
      ++ validateString "$.lockedAt" (get lock "lockedAt") 1
      ++ validateStringArray "$.packs" (get lock "packs") 1
      ++ (if negb (isObj (get lock "engine")) then pushErr "$.engine" "expected object"
          else
            (if value_eqb (get (get lock "engine") "name") (VStr "ecc") then []
             else pushErr "$.engine.name" ("expected " ++ dq ++ "ecc" ++ dq))
              ++ match get (get lock "engine") "version" with
                 | VUndef => []
                 | v => validateString "$.engine.version" v 1
                 end)
      ++ (if negb (isObj (get lock "catalog")) then pushErr "$.catalog" "expected object"
          else
            (if value_eqb (get (get lock "catalog") "type") (VStr "embedded") then []
             else pushErr "$.catalog.type" ("expected " ++ dq ++ "embedded" ++ dq))
              ++ validateString "$.catalog.digest" (get (get lock "catalog") "digest") 1).

(** The loop of [validateApplyResult] over [applyResult.tasks], from index [i]. *)
Fixpoint validateApplied (i : nat) (tasks : list value) : list error :=
  match tasks with
  | [] => []
  | t :: rest =>
      let base := "$.tasks[" ++ nat_str i ++ "]" in
      (if negb (isObj t) then pushErr base "expected object"
       else
         validateString (base ++ ".id") (get t "id") 1
           ++ validateString (base ++ ".patchPath") (get t "patchPath") 1
           ++ (if isBool (get t "ok") then []
               else pushErr (base ++ ".ok") "expected boolean")
           ++ match get t "error" with
              | VUndef => []
              | v => validateString (base ++ ".error") v 1
              end)
        ++ validateApplied (S i) rest
  end.

Definition validateApplyResult (applyResult : value) : list error :=
  if negb (isObj applyResult) then pushErr "$" "expected object"
  else
    (if value_eqb (get applyResult "version") (VNum 1) then []
     else pushErr "$.version" "expected 1")
      ++ validateString "$.appliedAt" (get applyResult "appliedAt") 1
      ++ validateString "$.baseSha" (get applyResult "baseSha") 1
      ++ match get applyResult "tasks" with
         | VArr tasks => validateApplied 0 tasks
         | _ => pushErr "$.tasks" "expected array"
         end
      ++ match get applyResult "commit" with
         | VUndef => []
         | commit =>
             if negb (isObj commit) then pushErr "$.commit" "expected object"
             else validateString "$.commit.sha" (get commit "sha") 1
                    ++ validateString "$.commit.message" (get commit "message") 1
         end.

(** [throwIfErrors(errors, label)] *)
Definition throwIfErrors (errors : list error) (label : string) : result unit :=
  match errors with
  | [] => Ok tt
  | _ =>
      Throw (label ++ " failed:" ++ nl
               ++ join nl (map (fun e => "- " ++ path e ++ ": " ++ message e) errors))
  end.

(** *** What the specification asks of a plan *)

Definition nonEmptyStr (v : value) : Prop := exists s, v = VStr s /\ s <> "".

Definition planTasks (plan : value) : list value :=
  match get plan "tasks" with
  | VArr tasks => tasks
  | _ => []
  end.

Definition taskId (t : value) : value := get t "id".

(** [dependsOn plan a b]: some task of the plan has id [a] and lists [b]
    in its [dependsOn]. *)
Definition dependsOn (plan : value) (a b : value) : Prop :=
  exists t, In t (planTasks plan) /\ taskId t = a /\ In b (depsOf t).

Definition idsUnique (plan : value) : Prop := NoDup (map taskId (planTasks plan)).

Definition depsResolve (plan : value) : Prop :=
  forall t d, In t (planTasks plan) -> In d (depsOf t) ->
    exists t', In t' (planTasks plan) /\ taskId t' = d.

Definition acyclic (plan : value) : Prop :=
  forall a, ~ clos_trans value (dependsOn plan) a a.

(** The five conditions of the specification's testable property. *)
Definition specValid (plan : value) : Prop :=
  get plan "version" = VNum 1
  /\ nonEmptyStr (get plan "intent")
  /\ idsUnique plan
  /\ depsResolve plan
  /\ acyclic plan.

(** The per-task checks of the first loop. *)
Definition taskShape (t : value) : Prop :=
  isObj t = true
  /\ nonEmptyStr (get t "id")
  /\ nonEmptyStr (get t "title")
  /\ get t "kind" = VStr "patch"
  /\ (truthy (get t "dependsOn") = false
      \/ exists deps, get t "dependsOn" = VArr deps /\ Forall nonEmptyStr deps)
  /\ (exists ps, get t "allowedPathPrefixes" = VArr ps /\ ps <> []
                 /\ Forall nonEmptyStr ps)
  /\ nonEmptyStr (get t "prompt").

(** Everything [validatePlan] checks. *)
Definition wellFormed (plan : value) : Prop :=
  isObj plan = true
  /\ (exists tasks, get plan "tasks" = VArr tasks /\ tasks <> []
                    /\ Forall taskShape tasks)
  /\ specValid plan.

(** *** Key equality *)

Fixpoint value_eqb_true (a b : value) {struct a} : value_eqb a b = true -> a = b.
Proof.
  destruct a, b; simpl; try discriminate; intro H.
  - reflexivity.
  - reflexivity.
  - apply Bool.eqb_prop in H. congruence.
  - apply Z.eqb_eq in H. congruence.
  - apply String.eqb_eq in H. congruence.
  - f_equal. revert items0 H.
    induction items as [|x xs IHxs]; intros [|y ys] H; try discriminate; auto.
    apply andb_true_iff in H. destruct H as [Hx Hxs].
    f_equal; [apply value_eqb_true; exact Hx | apply IHxs; exact Hxs].
  - f_equal. revert fields0 H.
    induction fields as [|[k x] xs IHxs]; intros [|[k' y] ys] H; try discriminate; auto.
    apply andb_true_iff in H. destruct H as [Hx Hxs].
    apply andb_true_iff in Hx. destruct Hx as [Hk Hx].
    apply String.eqb_eq in Hk.
    f_equal; [f_equal; [exact Hk | apply value_eqb_true; exact Hx] | apply IHxs; exact Hxs].
Qed.

Fixpoint value_eqb_refl (a : value) : value_eqb a a = true.
Proof.
  destruct a; simpl; auto.
  - apply Bool.eqb_reflx.
  - apply Z.eqb_refl.
  - apply String.eqb_refl.
  - induction items as [|x xs IHxs]; auto.
    rewrite value_eqb_refl. exact IHxs.
  - induction fields as [|[k x] xs IHxs]; auto.
    rewrite String.eqb_refl, value_eqb_refl. exact IHxs.
Qed.

Lemma value_eqb_eq (a b : value) : value_eqb a b = true <-> a = b.
Proof.
  split; [apply value_eqb_true | intros ->; apply value_eqb_refl].
Qed.

Lemma has_In (k : value) (s : list value) : has k s = true <-> In k s.
Proof.
  unfold has. rewrite existsb_exists. split.
  - intros [x [Hin Heq]]. apply value_eqb_eq in Heq. subst. exact Hin.
  - intro Hin. exists k. split; [exact Hin | apply value_eqb_refl].
Qed.

Lemma has_false (k : value) (s : list value) : has k s = false <-> ~ In k s.
Proof.
  rewrite <- has_In. destruct (has k s); split; congruence.
Qed.

Lemma delete_notin (k : value) (s : list value) : ~ In k s -> delete k s = s.
Proof.
  induction s as [|x s IH]; simpl; intro Hn; auto.
  destruct (value_eqb k x) eqn:E.
  - apply value_eqb_eq in E. subst. exfalso. apply Hn. now left.
  - simpl. f_equal. apply IH. intro. apply Hn. now right.
Qed.

Lemma delete_head (k : value) (s : list value) : ~ In k s -> delete k (k :: s) = s.
Proof.
  intro Hn. simpl. rewrite value_eqb_refl. simpl. now apply delete_notin.
Qed.

(** *** The cycle detection is a correct depth-first search *)

Section Search.

Variable byId : jsmap.

Let edge (a b : value) : Prop := In b (successors byId a).

Let reach : value -> value -> Prop := clos_trans value edge.

(** [visited] in the order the nodes were added, newest first, is a
    topological order: every node was added after all its successors. *)
Fixpoint topo (l : list value) : Prop :=
  match l with
  | [] => True
  | x :: l' => ~ In x l' /\ (forall d, edge x d -> In d l') /\ topo l'
  end.

Definition searchInv (st : dfsState) : Prop :=
  (forall x, In x (visiting st) -> ~ In x (visited st))
  /\ (cycles st = [] -> topo (visited st)).

Lemma topo_closed (l : list value) :
  topo l -> forall x y, In x l -> edge x y -> In y l.
Proof.
  induction l as [|a l IH]; simpl; intros Ht x y Hx He; [contradiction|].
  destruct Ht as [_ [Hsucc Ht]]. destruct Hx as [-> | Hx].
  - right. now apply Hsucc.
  - right. now apply (IH Ht x y).
Qed.

Lemma topo_reach_closed (l : list value) :
  topo l -> forall x y, reach x y -> In x l -> In y l.
Proof.
  intros Ht x y Hr. induction Hr as [x y He | x y z _ IH1 _ IH2]; intro Hx.
  - now apply (topo_closed l Ht x y).
  - auto.
Qed.

Lemma topo_no_cycle (l : list value) :
  topo l -> forall x, In x l -> ~ reach x x.
Proof.
  induction l as [|a l IH]; simpl; intros Ht x Hx Hr; [contradiction|].
  destruct Ht as [Hna [Hsucc Ht]]. destruct Hx as [-> | Hx].
  - apply clos_trans_t1n in Hr. inversion Hr as [y He | y z He Hrest]; subst.
    + apply Hna. now apply Hsucc.
    + apply Hna. apply clos_t1n_trans in Hrest.
      apply (topo_reach_closed l Ht y x Hrest). now apply Hsucc.
  - now apply (IH Ht x Hx).
Qed.

(** What one call of [dfs] guarantees when it returns [st'] from [st]. *)
Definition searchStep (ids : list value) (st st' : dfsState) : Prop :=
  searchInv st'
  /\ visiting st' = visiting st
  /\ (exists k, visited st' = k ++ visited st)%list
  /\ (cycles st' = [] -> cycles st = [] /\ forall id, In id ids -> In id (visited st')).

Lemma forEach_sound (visit : value -> dfsState -> option dfsState) :
  (forall id st st', visit id st = Some st' -> searchInv st -> searchStep [id] st st') ->
  forall ids st st',
    forEach visit ids st = Some st' -> searchInv st -> searchStep ids st st'.
Proof.
  intros Hvisit. induction ids as [|id ids IH]; simpl; intros st st' Hrun Hinv.
  - inversion Hrun; subst. repeat split; try apply Hinv; auto.
    + now exists [].
    + contradiction.
  - destruct (visit id st) as [st1|] eqn:E; [|discriminate].
    destruct (Hvisit _ _ _ E Hinv) as [Hinv1 [Hv1 [[k1 Hk1] Hc1]]].
    destruct (IH _ _ Hrun Hinv1) as [Hinv2 [Hv2 [[k2 Hk2] Hc2]]].
    split; [exact Hinv2|]. split; [congruence|]. split.
    + exists (k2 ++ k1)%list. rewrite Hk2, Hk1. now rewrite app_assoc.
    + intro Hnil. destruct (Hc2 Hnil) as [Hnil1 Hall].
      destruct (Hc1 Hnil1) as [Hnil0 Hid]. split; [exact Hnil0|].
      intros x [<- | Hx]; [|now apply Hall].
      rewrite Hk2. apply in_or_app. right. apply Hid. now left.
Qed.

Lemma dfs_sound (fuel : nat) :
  forall id st st',
    dfs fuel byId id st = Some st' -> searchInv st -> searchStep [id] st st'.
Proof.
  induction fuel as [|fuel IH]; simpl; intros id st st' Hrun Hinv; [discriminate|].
  destruct (has id (visited st)) eqn:Hvd.
  - inversion Hrun; subst. split; [exact Hinv|]. split; [reflexivity|].
    split; [now exists []|]. intro Hnil. split; [exact Hnil|].
    intros x [<- | []]. now apply has_In.
  - destruct (has id (visiting st)) eqn:Hvg.
    + inversion Hrun; subst; simpl. split.
      * split; [apply Hinv|]. simpl. intro Hnil.
        apply app_eq_nil in Hnil. destruct Hnil; discriminate.
      * split; [reflexivity|]. split; [now exists []|].
        intro Hnil. apply app_eq_nil in Hnil. destruct Hnil; discriminate.
    + apply has_false in Hvd. apply has_false in Hvg.
      destruct (forEach (dfs fuel byId) (successors byId id)
                        (mkDfs (id :: visiting st) (visited st) (cycles st)))
        as [st2|] eqn:E; [|discriminate].
      inversion Hrun; subst; clear Hrun.
      assert (Hinv1 : searchInv (mkDfs (id :: visiting st) (visited st) (cycles st))).
      { split; simpl; [|apply Hinv]. intros x [<- | Hx]; [exact Hvd | now apply Hinv]. }
      destruct (forEach_sound _ IH _ _ _ E Hinv1) as [Hinv2 [Hv2 [[k Hk] Hc2]]].
      simpl in Hv2, Hk, Hc2. destruct Hinv2 as [Hdisj2 Htopo2].
      split; [split|]; simpl.
      * rewrite Hv2, (delete_head id _ Hvg). intros x Hx [<- | Hx2]; [now apply Hvg|].
        apply (Hdisj2 x); [rewrite Hv2; now right | exact Hx2].
      * intro Hnil. destruct (Hc2 Hnil) as [_ Hall]. split; [|split].
        -- apply Hdisj2. rewrite Hv2. now left.
        -- exact Hall.
        -- now apply Htopo2.
      * split; [rewrite Hv2; now apply delete_head|]. split.
        -- exists (id :: k). rewrite Hk. reflexivity.
        -- intro Hnil. split; [now apply Hc2|]. intros x [<- | []]. now left.
Qed.

Lemma forEach_visiting (visit : value -> dfsState -> option dfsState) :
  (forall id st st', visit id st = Some st' -> visiting st' = visiting st) ->
  forall ids st st', forEach visit ids st = Some st' -> visiting st' = visiting st.
Proof.
  intros Hvisit. induction ids as [|id ids IH]; simpl; intros st st' Hrun.
  - now inversion Hrun.
  - destruct (visit id st) as [st1|] eqn:E; [|discriminate].
    rewrite (IH _ _ Hrun). now apply (Hvisit id).
Qed.

Lemma dfs_visiting (fuel : nat) :
  forall id st st', dfs fuel byId id st = Some st' -> visiting st' = visiting st.
Proof.
  induction fuel as [|fuel IH]; simpl; intros id st st' Hrun; [discriminate|].
  destruct (has id (visited st)); [now inversion Hrun|].
  destruct (has id (visiting st)) eqn:Hvg; [now inversion Hrun|].
  destruct (forEach _ _ _) as [st2|] eqn:E; [|discriminate].
  inversion Hrun; subst; simpl.
  rewrite (forEach_visiting _ IH _ _ _ E). simpl.
  apply delete_head. now apply has_false.
Qed.

Hypothesis no_cycle : forall a, ~ reach a a.

Lemma forEach_complete (visit : value -> dfsState -> option dfsState) (ids : list value) :
  (forall id st st', visit id st = Some st' -> visiting st' = visiting st) ->
  (forall id st st', In id ids -> visit id st = Some st' ->
     (forall v, In v (visiting st) -> reach v id) -> cycles st' = cycles st) ->
  forall st st',
    forEach visit ids st = Some st' ->
    (forall v id, In v (visiting st) -> In id ids -> reach v id) ->
    cycles st' = cycles st.
Proof.
  intros Hvis. induction ids as [|id ids IH]; simpl; intros Hvisit st st' Hrun Hreach.
  - now inversion Hrun.
  - destruct (visit id st) as [st1|] eqn:E; [|discriminate].
    rewrite (IH (fun x s s' Hx => Hvisit x s s' (or_intror Hx)) _ _ Hrun).
    + apply (Hvisit id); auto.
    + intros v x Hv Hx. rewrite (Hvis _ _ _ E) in Hv. auto.
Qed.

Lemma dfs_complete (fuel : nat) :
  forall id st st',
    dfs fuel byId id st = Some st' ->
    (forall v, In v (visiting st) -> reach v id) ->
    cycles st' = cycles st.
Proof.
  induction fuel as [|fuel IH]; simpl; intros id st st' Hrun Hreach; [discriminate|].
  destruct (has id (visited st)); [now inversion Hrun|].
  destruct (has id (visiting st)) eqn:Hvg.
  - apply has_In in Hvg. exfalso. apply (no_cycle id). now apply Hreach.
  - destruct (forEach _ _ _) as [st2|] eqn:E; [|discriminate].
    inversion Hrun; subst; simpl.
    rewrite (forEach_complete _ _ (dfs_visiting fuel) (fun x s s' _ => IH x s s') _ _ E);
      [reflexivity|].
    simpl. intros v d [<- | Hv] Hd.
    + now apply t_step.
    + apply t_trans with id; [now apply Hreach | now apply t_step].
Qed.

End Search.

(** *** The search returns: the recursion is no deeper than the tasks *)

Section Fuel.

Variable byId : jsmap.

Lemma successors_key (id : value) :
  successors byId id <> [] -> In id (map_keys byId).
Proof.
  unfold successors, map_get, map_keys. destruct id; try congruence.
  induction byId as [|[k v] m IH]; simpl; [congruence|].
  destruct (String.eqb s k) eqn:E.
  - apply String.eqb_eq in E. subst. now left.
  - intro H. right. now apply IH.
Qed.

Definition enoughFuel (fuel : nat) (st : dfsState) : Prop :=
  NoDup (visiting st)
  /\ incl (visiting st) (map_keys byId)
  /\ List.length (map_keys byId) < fuel + List.length (visiting st).

Lemma forEach_returns (visit : value -> dfsState -> option dfsState)
      (ok : dfsState -> Prop) :
  (forall id st, ok st -> exists st', visit id st = Some st') ->
  (forall id st st', ok st -> visit id st = Some st' -> ok st') ->
  forall ids st, ok st -> exists st', forEach visit ids st = Some st'.
Proof.
  intros Hret Hkeep. induction ids as [|id ids IH]; simpl; intros st Hok.
  - now exists st.
  - destruct (Hret id st Hok) as [st1 E]. rewrite E.
    apply IH. now apply (Hkeep id st).
Qed.

Lemma enoughFuel_keep (fuel : nat) (id : value) (st st' : dfsState) :
  enoughFuel fuel st -> dfs fuel byId id st = Some st' -> enoughFuel fuel st'.
Proof.
  unfold enoughFuel. intros H E. now rewrite (dfs_visiting byId fuel _ _ _ E).
Qed.

Lemma dfs_returns (fuel : nat) :
  forall id st, enoughFuel fuel st -> exists st', dfs fuel byId id st = Some st'.
Proof.
  induction fuel as [|fuel IH]; intros id st [Hnd [Hincl Hlen]].
  - exfalso. pose proof (NoDup_incl_length Hnd Hincl). simpl in Hlen. lia.
  - simpl. destruct (has id (visited st)); [now eexists|].
    destruct (has id (visiting st)) eqn:Hvg; [now eexists|].
    apply has_false in Hvg.
    destruct (successors byId id) as [|d ds] eqn:Hs.
    + simpl. now eexists.
    + assert (Hkey : In id (map_keys byId)).
      { apply successors_key. rewrite Hs. discriminate. }
      destruct (forEach_returns (dfs fuel byId) (enoughFuel fuel) IH
                  (enoughFuel_keep fuel) (d :: ds)
                  (mkDfs (id :: visiting st) (visited st) (cycles st)))
        as [st2 E].
      * split; [|split]; simpl.
        -- now constructor.
        -- intros x [<- | Hx]; [exact Hkey | now apply Hincl].
        -- simpl in Hlen. lia.
      * rewrite E. now eexists.
Qed.

Lemma detectCycles_returns (fuel : nat) :
  List.length byId < fuel -> exists errs, detectCycles fuel byId = Some errs.
Proof.
  intro Hlen. unfold detectCycles.
  destruct (forEach_returns (dfs fuel byId) (enoughFuel fuel) (dfs_returns fuel)
              (enoughFuel_keep fuel) (map_keys byId) (mkDfs [] [] [])) as [st E].
  - split; [constructor|]. split; [intros x []|].
    simpl. unfold map_keys. rewrite length_map. lia.
  - rewrite E. now eexists.
Qed.

End Fuel.

Lemma map_set_length (k : string) (v : value) (m : jsmap) :
  List.length (map_set k v m) <= S (List.length m).
Proof.
  induction m as [|[k' v'] m IH]; simpl; [lia|].
  destruct (String.eqb k k'); simpl; lia.
Qed.

Lemma indexTasks_length (tasks : list value) :
  forall m, List.length (indexTasks m tasks) <= List.length m + List.length tasks.
Proof.
  induction tasks as [|t tasks IH]; simpl; intro m; [lia|].
  destruct t; try (specialize (IH m); lia).
  destruct (lookup "id" fields); try (specialize (IH m); lia).
  specialize (IH (map_set s (VObj fields) m)).
  pose proof (map_set_length s (VObj fields) m). lia.
Qed.

(** [validatePlan] always returns: the fuel it is run with is enough. *)
Lemma validatePlan_returns (plan : value) :
  exists errs, validatePlan plan = Some errs.
Proof.
  unfold validatePlan, validatePlanFuel, planFuel.
  destruct (negb (isObj plan)); [now eexists|].
  destruct (get plan "tasks") as [| | | | |tasks|]; try now eexists.
  destruct (detectCycles_returns (indexTasks [] tasks) (S (List.length tasks)))
    as [errs E].
  - pose proof (indexTasks_length tasks []). simpl in *. lia.
  - rewrite E. now eexists.
Qed.

(** *** When each check pushes nothing *)

Lemma app_nil_iff {A : Type} (l1 l2 : list A) :
  (l1 ++ l2)%list = [] <-> l1 = [] /\ l2 = [].
Proof.
  split; [apply app_eq_nil | intros [-> ->]; reflexivity].
Qed.

Lemma validateString_nil (p : string) (v : value) :
  validateString p v 1 = [] <-> nonEmptyStr v.
Proof.
  unfold validateString, nonEmptyStr. destruct v; simpl;
    try (split; [discriminate | intros [s0 [H _]]; discriminate]).
  destruct s as [|c s]; simpl.
  - split; [discriminate | intros [s0 [H Hne]]; inversion H; subst; congruence].
  - split; [|reflexivity]. intros _. eexists. split; [reflexivity | discriminate].
Qed.

Lemma validateItems_nil (p : string) (items : list value) :
  forall i, validateItems p i items = [] <-> Forall nonEmptyStr items.
Proof.
  induction items as [|x items IH]; simpl; intro i.
  - split; auto.
  - rewrite app_nil_iff, validateString_nil, IH. split.
    + intros [Hx Hxs]. now constructor.
    + intro H. inversion H; subst. now split.
Qed.

Lemma validateStringArray_nil (p : string) (v : value) (n : nat) :
  validateStringArray p v n = []
  <-> exists items, v = VArr items /\ n <= List.length items /\ Forall nonEmptyStr items.
Proof.
  unfold validateStringArray. destruct v;
    try (split; [discriminate | intros [items [H _]]; discriminate]).
  rewrite app_nil_iff, validateItems_nil. split.
  - intros [Hlen Hall]. exists items. split; [reflexivity|]. split; [|exact Hall].
    destruct (Nat.ltb_spec (List.length items) n); [discriminate | assumption].
  - intros [items' [Heq [Hlen Hall]]]. inversion Heq; subst. split; [|exact Hall].
    destruct (Nat.ltb_spec (List.length items') n); [lia | reflexivity].
Qed.

Lemma dependsOn_check_nil (p : string) (v : value) :
  validateStringArray p (or_else v (VArr [])) 0 = []
  <-> truthy v = false \/ exists deps, v = VArr deps /\ Forall nonEmptyStr deps.
Proof.
  unfold or_else. destruct (truthy v) eqn:Ht.
  - rewrite validateStringArray_nil. split.
    + intros [items [Heq [_ Hall]]]. right. now exists items.
    + intros [Hf | [deps [Heq Hall]]]; [discriminate|].
      exists deps. repeat split; auto. lia.
  - split; [now left | reflexivity].
Qed.

Lemma nonEmptyStr_isStr (v : value) : nonEmptyStr v -> isStr v = true.
Proof. intros [s [-> _]]. reflexivity. Qed.

Lemma validateTasks_nil (tasks : list value) :
  forall i ids,
    validateTasks i ids tasks = []
    <-> Forall taskShape tasks
        /\ NoDup (map taskId tasks)
        /\ (forall t, In t tasks -> ~ In (taskId t) ids).
Proof.
  induction tasks as [|t tasks IH]; intros i ids.
  - simpl. split; [|reflexivity]. intros _. repeat split; [constructor | constructor|].
    intros t [].
  - cbn [validateTasks]. destruct (isObj t) eqn:Hobj; cbn [negb].
    + rewrite !app_nil_iff, !validateString_nil, dependsOn_check_nil,
        validateStringArray_nil.
      split.
      * intros [Hid [Htitle [Hkind [Hdeps [Hpre [Hprompt Hrest]]]]]].
        rewrite (nonEmptyStr_isStr _ Hid) in Hrest.
        apply app_nil_iff in Hrest. destruct Hrest as [Hdup Hrest].
        apply IH in Hrest. destruct Hrest as [Hshapes [Hnd Hfresh]].
        assert (Hnew : ~ In (taskId t) ids).
        { apply has_false. unfold taskId. destruct (has (get t "id") ids); [discriminate | reflexivity]. }
        split; [|split].
        -- constructor; [|exact Hshapes]. unfold taskShape. repeat split; auto.
           ++ destruct (value_eqb (get t "kind") (VStr "patch")) eqn:Hk; [|discriminate].
              now apply value_eqb_eq in Hk.
           ++ destruct Hpre as [ps [Heq [Hlen Hall]]]. exists ps. repeat split; auto.
              destruct ps; [simpl in Hlen; lia | discriminate].
        -- simpl. constructor; [|exact Hnd].
           intro Hin. apply in_map_iff in Hin. destruct Hin as [t' [Heq Hin']].
           apply (Hfresh t' Hin'). rewrite Heq. now left.
        -- intros t' [<- | Hin']; [exact Hnew|].
           intro Hin. apply (Hfresh t' Hin'). now right.
      * intros [Hshapes [Hnd Hfresh]].
        inversion Hshapes as [|? ? Hshape Hshapes']; subst.
        inversion Hnd as [|? ? Hnotin Hnd']; subst.
        destruct Hshape as [_ [Hid [Htitle [Hkind [Hdeps [[ps [Heq [Hne Hall]]] Hprompt]]]]]].
        repeat split; auto.
        -- rewrite Hkind. reflexivity.
        -- exists ps. repeat split; auto. destruct ps; [congruence | simpl; lia].
        -- rewrite (nonEmptyStr_isStr _ Hid). apply app_nil_iff. split.
           ++ assert (Hf : has (get t "id") ids = false).
              { apply has_false. apply (Hfresh t). now left. }
              now rewrite Hf.
           ++ apply IH. repeat split; auto.
              intros t' Hin' [Hsame | Hin].
              ** apply Hnotin. apply in_map_iff. exists t'. split; [now symmetry | exact Hin'].
              ** apply (Hfresh t'); [now right | exact Hin].
    + split; [discriminate|]. intros [Hshapes _]. inversion Hshapes as [|? ? Hshape _]; subst.
      destruct Hshape as [Ho _]. congruence.
Qed.

(** *** [tasksById] holds exactly the tasks of a plan with unique ids *)

Lemma map_find_set (s k : string) (v : value) (m : jsmap) :
  map_find s (map_set k v m) = if String.eqb s k then Some v else map_find s m.
Proof.
  induction m as [|[k' v'] m IH]; simpl; [reflexivity|].
  destruct (String.eqb k k') eqn:Ek; simpl.
  - apply String.eqb_eq in Ek. subst k'. now destruct (String.eqb s k).
  - rewrite IH. destruct (String.eqb s k') eqn:Es; [|reflexivity].
    apply String.eqb_eq in Es. subst k'.
    rewrite String.eqb_sym in Ek. now rewrite Ek.
Qed.

Lemma indexTasks_found (s : string) (t : value) (tasks : list value) :
  forall m,
    map_find s (indexTasks m tasks) = Some t ->
    (In t tasks /\ isObj t = true /\ taskId t = VStr s) \/ map_find s m = Some t.
Proof.
  induction tasks as [|t0 tasks IH]; simpl; intros m H; [now right|].
  assert (Hskip : map_find s (indexTasks m tasks) = Some t ->
                  (In t tasks /\ isObj t = true /\ taskId t = VStr s) \/ map_find s m = Some t)
    by apply IH.
  destruct t0 as [| | | | | |fields];
    try (destruct (Hskip H) as [[Hin Hrest] | Hm]; [left; split; [now right | exact Hrest] | now right]).
  destruct (lookup "id" fields) as [| | | |k| |] eqn:Hid;
    try (destruct (Hskip H) as [[Hin Hrest] | Hm]; [left; split; [now right | exact Hrest] | now right]).
  destruct (IH _ H) as [[Hin Hrest] | Hm].
  - left. split; [now right | exact Hrest].
  - rewrite map_find_set in Hm. destruct (String.eqb s k) eqn:Es; [|now right].
    apply String.eqb_eq in Es. subst k. inversion Hm; subst.
    left. split; [now left|]. split; [reflexivity | exact Hid].
Qed.

Lemma indexTasks_other (s : string) (tasks : list value) :
  forall m,
    (forall t, In t tasks -> taskId t <> VStr s) ->
    map_find s (indexTasks m tasks) = map_find s m.
Proof.
  induction tasks as [|t0 tasks IH]; simpl; intros m Hne; [reflexivity|].
  assert (Hrest : forall t, In t tasks -> taskId t <> VStr s) by (intros; apply Hne; now right).
  destruct t0 as [| | | | | |fields]; try now apply IH.
  destruct (lookup "id" fields) as [| | | |k| |] eqn:Hid; try now apply IH.
  rewrite (IH _ Hrest), map_find_set.
  destruct (String.eqb s k) eqn:Es; [|reflexivity].
  apply String.eqb_eq in Es. subst k. exfalso.
  apply (Hne (VObj fields)); [now left | exact Hid].
Qed.

Lemma indexTasks_find (s : string) (t : value) (tasks : list value) :
  forall m,
    NoDup (map taskId tasks) -> In t tasks -> isObj t = true -> taskId t = VStr s ->
    map_find s (indexTasks m tasks) = Some t.
Proof.
  induction tasks as [|t0 tasks IH]; simpl; intros m Hnd Hin Hobj Hid; [contradiction|].
  inversion Hnd as [|? ? Hnotin Hnd']; subst.
  destruct Hin as [-> | Hin].
  - destruct t as [| | | | | |fields]; try discriminate.
    unfold taskId in Hid. simpl in Hid. rewrite Hid.
    rewrite indexTasks_other.
    + rewrite map_find_set, String.eqb_refl. reflexivity.
    + intros t' Hin' Heq. apply Hnotin. apply in_map_iff. exists t'.
      split; [|exact Hin']. rewrite Heq. unfold taskId. simpl. now rewrite Hid.
  - destruct t0 as [| | | | | |fields]; try now apply IH.
    destruct (lookup "id" fields); now apply IH.
Qed.

Section Indexed.

Variable plan : value.
Variable tasks : list value.
Hypothesis plan_tasks : get plan "tasks" = VArr tasks.
Hypothesis shapes : Forall taskShape tasks.
Hypothesis unique : NoDup (map taskId tasks).

Let byId : jsmap := indexTasks [] tasks.

Lemma task_is_indexed (t : value) :
  In t tasks -> exists s, taskId t = VStr s /\ map_find s byId = Some t.
Proof.
  intro Hin. pose proof (proj1 (Forall_forall _ _) shapes t Hin) as Hshape.
  destruct Hshape as [Hobj [[s [Hid _]] _]].
  exists s. split; [exact Hid|]. now apply indexTasks_find.
Qed.

Lemma successors_dependsOn (a b : value) :
  In b (successors byId a) <-> dependsOn plan a b.
Proof.
  unfold dependsOn, planTasks. rewrite plan_tasks. split.
  - unfold successors, map_get. destruct a as [| | | |s| |]; simpl; try contradiction.
    destruct (map_find s byId) as [t|] eqn:E; [|contradiction].
    apply indexTasks_found in E. destruct E as [[Hin [_ Hid]] | E]; [|discriminate].
    intro Hb. now exists t.
  - intros [t [Hin [Hid Hb]]]. destruct (task_is_indexed t Hin) as [s [Hs Hfind]].
    unfold successors, map_get. rewrite <- Hid, Hs, Hfind. exact Hb.
Qed.

Lemma map_has_task (d : value) :
  map_has byId d = true <-> exists t, In t tasks /\ taskId t = d.
Proof.
  unfold map_has, map_get. split.
  - destruct d as [| | | |s| |]; try discriminate.
    destruct (map_find s byId) as [t|] eqn:E; [|discriminate]. intros _.
    apply indexTasks_found in E. destruct E as [[Hin [_ Hid]] | E]; [|discriminate].
    now exists t.
  - intros [t [Hin Hid]]. destruct (task_is_indexed t Hin) as [s [Hs Hfind]].
    rewrite <- Hid, Hs, Hfind. reflexivity.
Qed.

Lemma validateDepRefs_nil (i : nat) (deps : list value) :
  forall j,
    validateDepRefs byId i j deps = []
    <-> forall d, In d deps -> exists t, In t tasks /\ taskId t = d.
Proof.
  induction deps as [|d deps IH]; simpl; intro j.
  - split; [intros _ d [] | reflexivity].
  - rewrite app_nil_iff, IH. split.
    + intros [Hd Hrest] x [<- | Hx]; [|now apply Hrest].
      apply map_has_task. destruct (map_has byId d); [reflexivity | discriminate].
    + intro Hall. split; [|intros x Hx; apply Hall; now right].
      rewrite (proj2 (map_has_task d)); [reflexivity | apply Hall; now left].
Qed.

Lemma validateRefs_nil (sub : list value) :
  incl sub tasks ->
  forall i,
    validateRefs byId i sub = []
    <-> forall t d, In t sub -> In d (depsOf t) -> exists t', In t' tasks /\ taskId t' = d.
Proof.
  induction sub as [|t sub IH]; simpl; intros Hincl i.
  - split; [intros _ t d [] | reflexivity].
  - assert (Hshape : taskShape t).
    { apply (proj1 (Forall_forall _ _) shapes). apply Hincl. now left. }
    destruct Hshape as [Hobj [Hid _]]. apply nonEmptyStr_isStr in Hid.
    rewrite Hobj, Hid. simpl.
    rewrite app_nil_iff, validateDepRefs_nil, IH
      by (intros x Hx; apply Hincl; now right).
    split.
    + intros [Ht Hrest] t' d [<- | Hin] Hd; [now apply Ht | now apply (Hrest t')].
    + intro Hall. split.
      * intros d Hd. apply (Hall t); [now left | exact Hd].
      * intros t' d Hin Hd. apply (Hall t'); [now right | exact Hd].
Qed.

Lemma clos_trans_successors (a b : value) :
  clos_trans value (fun x y => In y (successors byId x)) a b
  <-> clos_trans value (dependsOn plan) a b.
Proof.
  split; intro H; induction H as [x y He | x y z _ IH1 _ IH2].
  - apply t_step. now apply successors_dependsOn.
  - now apply t_trans with y.
  - apply t_step. now apply successors_dependsOn.
  - now apply t_trans with y.
Qed.

Lemma detectCycles_nil (fuel : nat) (errs : list error) :
  detectCycles fuel byId = Some errs -> (errs = [] <-> acyclic plan).
Proof.
  unfold detectCycles.
  destruct (forEach (dfs fuel byId) (map_keys byId) (mkDfs [] [] [])) as [st|] eqn:E;
    [|discriminate].
  intro H. inversion H; subst; clear H. split.
  - intros Hnil a Hcyc. apply clos_trans_successors in Hcyc.
    destruct (forEach_sound byId (dfs fuel byId) (dfs_sound byId fuel) _ _ _ E)
      as [[_ Htopo] [_ [_ Hall]]].
    { split; simpl; [intros x [] | intros _; exact I]. }
    destruct (Hall Hnil) as [_ Hkeys].
    apply (topo_no_cycle byId (visited st) (Htopo Hnil) a); [|exact Hcyc].
    apply Hkeys. apply successors_key.
    apply clos_trans_t1n in Hcyc. inversion Hcyc as [y He | y z He _]; subst;
      intro Hs; rewrite Hs in He; contradiction.
  - intro Hac.
    assert (Hno : forall a, ~ clos_trans value (fun x y => In y (successors byId x)) a a).
    { intros a Hcyc. apply (Hac a). now apply clos_trans_successors. }
    apply (forEach_complete byId (dfs fuel byId) (map_keys byId) (dfs_visiting byId fuel)
             (fun id st0 st1 _ => dfs_complete byId Hno fuel id st0 st1)
             (mkDfs [] [] []) st E).
    intros v id [].
Qed.

End Indexed.

(** *** The plans [validatePlan] accepts *)

Definition emptyPlan : value :=
  VObj [("version", VNum 1); ("intent", VStr "x"); ("tasks", VArr [])].

Definition sampleTask (id : string) (deps : list string) : value :=
  VObj [("id", VStr id); ("title", VStr "t"); ("kind", VStr "patch");
        ("dependsOn", VArr (map VStr deps));
        ("allowedPathPrefixes", VArr [VStr "src/"]); ("prompt", VStr "p")].

Definition samplePlan (tasks : list value) : value :=
  VObj [("version", VNum 1); ("intent", VStr "x"); ("tasks", VArr tasks)].

Example validatePlan_chain :
  validatePlan (samplePlan [sampleTask "a" ["b"]; sampleTask "b" []]) = Some [].
Proof. reflexivity. Qed.

(** A plan with tasks A -> B -> A reports a cycle. *)
Example validatePlan_mutual :
  validatePlan (samplePlan [sampleTask "a" ["b"]; sampleTask "b" ["a"]])
  = Some [mkError "$.tasks" ("cycle detected at task " ++ dq ++ "a" ++ dq)].
Proof. reflexivity. Qed.

(** The cycle is reported next to the structural errors of the same pass. *)
Example validatePlan_cycle_and_shape :
  validatePlan (VObj [("version", VNum 2); ("intent", VStr "x");
                      ("tasks", VArr [sampleTask "a" ["a"]])])
  = Some [mkError "$.version" "expected 1";
          mkError "$.tasks" ("cycle detected at task " ++ dq ++ "a" ++ dq)].
Proof. reflexivity. Qed.

(** C1, as amended.  [validatePlan] returns no error exactly for the plans
    that are objects, carry a non-empty task array whose tasks all have the
    required fields ([id], [title], [prompt] non-empty strings, [kind] equal
    to "patch", [dependsOn] absent or an array of non-empty strings,
    [allowedPathPrefixes] a non-empty array of non-empty strings), and meet
    the five conditions of the specification: version 1, non-empty intent,
    unique task ids, every [dependsOn] entry resolving to a task of the
    plan, and an acyclic dependency graph. *)
Theorem validatePlan_accepts_wellFormed (plan : value) :
  validatePlan plan = Some [] <-> wellFormed plan.
Proof.
  unfold validatePlan, validatePlanFuel, planFuel, wellFormed, specValid.
  destruct (isObj plan) eqn:Hobj; cbn [negb];
    [|split; [discriminate | intros [H _]; discriminate]].
  destruct (get plan "tasks") as [| | | | |tasks|] eqn:Htasks;
    try (split; [intro H; inversion H as [H0]; apply app_nil_iff in H0;
                 destruct H0; discriminate
                |intros [_ [[ts [H _]] _]]; discriminate]).
  destruct (detectCycles_returns (indexTasks [] tasks) (S (List.length tasks)))
    as [cyc Hcyc].
  { pose proof (indexTasks_length tasks []). simpl in *. lia. }
  rewrite Hcyc.
  unfold idsUnique, depsResolve, planTasks. rewrite Htasks.
  split.
  - intro H. inversion H as [H0]; clear H.
    rewrite !app_nil_iff in H0.
    destruct H0 as [[Hver Hint] [Hlen [Hts [Hrefs Hc]]]].
    apply validateString_nil in Hint.
    apply validateTasks_nil in Hts. destruct Hts as [Hshapes [Hnd _]].
    split; [reflexivity|]. split.
    + exists tasks. repeat split; auto. destruct tasks; [discriminate | discriminate].
    + split.
      * destruct (value_eqb (get plan "version") (VNum 1)) eqn:Hv; [|discriminate].
        now apply value_eqb_eq in Hv.
      * split; [exact Hint|]. split; [exact Hnd|]. split.
        -- apply (validateRefs_nil tasks Hshapes Hnd tasks (incl_refl _) 0). exact Hrefs.
        -- apply (detectCycles_nil plan tasks Htasks Hshapes Hnd _ _ Hcyc). exact Hc.
  - intros [_ [[ts [Hts [Hne Hshapes]]] [Hver [Hint [Hnd [Hres Hac]]]]]].
    inversion Hts; subst ts; clear Hts.
    f_equal. rewrite !app_nil_iff. repeat split.
    + rewrite Hver. reflexivity.
    + now apply validateString_nil.
    + destruct tasks; [congruence | reflexivity].
    + apply validateTasks_nil. repeat split; auto.
    + apply (validateRefs_nil tasks Hshapes Hnd tasks (incl_refl _) 0). exact Hres.
    + apply (detectCycles_nil plan tasks Htasks Hshapes Hnd _ _ Hcyc). exact Hac.
Qed.

Lemma emptyPlan_specValid : specValid emptyPlan.
Proof.
  unfold specValid, idsUnique, depsResolve, acyclic. simpl.
  split; [reflexivity|]. split; [exists "x"; split; [reflexivity | discriminate]|].
  split; [constructor|]. split; [intros t d []|].
  intros a H. apply clos_trans_t1n in H.
  inversion H as [y [t [[] _]] | y z [t [[] _]] _].
Qed.

(** C1, as stated, fails: a plan with version 1, a non-empty intent and an
    empty task list meets the five conditions, and [validatePlan] rejects
    it with "expected at least 1 task". *)
Lemma validatePlan_rejects_specValid :
  ~ (validatePlan emptyPlan = Some [] <-> specValid emptyPlan).
Proof.
  intros [_ H]. specialize (H emptyPlan_specValid). discriminate H.
Qed.

(** The plans [validatePlan] accepts are well formed (one half of the
    characterisation above, for the lemmas on the accepted plans). *)
Lemma validatePlan_sound (plan : value) : validatePlan plan = Some [] -> wellFormed plan.
Proof.
  unfold validatePlan, validatePlanFuel, planFuel, wellFormed, specValid.
  destruct (isObj plan) eqn:Hobj; cbn [negb]; [|discriminate].
  destruct (get plan "tasks") as [| | | | |tasks|] eqn:Htasks;
    try (intro H; inversion H as [H0]; apply app_nil_iff in H0;
         destruct H0; discriminate).
  destruct (detectCycles (S (List.length tasks)) (indexTasks [] tasks)) as [cyc|] eqn:Hcyc;
    [|discriminate].
  unfold idsUnique, depsResolve, planTasks. rewrite Htasks.
  intro H. inversion H as [H0]; clear H.
  rewrite !app_nil_iff in H0.
  destruct H0 as [[Hver Hint] [Hlen [Hts [Hrefs Hc]]]].
  apply validateString_nil in Hint.
  apply validateTasks_nil in Hts. destruct Hts as [Hshapes [Hnd _]].
  split; [reflexivity|]. split.
  - exists tasks. repeat split; auto. destruct tasks; discriminate.
  - split.
    + destruct (value_eqb (get plan "version") (VNum 1)) eqn:Hv; [|discriminate].
      now apply value_eqb_eq in Hv.
    + split; [exact Hint|]. split; [exact Hnd|]. split.
      * apply (validateRefs_nil tasks Hshapes Hnd tasks (incl_refl _) 0). exact Hrefs.
      * apply (detectCycles_nil plan tasks Htasks Hshapes Hnd _ _ Hcyc). exact Hc.
Qed.

End Validate.

(** ** scripts/ecc/diff.js *)

Module Diff.

(** [/^[A-Za-z]:\//.test(s)] *)
Definition isLetter (c : ascii) : bool :=
  let n := nat_of_ascii c in
  ((65 <=? n)%nat && (n <=? 90)%nat) || ((97 <=? n)%nat && (n <=? 122)%nat).

Definition hasDrivePrefix (s : string) : bool :=
  match s with
  | String c (String c1 (String c2 _)) =>
      isLetter c && Ascii.eqb c1 (chr 58) && Ascii.eqb c2 (chr 47)
  | _ => false
  end.

(** [normalizeRepoPath]; [None] is the [null] of the source. *)
Definition normalizeRepoPath (p : string) : option string :=
  let posix := toPosix p in
  if startsWith "/" posix || hasDrivePrefix posix then None
  else
    let norm := posixNormalize posix in
    if String.eqb norm "." || startsWith "../" norm || includes "/../" norm
    then None
    else Some norm.

(** The groups of [/^diff --git a\/(.+?) b\/(.+)$/] on the text after
    ["diff --git a/"]: the first group is the shortest non-empty prefix
    followed by [" b/"] and a non-empty rest; the dot matches no line
    terminator, and the rest must reach the end of the line.
    [splitAtB s] looks for the separator at every position of [s]. *)
Fixpoint splitAtB (s : string) : option (string * string) :=
  match s with
  | EmptyString => None
  | String c rest =>
      match stripPrefix " b/" s with
      | Some (String y ys) => Some (EmptyString, String y ys)
      | _ =>
          match splitAtB rest with
          | Some (a, b) => Some (String c a, b)
          | None => None
          end
      end
  end.

Definition matchHeader (line : string) : option (string * string) :=
  match stripPrefix "diff --git a/" line with
  | Some (String c rest) =>
      if allChars (fun x => negb (isLineTerminator x)) (String c rest) then
        match splitAtB rest with
        | Some (a, b) => Some (String c a, b)
        | None => None
        end
      else None
  | _ => None
  end.

(** An entry of the list [touchedFilesFromUnifiedDiff] returns. *)
Record touched : Type := mkTouched { tpath : string; invalid : bool }.

Definition seenHas (p : string) (seen : list string) : bool :=
  existsb (String.eqb p) seen.

(** The loop over the lines, with [seen] the set of the paths kept so far. *)
Fixpoint scanLines (seen : list string) (lines : list string) : list touched :=
  match lines with
  | [] => []
  | line :: rest =>
      if negb (startsWith "diff --git " line) then scanLines seen rest
      else
        match matchHeader line with
        | None => scanLines seen rest
        | Some (aPath, bPath) =>
            let file := if String.eqb bPath "/dev/null" then aPath else bPath in
            match normalizeRepoPath file with
            | None => mkTouched file true :: scanLines seen rest
            | Some normalized =>
                if seenHas normalized seen then scanLines seen rest
                else mkTouched normalized false :: scanLines (normalized :: seen) rest
            end
        end
  end.

Definition touchedFilesFromUnifiedDiff (patchText : string) : list touched :=
  scanLines [] (splitLines patchText).

(** The list [allowed] of [ensureOwned]. *)
Definition allowedOf (allowedPathPrefixes : value) : list string :=
  filter (fun p => negb (String.eqb p ""))
    (map (fun p => if endsWithChar (chr 47) p then p else p ++ "/")
       (map (fun p => toPosix (toString (or_else p (VStr ""))))
          (match allowedPathPrefixes with VArr ps => ps | _ => [] end))).

(** The entry of [allowed] that a prefix gives: the two [map] steps. *)
Definition allowedEntry (p : string) : string :=
  let q := toPosix p in
  if endsWithChar (chr 47) q then q else q ++ "/".

(** [allowed.some(prefix => f.path === prefix.slice(0, -1) || f.path.startsWith(prefix))] *)
Definition owned (allowed : list string) (path : string) : bool :=
  existsb (fun prefix => String.eqb path (dropLast prefix) || startsWith prefix path)
          allowed.

Fixpoint violationsOf (allowed : list string) (touchedFiles : list touched)
  : list string :=
  match touchedFiles with
  | [] => []
  | f :: rest =>
      if invalid f then
        ("invalid path in patch: " ++ tpath f) :: violationsOf allowed rest
      else if owned allowed (tpath f) then violationsOf allowed rest
      else ("unauthorized path: " ++ tpath f) :: violationsOf allowed rest
  end.

Definition ensureOwned (touchedFiles : list touched) (allowedPathPrefixes : value)
  : result unit :=
  let allowed := allowedOf allowedPathPrefixes in
  match allowed with
  | [] => Throw "allowedPathPrefixes is empty"
  | _ =>
      match violationsOf allowed touchedFiles with
      | [] => Ok tt
      | violations =>
          Throw ("patch ownership check failed:" ++ nl ++ "- "
                   ++ join (nl ++ "- ") violations)
      end
  end.

(** What [runGit] returns, as far as [applyPatch] reads it. *)
Record gitResult : Type := mkGit { ok : bool; stderr : string }.

(** [res.stderr || fallback] *)
Definition stderrOr (res : gitResult) (fallback : string) : string :=
  if String.eqb (stderr res) "" then fallback else stderr res.

Definition malformedMessage : string :=
  "patch has content but no " ++ dq ++ "diff --git" ++ dq
    ++ " headers (not a unified diff?)".

Section ApplyPatch.

(** The working copy is the state.  [git apply --check] only reads it;
    [git apply] may change it; the kernel bridge, when enabled, runs a
    child process that may change it as well. *)
Variable worktree : Type.
Variable gitApplyCheck : worktree -> string -> gitResult.
Variable gitApply : worktree -> string -> worktree * gitResult.
Variable runKernel : worktree -> string -> value -> worktree * result value.

(** [patchText] is the content of the file at [patchPath]. *)
Definition applyPatch (wt : worktree) (patchPath patchText : string)
           (allowedPathPrefixes : value) : worktree * result (list value) :=
  match runKernel wt "patch.apply"
          (VObj [("patchPath", VStr patchPath);
                 ("allowedPathPrefixes",
                  if isArray allowedPathPrefixes then allowedPathPrefixes else VArr [])])
  with
  | (wt', Throw msg) => (wt', Throw msg)
  | (wt', Ok kernelOut) =>
      match (if truthy kernelOut then get kernelOut "touchedFiles" else VUndef) with
      | VArr files => (wt', Ok files)
      | _ =>
          if String.eqb (trim patchText) "" then (wt', Ok [])
          else
            let touchedFiles := touchedFilesFromUnifiedDiff patchText in
            match touchedFiles with
            | [] =>
                (wt', Throw malformedMessage)
            | _ =>
                match ensureOwned touchedFiles allowedPathPrefixes with
                | Throw msg => (wt', Throw msg)
                | Ok _ =>
                    let res := gitApplyCheck wt' patchText in
                    if negb (ok res) then
                      (wt', Throw (stderrOr res "git apply --check failed"))
                    else
                      let (wt'', res') := gitApply wt' patchText in
                      if negb (ok res') then
                        (wt'', Throw (stderrOr res' "git apply failed"))
                      else (wt'', Ok (map (fun t => VStr (tpath t)) touchedFiles))
                end
            end
      end
  end.

(** The bridge in [node] mode, or without a helper binary: [runKernel]
    returns [null] and starts no process. *)
Definition kernelDisabled : Prop :=
  forall wt command input, runKernel wt command input = (wt, Ok VNull).

End ApplyPatch.

(** *** What the specification says of ownership *)

(** The separators at the end of [s] removed. *)
Fixpoint stripSeparators (s : string) : string :=
  match s with
  | EmptyString => EmptyString
  | String c rest =>
      match stripSeparators rest with
      | EmptyString => if Ascii.eqb c (chr 47) then EmptyString else String c EmptyString
      | kept => String c kept
      end
  end.

(** The prefix with its trailing separator stripped; separators are
    written as forward slashes. *)
Definition strippedPrefix (prefix : string) : string := stripSeparators (toPosix prefix).

(** The prefix normalized to end with a single trailing separator. *)
Definition singleSeparatorPrefix (prefix : string) : string := strippedPrefix prefix ++ "/".

(** The words of the specification: the path equals the prefix with the
    separator stripped, or starts with the normalized prefix. *)
Definition authorizedBy (prefix path : string) : Prop :=
  path = strippedPrefix prefix
  \/ startsWith (singleSeparatorPrefix prefix) path = true.

(** The prefix ends with no separator, or with one. *)
Definition oneSeparatorAtMost (prefix : string) : Prop :=
  toPosix prefix = strippedPrefix prefix
  \/ toPosix prefix = singleSeparatorPrefix prefix.

Definition isSeparator (c : ascii) : bool := Ascii.eqb c (chr 47).

(** A diff section header: ["diff --git a/<old> b/<new>"] on one line. *)
Definition isHeaderLine (line : string) : Prop :=
  exists a b,
    line = "diff --git a/" ++ a ++ " b/" ++ b
    /\ a <> "" /\ b <> ""
    /\ allChars (fun x => negb (isLineTerminator x)) a = true
    /\ allChars (fun x => negb (isLineTerminator x)) b = true.






(** A small world to run [applyPatch] in: the working copy is the list of
    the patches applied to it, and the helper binary is absent. *)
Definition sampleCheck (wt : list string) (patch : string) : gitResult := mkGit true "".
Definition sampleApply (wt : list string) (patch : string) : list string * gitResult :=
  (patch :: wt, mkGit true "").
Definition noKernel (wt : list string) (command : string) (input : value)
  : list string * result value := (wt, Ok VNull).

(** *** Strings *)

Lemma stripPrefix_app (p : string) : forall s r, stripPrefix p s = Some r <-> s = p ++ r.
Proof.
  induction p as [|a p IH]; intros s r; simpl.
  - split; [intro H; now inversion H | intros ->; reflexivity].
  - destruct s as [|b s].
    + split; discriminate.
    + destruct (Ascii.eqb a b) eqn:E.
      * apply Ascii.eqb_eq in E. subst b. rewrite IH. split; [intros ->; reflexivity|].
        intro H. now inversion H.
      * split; [discriminate|]. intro H. inversion H; subst.
        now rewrite Ascii.eqb_refl in E.
Qed.

Lemma startsWith_app (p s : string) : startsWith p (p ++ s) = true.
Proof.
  induction p as [|a p IH]; simpl; [reflexivity|].
  now rewrite Ascii.eqb_refl.
Qed.

Lemma allChars_app (f : ascii -> bool) (a b : string) :
  allChars f (a ++ b) = allChars f a && allChars f b.
Proof.
  induction a as [|c a IH]; simpl; [reflexivity|].
  rewrite IH. now rewrite andb_assoc.
Qed.

Lemma endsWithChar_nonempty (c : ascii) (s : string) :
  endsWithChar c s = true -> s <> "".
Proof. destruct s; [discriminate | discriminate]. Qed.

Lemma allowedEntry_nonempty (p : string) : allowedEntry p <> "".
Proof.
  unfold allowedEntry. destruct (endsWithChar (chr 47) (toPosix p)) eqn:E.
  - now apply endsWithChar_nonempty in E.
  - destruct (toPosix p); discriminate.
Qed.

(** *** The header scan *)

Lemma splitAtB_some (s a b : string) :
  splitAtB s = Some (a, b) -> s = a ++ " b/" ++ b /\ b <> "".
Proof.
  revert a b. induction s as [|c s IH]; intros a b; [discriminate|].
  cbn [splitAtB].
  destruct (stripPrefix " b/" (String c s)) as [[|y ys]|] eqn:E.
  - destruct (splitAtB s) as [[a' b']|]; [|discriminate].
    intro H. inversion H; subst. destruct (IH a' b eq_refl) as [-> Hb]. now split.
  - intro H. inversion H; subst. apply stripPrefix_app in E. split; [exact E | discriminate].
  - destruct (splitAtB s) as [[a' b']|]; [|discriminate].
    intro H. inversion H; subst. destruct (IH a' b eq_refl) as [-> Hb]. now split.
Qed.

Lemma splitAtB_none_tail (s : string) :
  splitAtB s = None ->
  forall a b tail, b <> "" -> tail = " b/" ++ b -> s <> a ++ tail.
Proof.
  induction s as [|c s IH]; intros Hnone a b tail Hb Htail Heq.
  - destruct a; subst; discriminate.
  - cbn [splitAtB] in Hnone. destruct a as [|c' a].
    + assert (E : stripPrefix " b/" (String c s) = Some b).
      { apply stripPrefix_app. rewrite Heq, Htail. reflexivity. }
      rewrite E in Hnone. destruct b; [congruence | discriminate].
    + change (String c' a ++ tail) with (String c' (a ++ tail)) in Heq.
      injection Heq as Hc Hs.
      destruct (splitAtB s) as [[a' b']|] eqn:Es.
      * destruct (stripPrefix " b/" (String c s)) as [[|? ?]|]; discriminate.
      * now apply (IH eq_refl a b tail).
Qed.

Lemma splitAtB_none (s : string) :
  splitAtB s = None -> forall a b, b <> "" -> s <> a ++ " b/" ++ b.
Proof.
  intros Hnone a b Hb. now apply (splitAtB_none_tail s Hnone a b).
Qed.

Lemma matchHeader_none (line : string) :
  matchHeader line = None <-> ~ isHeaderLine line.
Proof.
  unfold matchHeader, isHeaderLine. split.
  - intros Hnone [a [b [Hline [Ha [Hb [Hta Htb]]]]]].
    destruct a as [|c a]; [congruence|].
    assert (E : stripPrefix "diff --git a/" line = Some (String c (a ++ " b/" ++ b))).
    { apply stripPrefix_app. rewrite Hline. reflexivity. }
    rewrite E in Hnone.
    assert (Hall : allChars (fun x => negb (isLineTerminator x))
                            (String c (a ++ " b/" ++ b)) = true).
    { change (String c (a ++ " b/" ++ b)) with (String c a ++ (" b/" ++ b)).
      rewrite allChars_app, Hta. change (" b/" ++ b) with (" b/" ++ b).
      rewrite allChars_app, Htb. reflexivity. }
    rewrite Hall in Hnone.
    destruct (splitAtB (a ++ " b/" ++ b)) as [[a' b']|] eqn:Es; [discriminate|].
    now apply (splitAtB_none _ Es a b).
  - intro Hno. destruct (stripPrefix "diff --git a/" line) as [[|c rest]|] eqn:E;
      try reflexivity.
    destruct (allChars _ (String c rest)) eqn:Hall; [|reflexivity].
    destruct (splitAtB rest) as [[a b]|] eqn:Es; [|reflexivity].
    exfalso. apply Hno. apply splitAtB_some in Es. destruct Es as [-> Hb].
    apply stripPrefix_app in E.
    change (String c (a ++ " b/" ++ b)) with (String c a ++ (" b/" ++ b)) in Hall.
    rewrite allChars_app in Hall. apply andb_true_iff in Hall. destruct Hall as [Ha Hrest].
    rewrite allChars_app in Hrest. apply andb_true_iff in Hrest. destruct Hrest as [_ Hb'].
    exists (String c a), b. repeat split; auto. discriminate.
Qed.

Lemma matchHeader_startsWith (line : string) :
  matchHeader line <> None -> startsWith "diff --git " line = true.
Proof.
  unfold matchHeader. destruct (stripPrefix "diff --git a/" line) as [r|] eqn:E;
    [|congruence].
  intros _. apply stripPrefix_app in E. subst line.
  change ("diff --git a/" ++ r) with ("diff --git " ++ ("a/" ++ r)).
  apply startsWith_app.
Qed.

Lemma scanLines_nil (lines : list string) :
  scanLines [] lines = [] <-> Forall (fun line => ~ isHeaderLine line) lines.
Proof.
  induction lines as [|line lines IH]; cbn [scanLines].
  - split; auto.
  - destruct (matchHeader line) as [[aPath bPath]|] eqn:Em.
    + rewrite matchHeader_startsWith by congruence. cbn [negb seenHas existsb].
      split.
      * destruct (normalizeRepoPath _); discriminate.
      * intro H. inversion H as [|? ? Hline _]; subst.
        apply matchHeader_none in Hline. congruence.
    + assert (Hskip : (if negb (startsWith "diff --git " line)
                       then scanLines [] lines else scanLines [] lines) = [] <->
                      Forall (fun l => ~ isHeaderLine l) (line :: lines)).
      { destruct (negb _); rewrite IH; split.
        - intro H. constructor; [now apply matchHeader_none | exact H].
        - intro H. now inversion H.
        - intro H. constructor; [now apply matchHeader_none | exact H].
        - intro H. now inversion H. }
      exact Hskip.
Qed.

(** *** The ownership check *)


Lemma violationsOf_nil (allowed : list string) (files : list touched) :
  violationsOf allowed files = []
  <-> forall f, In f files -> invalid f = false /\ owned allowed (tpath f) = true.
Proof.
  induction files as [|f files IH]; simpl.
  - split; [intros _ f [] | reflexivity].
  - destruct (invalid f) eqn:Hi.
    + split; [discriminate|]. intro H. destruct (H f (or_introl eq_refl)). congruence.
    + destruct (owned allowed (tpath f)) eqn:Ho.
      * rewrite IH. split.
        -- intros H x [<- | Hx]; [now split | now apply H].
        -- intros H x Hx. apply H. now right.
      * split; [discriminate|]. intro H. destruct (H f (or_introl eq_refl)). congruence.
Qed.

Lemma allowedOf_strings (prefixes : list string) :
  allowedOf (VArr (map VStr prefixes)) = map allowedEntry prefixes.
Proof.
  unfold allowedOf. rewrite !map_map.
  induction prefixes as [|p ps IH]; simpl; [reflexivity|].
  assert (Hp : toString (or_else (VStr p) (VStr "")) = p).
  { unfold or_else. simpl. destruct (String.eqb_spec p ""); simpl; congruence. }
  rewrite Hp. fold (allowedEntry p).
  destruct (String.eqb_spec (allowedEntry p) "") as [E|_].
  - now apply allowedEntry_nonempty in E.
  - simpl. now rewrite IH.
Qed.

Lemma stripSeparators_split (s : string) :
  exists t, s = stripSeparators s ++ t
            /\ allChars isSeparator t = true
            /\ endsWithChar (chr 47) (stripSeparators s) = false.
Proof.
  induction s as [|c s [t [Hs [Ht Hend]]]]; cbn [stripSeparators].
  - exists "". now repeat split.
  - destruct (stripSeparators s) as [|k kept] eqn:E.
    + cbn [append] in Hs. subst t.
      destruct (Ascii.eqb c (chr 47)) eqn:Ec.
      * exists (String c s). cbn [append allChars]. unfold isSeparator at 1.
        rewrite Ec, Ht. now repeat split.
      * exists s. cbn [append]. repeat split; [exact Ht|].
        unfold endsWithChar. cbn [lastChar]. now rewrite Ascii.eqb_sym.
    + exists t. cbn [append] in *. rewrite <- Hs. now repeat split.
Qed.

Lemma startsWith_app_l (a b s : string) :
  startsWith (a ++ b) s = true -> startsWith a s = true.
Proof.
  revert s. induction a as [|c a IH]; intro s; cbn [append startsWith]; [reflexivity|].
  destruct s as [|k s]; [discriminate|].
  destruct (Ascii.eqb c k); [apply IH | discriminate].
Qed.

Lemma dropLast_cons (k : ascii) (rest : string) :
  rest <> "" -> dropLast (String k rest) = String k (dropLast rest).
Proof. destruct rest; [congruence | reflexivity]. Qed.

Lemma dropLast_app (a : string) (c : ascii) (b : string) :
  dropLast (a ++ String c b) = a ++ dropLast (String c b).
Proof.
  induction a as [|k a IH]; [reflexivity|].
  cbn [append]. rewrite dropLast_cons by (destruct a; discriminate).
  now rewrite IH.
Qed.

Lemma endsWithChar_app (c : ascii) (a : string) (k : ascii) (b : string) :
  endsWithChar c (a ++ String k b) = endsWithChar c (String k b).
Proof.
  unfold endsWithChar. induction a as [|x a IH]; [reflexivity|].
  cbn [append]. rewrite <- IH.
  destruct (a ++ String k b) eqn:E; [destruct a; discriminate | reflexivity].
Qed.

Lemma endsWithChar_separators (t : string) :
  t <> "" -> allChars isSeparator t = true -> endsWithChar (chr 47) t = true.
Proof.
  unfold endsWithChar.
  induction t as [|c t IH]; [congruence|]. intros _ H. cbn [allChars] in H.
  apply andb_true_iff in H. destruct H as [Hc Ht].
  destruct t as [|k t]; [cbn [lastChar]; now rewrite Ascii.eqb_sym|].
  apply IH; [discriminate | exact Ht].
Qed.

(** What the code tests for one prefix, against the words of the
    specification. *)
Lemma ownedBy_authorizedBy (p path : string) :
  (String.eqb path (dropLast (allowedEntry p)) || startsWith (allowedEntry p) path
   = true -> authorizedBy p path)
  /\ (oneSeparatorAtMost p -> authorizedBy p path ->
      String.eqb path (dropLast (allowedEntry p)) || startsWith (allowedEntry p) path
      = true).
Proof.
  unfold authorizedBy, oneSeparatorAtMost, singleSeparatorPrefix, strippedPrefix,
    allowedEntry.
  destruct (stripSeparators_split (toPosix p)) as [t [Hq [Ht Hend]]].
  generalize dependent (stripSeparators (toPosix p)). intros s Hq Hend.
  generalize dependent (toPosix p). intros q Hq. subst q.
  destruct t as [|c t].
  - rewrite !append_nil_r, Hend.
    replace (dropLast (s ++ "/")) with s
      by (rewrite dropLast_app; cbn [dropLast]; now rewrite append_nil_r).
    rewrite orb_true_iff, String.eqb_eq. split; [tauto | intros _; tauto].
  - cbn [allChars] in Ht. apply andb_true_iff in Ht. destruct Ht as [Hc Ht].
    apply Ascii.eqb_eq in Hc. subst c.
    assert (Hends : endsWithChar (chr 47) (s ++ String (chr 47) t) = true).
    { rewrite endsWithChar_app. apply endsWithChar_separators; [discriminate|].
      cbn [allChars]. now rewrite Ht. }
    rewrite Hends. split.
    + rewrite orb_true_iff, String.eqb_eq. intros [Hp | Hp].
      * rewrite dropLast_app in Hp. destruct t as [|k t].
        -- cbn [dropLast] in Hp. rewrite append_nil_r in Hp. now left.
        -- right. rewrite Hp. change (dropLast (String (chr 47) (String k t)))
             with (String (chr 47) (dropLast (String k t))).
           change (s ++ String (chr 47) (dropLast (String k t)))
             with (s ++ "/" ++ dropLast (String k t)).
           rewrite <- append_assoc. apply startsWith_app.
      * right.
        change (s ++ String (chr 47) t) with (s ++ "/" ++ t) in Hp.
        rewrite <- append_assoc in Hp. exact (startsWith_app_l _ _ _ Hp).
    + intros [Hone | Hone] Hauth.
      * exfalso. rewrite Hone in Hends. congruence.
      * rewrite Hone, dropLast_app. cbn [dropLast].
        rewrite append_nil_r, orb_true_iff, String.eqb_eq. exact Hauth.
Qed.

Lemma owned_authorized (prefixes : list string) (path : string) :
  owned (map allowedEntry prefixes) path = true ->
  exists p, In p prefixes /\ authorizedBy p path.
Proof.
  unfold owned. rewrite existsb_exists.
  intros [q [Hin Hq]]. apply in_map_iff in Hin. destruct Hin as [p [<- Hin]].
  exists p. split; [exact Hin|]. now apply ownedBy_authorizedBy.
Qed.

Lemma authorized_owned (prefixes : list string) (path : string) :
  Forall oneSeparatorAtMost prefixes ->
  (exists p, In p prefixes /\ authorizedBy p path) ->
  owned (map allowedEntry prefixes) path = true.
Proof.
  intros Hone [p [Hin Hp]]. unfold owned. rewrite existsb_exists.
  exists (allowedEntry p). split; [now apply in_map|].
  apply ownedBy_authorizedBy; [|exact Hp].
  rewrite Forall_forall in Hone. now apply Hone.
Qed.

Lemma ensureOwned_ok (files : list touched) (allowedPathPrefixes : value) :
  ensureOwned files allowedPathPrefixes = Ok tt
  <-> allowedOf allowedPathPrefixes <> []
      /\ forall f, In f files ->
           invalid f = false /\ owned (allowedOf allowedPathPrefixes) (tpath f) = true.
Proof.
  unfold ensureOwned. rewrite <- violationsOf_nil.
  destruct (allowedOf allowedPathPrefixes) as [|q qs] eqn:Ea.
  - split; [discriminate | intros [H _]; congruence].
  - destruct (violationsOf (q :: qs) files) eqn:Ev.
    + split; [intros _; split; [discriminate | reflexivity] | reflexivity].
    + split; [discriminate | intros [_ H]; discriminate].
Qed.

(** *** A blank patch has no header *)

Lemma trimEnd_empty (s : string) : trimEnd s = "" -> allChars isWhite s = true.
Proof.
  induction s as [|c s IH]; simpl; [reflexivity|].
  destruct (trimEnd s); [|discriminate].
  destruct (isWhite c); [intros _; now apply IH | discriminate].
Qed.

Lemma trimStart_white (s : string) :
  allChars isWhite (trimStart s) = true -> allChars isWhite s = true.
Proof.
  induction s as [|c s IH]; simpl; [reflexivity|].
  destruct (isWhite c) eqn:E; simpl; [exact IH|].
  rewrite E. discriminate.
Qed.

Lemma trim_empty_white (s : string) : trim s = "" -> allChars isWhite s = true.
Proof.
  intro H. apply trimStart_white. now apply trimEnd_empty.
Qed.

Lemma splitLines_white (n : nat) :
  forall s, String.length s <= n -> allChars isWhite s = true ->
    Forall (fun line => allChars isWhite line = true) (splitLines s).
Proof.
  induction n as [|n IH]; intros s Hlen Hw.
  - destruct s; [repeat constructor | simpl in Hlen; lia].
  - destruct s as [|c rest]; [repeat constructor|].
    simpl in Hlen, Hw. apply andb_true_iff in Hw. destruct Hw as [Hc Hrest].
    cbn [splitLines]. destruct (Ascii.eqb c (chr 10)).
    + constructor; [reflexivity|]. apply IH; [lia | exact Hrest].
    + destruct rest as [|c' rest'].
      * repeat constructor. simpl. now rewrite Hc.
      * destruct (Ascii.eqb c (chr 13) && Ascii.eqb c' (chr 10)).
        -- constructor; [reflexivity|]. simpl in Hlen, Hrest.
           apply andb_true_iff in Hrest. apply IH; [lia | apply Hrest].
        -- assert (Hall : Forall (fun line => allChars isWhite line = true)
                                 (splitLines (String c' rest')))
             by (apply IH; [lia | exact Hrest]).
           destruct (splitLines (String c' rest')) as [|cur more].
           ++ repeat constructor. simpl. now rewrite Hc.
           ++ inversion Hall; subst. constructor; [|assumption].
              simpl. rewrite Hc. assumption.
Qed.

Lemma scanLines_white (lines : list string) :
  Forall (fun line => allChars isWhite line = true) lines ->
  forall seen, scanLines seen lines = [].
Proof.
  induction 1 as [|line lines Hline _ IH]; intro seen; cbn [scanLines]; [reflexivity|].
  assert (Hno : startsWith "diff --git " line = false).
  { destruct line as [|c line]; [reflexivity|].
    simpl in Hline. apply andb_true_iff in Hline. destruct Hline as [Hc _].
    cbn [startsWith].
    destruct (Ascii.eqb_spec "d"%char c) as [<-|]; [discriminate | reflexivity]. }
  rewrite Hno. cbn [negb]. apply IH.
Qed.

Lemma blank_patch_no_header (patchText : string) :
  trim patchText = "" -> touchedFilesFromUnifiedDiff patchText = [].
Proof.
  intro H. apply scanLines_white.
  apply (splitLines_white (String.length patchText)); [lia | now apply trim_empty_white].
Qed.

(** *** Ownership enforcement, patch by patch *)

Section ApplyPatchFacts.

Variable worktree : Type.
Variable gitApplyCheck : worktree -> string -> gitResult.
Variable gitApply : worktree -> string -> worktree * gitResult.
Variable runKernel : worktree -> string -> value -> worktree * result value.
Hypothesis local : kernelDisabled worktree runKernel.

Lemma applyPatch_blank (wt : worktree) (patchPath patchText : string) (allowed : value) :
  trim patchText = "" ->
  applyPatch worktree gitApplyCheck gitApply runKernel wt patchPath patchText allowed
  = (wt, Ok []).
Proof.
  intro H. unfold applyPatch. rewrite local. simpl. now rewrite H.
Qed.

Lemma applyPatch_no_header (wt : worktree) (patchPath patchText : string) (allowed : value) :
  trim patchText <> "" ->
  touchedFilesFromUnifiedDiff patchText = [] ->
  applyPatch worktree gitApplyCheck gitApply runKernel wt patchPath patchText allowed
  = (wt, Throw malformedMessage).
Proof.
  intros H Hno. unfold applyPatch. rewrite local. simpl.
  destruct (String.eqb_spec (trim patchText) ""); [contradiction|].
  now rewrite Hno.
Qed.

Lemma applyPatch_rejected (wt : worktree) (patchPath patchText : string)
      (allowed : value) (msg : string) :
  touchedFilesFromUnifiedDiff patchText <> [] ->
  ensureOwned (touchedFilesFromUnifiedDiff patchText) allowed = Throw msg ->
  applyPatch worktree gitApplyCheck gitApply runKernel wt patchPath patchText allowed
  = (wt, Throw msg).
Proof.
  intros Hne Hthrow. unfold applyPatch. rewrite local. simpl.
  destruct (String.eqb_spec (trim patchText) "") as [E|_].
  - now apply blank_patch_no_header in E.
  - destruct (touchedFilesFromUnifiedDiff patchText); [congruence|].
    now rewrite Hthrow.
Qed.

End ApplyPatchFacts.

(** C2.  With a non-empty list of allowed prefixes, a touched path that
    the ownership check lets through is, for some prefix, the prefix with
    its trailing separators stripped, or starts with that prefix normalized
    to end with a single separator; when every prefix ends with at most
    one separator the converse holds too, and the check lets through
    exactly these paths.  The prefix "src/" lets "src/a.txt" and
    "src/sub/b.txt" through and stops "srcx/a.txt" and "README.md".  A
    patch stopped by the check leaves the working copy as it was: the
    failure is returned before any [git apply]. *)
Theorem ownership_authorizes (prefixes : list string) (path : string) :
  prefixes <> [] ->
  (ensureOwned [mkTouched path false] (VArr (map VStr prefixes)) = Ok tt ->
   exists p, In p prefixes /\ authorizedBy p path)
  /\ (Forall oneSeparatorAtMost prefixes ->
      (ensureOwned [mkTouched path false] (VArr (map VStr prefixes)) = Ok tt
       <-> exists p, In p prefixes /\ authorizedBy p path))
  /\ (ensureOwned [mkTouched "src/a.txt" false] (VArr [VStr "src/"]) = Ok tt
      /\ ensureOwned [mkTouched "src/sub/b.txt" false] (VArr [VStr "src/"]) = Ok tt
      /\ ensureOwned [mkTouched "srcx/a.txt" false] (VArr [VStr "src/"])
         = Throw ("patch ownership check failed:" ++ nl
                    ++ "- unauthorized path: srcx/a.txt")
      /\ ensureOwned [mkTouched "README.md" false] (VArr [VStr "src/"])
         = Throw ("patch ownership check failed:" ++ nl
                    ++ "- unauthorized path: README.md"))
  /\ (forall (worktree : Type) gitApplyCheck gitApply runKernel
             (wt : worktree) patchPath patchText msg,
        kernelDisabled worktree runKernel ->
        ensureOwned (touchedFilesFromUnifiedDiff patchText) (VArr (map VStr prefixes))
        = Throw msg ->
        applyPatch worktree gitApplyCheck gitApply runKernel wt patchPath patchText
                   (VArr (map VStr prefixes))
        = (wt, Throw msg)).
Proof.
  intro Hne.
  assert (Hsound : ensureOwned [mkTouched path false] (VArr (map VStr prefixes)) = Ok tt ->
                   exists p, In p prefixes /\ authorizedBy p path).
  { rewrite ensureOwned_ok, allowedOf_strings. intros [_ H].
    apply owned_authorized. apply (H (mkTouched path false)). now left. }
  split; [exact Hsound|]. split; [|split].
  - intro Hone. split; [exact Hsound|].
    rewrite ensureOwned_ok, allowedOf_strings.
    intro H. split; [destruct prefixes; [congruence | discriminate]|].
    intros f [<- | []]. split; [reflexivity | now apply authorized_owned].
  - repeat split; reflexivity.
  - intros worktree check apply kernel wt patchPath patchText msg Hlocal Hthrow.
    apply applyPatch_rejected; [exact Hlocal | | exact Hthrow].
    intro Hnil. rewrite Hnil in Hthrow. unfold ensureOwned in Hthrow.
    rewrite allowedOf_strings in Hthrow. destruct prefixes; [congruence | discriminate].
Qed.

(** The prefix "src/" lets the directory "src" itself through, and a
    patch to a file outside the prefixes is stopped before [git apply]. *)
Lemma ownership_authorizes_witness :
  (ensureOwned [mkTouched "src" false] (VArr (map VStr ["docs"; "src/"])) = Ok tt
   <-> exists p, In p ["docs"; "src/"] /\ authorizedBy p "src")
  /\ ensureOwned [mkTouched "src" false] (VArr (map VStr ["docs"; "src/"])) = Ok tt
  /\ applyPatch (list string) sampleCheck sampleApply noKernel []
       "patches/t1.diff" "diff --git a/README.md b/README.md"
       (VArr (map VStr ["docs"; "src/"]))
     = ([], Throw ("patch ownership check failed:" ++ nl
                     ++ "- unauthorized path: README.md")).
Proof.
  destruct (ownership_authorizes ["docs"; "src/"] "src") as [_ [H2 [_ H4]]].
  - discriminate.
  - assert (Hone : Forall oneSeparatorAtMost ["docs"; "src/"]).
    { constructor; [left; reflexivity|]. constructor; [right; reflexivity | constructor]. }
    split; [exact (H2 Hone)|]. split.
    + apply (H2 Hone). exists "src/". split; [right; now left | now left].
    + apply H4; [intros wt c i; reflexivity | reflexivity].
Defined.

(** C2, as stated, fails: a separator is appended to a prefix that lacks
    one, and repeated separators at the end of a prefix are kept.  The
    prefix "src//", normalized to end with a single separator, is "src/"
    and "src/a.txt" starts with it; the check compares with "src//" and
    stops the path. *)
Lemma doubled_separator_not_normalized :
  singleSeparatorPrefix "src//" = "src/"
  /\ ensureOwned [mkTouched "src/a.txt" false] (VArr (map VStr ["src//"]))
     = Throw ("patch ownership check failed:" ++ nl
                ++ "- unauthorized path: src/a.txt")
  /\ ~ (ensureOwned [mkTouched "src/a.txt" false] (VArr (map VStr ["src//"])) = Ok tt
        <-> exists p, In p ["src//"] /\ authorizedBy p "src/a.txt").
Proof.
  split; [reflexivity|]. split; [reflexivity|].
  intros [_ H]. assert (F : ensureOwned [mkTouched "src/a.txt" false]
                                       (VArr (map VStr ["src//"])) = Ok tt).
  { apply H. exists "src//". split; [now left | right; reflexivity]. }
  discriminate F.
Qed.

(** C3.  Without the helper binary, [applyPatch] on an empty or
    whitespace-only patch succeeds with no touched file, and on a patch
    with other content but no diff section header on any of its lines it
    fails as malformed; in both cases the working copy is left as it was. *)
Theorem applyPatch_blank_or_malformed
        (worktree : Type) gitApplyCheck gitApply runKernel
        (wt : worktree) (patchPath patchText : string) (allowed : value) :
  kernelDisabled worktree runKernel ->
  (trim patchText = "" ->
   applyPatch worktree gitApplyCheck gitApply runKernel wt patchPath patchText allowed
   = (wt, Ok []))
  /\ (trim patchText <> "" ->
      Forall (fun line => ~ isHeaderLine line) (splitLines patchText) ->
      applyPatch worktree gitApplyCheck gitApply runKernel wt patchPath patchText allowed
      = (wt, Throw malformedMessage)).
Proof.
  intro Hlocal. split.
  - now apply applyPatch_blank.
  - intros Hne Hlines. apply applyPatch_no_header; auto.
    now apply scanLines_nil.
Qed.

Lemma applyPatch_blank_or_malformed_witness :
  applyPatch (list string) sampleCheck sampleApply noKernel []
    "patches/t1.diff" ("  " ++ nl) (VArr [VStr "src/"]) = ([], Ok [])
  /\ applyPatch (list string) sampleCheck sampleApply noKernel []
       "patches/t1.diff" ("no change needed" ++ nl) (VArr [VStr "src/"])
     = ([], Throw malformedMessage).
Proof.
  split.
  - apply (applyPatch_blank_or_malformed (list string) sampleCheck sampleApply noKernel);
      [intros wt c i; reflexivity | reflexivity].
  - apply (applyPatch_blank_or_malformed (list string) sampleCheck sampleApply noKernel).
    + intros wt c i. reflexivity.
    + discriminate.
    + repeat constructor; apply matchHeader_none; reflexivity.
Defined.

(** *** Unsafe paths and the list of violations *)







(** The path [..] alone is kept as a valid touched file. *)
Example parent_directory_kept :
  touchedFilesFromUnifiedDiff "diff --git a/.. b/.." = [mkTouched ".." false].
Proof. reflexivity. Qed.

(** *** More on the touched files *)

Definition validPaths (files : list touched) : list string :=
  map tpath (filter (fun f => negb (invalid f)) files).

Lemma seenHas_In (p : string) (seen : list string) : seenHas p seen = true <-> In p seen.
Proof.
  unfold seenHas. rewrite existsb_exists. split.
  - intros [x [Hin Heq]]. apply String.eqb_eq in Heq. now subst.
  - intro Hin. exists p. split; [exact Hin | apply String.eqb_refl].
Qed.

Lemma scanLines_fresh (lines : list string) :
  forall seen,
    NoDup (validPaths (scanLines seen lines))
    /\ forall p, In p (validPaths (scanLines seen lines)) -> ~ In p seen.
Proof.
  induction lines as [|line lines IH]; intro seen; cbn [scanLines].
  - split; [constructor | intros p []].
  - destruct (negb (startsWith "diff --git " line)); [apply IH|].
    destruct (matchHeader line) as [[aPath bPath]|]; [|apply IH].
    destruct (normalizeRepoPath _) as [normalized|]; [|apply IH].
    destruct (seenHas normalized seen) eqn:Hseen; [apply IH|].
    destruct (IH (normalized :: seen)) as [Hnd Hfresh].
    unfold validPaths in *. cbn [filter invalid negb map tpath]. split.
    + constructor; [|exact Hnd]. intro Hin. apply (Hfresh _ Hin). now left.
    + intros p [<- | Hin].
      * intro Hin. apply seenHas_In in Hin. congruence.
      * intro Hp. apply (Hfresh _ Hin). now right.
Qed.

Lemma splitLines_one (line : string) :
  allChars (fun x => negb (isLineTerminator x)) line = true ->
  splitLines line = [line].
Proof.
  induction line as [|c line IH]; [reflexivity|].
  cbn [allChars]. intro H. apply andb_true_iff in H. destruct H as [Hc Hrest].
  unfold isLineTerminator in Hc. apply negb_true_iff, orb_false_iff in Hc.
  destruct Hc as [Hn Hr]. cbn [splitLines]. rewrite Hn.
  destruct line as [|c' line']; [reflexivity|].
  rewrite Hr. cbn [andb]. now rewrite (IH Hrest).
Qed.

Definition noSpace (s : string) : bool :=
  allChars (fun c => negb (Ascii.eqb c " "%char)) s.

Lemma splitAtB_first (old new : string) :
  noSpace old = true -> new <> "" -> splitAtB (old ++ " b/" ++ new) = Some (old, new).
Proof.
  intros Hold Hnew. induction old as [|c old IH].
  - destruct new as [|y ys]; [congruence|]. reflexivity.
  - unfold noSpace in Hold. cbn [allChars] in Hold. apply andb_true_iff in Hold.
    destruct Hold as [Hc Hrest]. apply negb_true_iff in Hc.
    change ((String c old) ++ " b/" ++ new) with (String c (old ++ " b/" ++ new)).
    cbn [splitAtB stripPrefix]. rewrite Ascii.eqb_sym, Hc. now rewrite (IH Hrest).
Qed.

Lemma matchHeader_rename (old new : string) :
  old <> "" -> noSpace old = true -> new <> "" ->
  allChars (fun x => negb (isLineTerminator x)) old = true ->
  allChars (fun x => negb (isLineTerminator x)) new = true ->
  matchHeader ("diff --git a/" ++ old ++ " b/" ++ new) = Some (old, new).
Proof.
  intros Hne Hsp Hnew Hold Hln. unfold matchHeader.
  assert (E : stripPrefix "diff --git a/" ("diff --git a/" ++ old ++ " b/" ++ new)
              = Some (old ++ " b/" ++ new)) by now apply stripPrefix_app.
  rewrite E. destruct old as [|c old]; [congruence|].
  change ((String c old) ++ " b/" ++ new) with (String c (old ++ " b/" ++ new)).
  cbv beta iota.
  assert (Hall : allChars (fun x => negb (isLineTerminator x))
                          (String c (old ++ " b/" ++ new)) = true).
  { change (String c (old ++ " b/" ++ new)) with ((String c old) ++ " b/" ++ new).
    rewrite !allChars_app, Hold, Hln. reflexivity. }
  rewrite Hall. unfold noSpace in Hsp. cbn [allChars] in Hsp.
  apply andb_true_iff in Hsp. destruct Hsp as [_ Hsp].
  now rewrite (splitAtB_first old new Hsp Hnew).
Qed.

(** X3.  A path that passes [normalizeRepoPath] is listed once among the
    touched files, however many headers of the patch name it. *)
Theorem valid_touched_paths_listed_once (patchText : string) :
  NoDup (validPaths (touchedFilesFromUnifiedDiff patchText)).
Proof. apply (scanLines_fresh (splitLines patchText) []). Qed.

(** X4.  For a header line [diff --git a/<old> b/<new>] whose old path
    holds no space, the touched file is the new path alone: the old path
    of a rename or copy is not subject to the ownership check. *)
Theorem header_checks_destination_only (old new : string) :
  old <> "" -> noSpace old = true -> new <> "" -> new <> "/dev/null" ->
  allChars (fun x => negb (isLineTerminator x)) old = true ->
  allChars (fun x => negb (isLineTerminator x)) new = true ->
  touchedFilesFromUnifiedDiff ("diff --git a/" ++ old ++ " b/" ++ new)
  = [match normalizeRepoPath new with
     | Some normalized => mkTouched normalized false
     | None => mkTouched new true
     end].
Proof.
  intros Hne Hsp Hnew Hdev Hold Hln. unfold touchedFilesFromUnifiedDiff.
  rewrite splitLines_one.
  - cbn [scanLines].
    change ("diff --git a/" ++ old ++ " b/" ++ new)
      with ("diff --git " ++ ("a/" ++ old ++ " b/" ++ new)) at 1.
    rewrite startsWith_app. cbn [negb].
    rewrite (matchHeader_rename old new Hne Hsp Hnew Hold Hln).
    destruct (String.eqb_spec new "/dev/null"); [congruence|].
    destruct (normalizeRepoPath new); reflexivity.
  - change ("diff --git a/" ++ old ++ " b/" ++ new)
      with (("diff --git a/" ++ old) ++ " b/" ++ new)%string.
    rewrite append_assoc. rewrite !allChars_app, Hold, Hln. reflexivity.
Qed.

Lemma header_checks_destination_only_witness :
  touchedFilesFromUnifiedDiff ("diff --git a/" ++ "secrets/key.pem" ++ " b/" ++ "src/key.pem")
  = [mkTouched "src/key.pem" false]
  /\ ensureOwned
       (touchedFilesFromUnifiedDiff
          ("diff --git a/" ++ "secrets/key.pem" ++ " b/" ++ "src/key.pem"))
       (VArr [VStr "src/"])
     = Ok tt.
Proof.
  split.
  - apply (header_checks_destination_only "secrets/key.pem" "src/key.pem");
      try reflexivity; discriminate.
  - reflexivity.
Defined.

Lemma allowedOf_nonempty (p : value) (ps : list value) : allowedOf (VArr (p :: ps)) <> [].
Proof.
  unfold allowedOf. cbn [map].
  set (q := toPosix (toString (or_else p (VStr "")))).
  assert (Hq : (if endsWithChar (chr 47) q then q else q ++ "/") <> "").
  { destruct (endsWithChar (chr 47) q) eqn:E.
    - intro Hq. rewrite Hq in E. discriminate.
    - destruct q; discriminate. }
  cbn [filter]. destruct (String.eqb_spec (if endsWithChar (chr 47) q then q else q ++ "/") "");
    [contradiction | discriminate].
Qed.

(** X5.  [ensureOwned] refuses every patch with "allowedPathPrefixes is
    empty" exactly when the prefixes are not an array or an empty array:
    each entry of the array, once a slash is appended, is kept, so the
    filter that follows removes nothing. *)
Theorem ensureOwned_requires_prefixes (files : list touched) (allowedPathPrefixes : value) :
  ensureOwned files allowedPathPrefixes = Throw "allowedPathPrefixes is empty"
  <-> match allowedPathPrefixes with
      | VArr (_ :: _) => False
      | _ => True
      end.
Proof.
  destruct allowedPathPrefixes as [| | | | |[|p ps]|]; try (split; [auto | reflexivity]).
  split; [|contradiction].
  unfold ensureOwned. pose proof (allowedOf_nonempty p ps) as Hne.
  destruct (allowedOf (VArr (p :: ps))) as [|a allowed]; [congruence|].
  destruct (violationsOf (a :: allowed) files); discriminate.
Qed.

Section ApplyPatchEffects.

Variable worktree : Type.
Variable gitApplyCheck : worktree -> string -> gitResult.
Variable gitApply : worktree -> string -> worktree * gitResult.
Variable runKernel : worktree -> string -> value -> worktree * result value.

(** X6.  Without the helper binary, [applyPatch] changes the working copy
    through [git apply] alone, and only for a patch that names a touched
    file, passed the ownership check and passed [git apply --check]; in
    every other case the working copy is left as it was. *)
Theorem applyPatch_changes_only_checked
        (wt wt' : worktree) (patchPath patchText : string) (allowed : value)
        (r : result (list value)) :
  kernelDisabled worktree runKernel ->
  applyPatch worktree gitApplyCheck gitApply runKernel wt patchPath patchText allowed
  = (wt', r) ->
  wt' = wt
  \/ (touchedFilesFromUnifiedDiff patchText <> []
      /\ ensureOwned (touchedFilesFromUnifiedDiff patchText) allowed = Ok tt
      /\ ok (gitApplyCheck wt patchText) = true
      /\ wt' = fst (gitApply wt patchText)).
Proof.
  intros Hlocal. unfold applyPatch. rewrite Hlocal. cbn [truthy].
  destruct (String.eqb (trim patchText) ""); [intro H; inversion H; now left|].
  destruct (touchedFilesFromUnifiedDiff patchText) as [|f files] eqn:Et;
    [intro H; inversion H; now left|].
  destruct (ensureOwned (f :: files) allowed) as [[]|msg] eqn:Eo;
    [|intro H; inversion H; now left].
  destruct (ok (gitApplyCheck wt patchText)) eqn:Ec; cbn [negb];
    [|intro H; inversion H; now left].
  destruct (gitApply wt patchText) as [wt2 res] eqn:Ea.
  intro H. right. repeat split; try congruence.
  cbn [fst]. destruct (ok res); cbn [negb] in H; inversion H; reflexivity.
Qed.

End ApplyPatchEffects.

Lemma applyPatch_changes_only_checked_witness :
  let text := "diff --git a/src/a.txt b/src/a.txt" in
  [text] = []
  \/ (touchedFilesFromUnifiedDiff text <> []
      /\ ensureOwned (touchedFilesFromUnifiedDiff text) (VArr [VStr "src/"]) = Ok tt
      /\ ok (sampleCheck [] text) = true
      /\ [text] = fst (sampleApply [] text)).
Proof.
  apply (applyPatch_changes_only_checked (list string) sampleCheck sampleApply noKernel
           [] ["diff --git a/src/a.txt b/src/a.txt"] "p.diff"
           "diff --git a/src/a.txt b/src/a.txt" (VArr [VStr "src/"])
           (Ok [VStr "src/a.txt"])).
  - intros wt command input. reflexivity.
  - reflexivity.
Defined.

End Diff.

(** ** scripts/ecc/verify.js *)

Module Verify.

Definition isLowerAlnum (c : ascii) : bool :=
  let n := nat_of_ascii c in
  ((97 <=? n)%nat && (n <=? 122)%nat) || ((48 <=? n)%nat && (n <=? 57)%nat).

(** A character of the class [[a-z0-9._-]] *)
Definition isSafeChar (c : ascii) : bool :=
  isLowerAlnum c || Ascii.eqb c "."%char || Ascii.eqb c "_"%char || Ascii.eqb c "-"%char.

(** [s.replace(/[^a-z0-9._-]+/g, '-')]; [inRun] tells that the character
    before was replaced. *)
Fixpoint dashUnsafe (inRun : bool) (s : string) : string :=
  match s with
  | EmptyString => EmptyString
  | String c rest =>
      if isSafeChar c then String c (dashUnsafe false rest)
      else if inRun then dashUnsafe true rest
      else String "-"%char (dashUnsafe true rest)
  end.

Fixpoint dropDashes (s : string) : string :=
  match s with
  | String c rest => if Ascii.eqb c "-"%char then dropDashes rest else s
  | EmptyString => EmptyString
  end.

Fixpoint dropDashesEnd (s : string) : string :=
  match s with
  | EmptyString => EmptyString
  | String c rest =>
      match dropDashesEnd rest with
      | EmptyString => if Ascii.eqb c "-"%char then EmptyString else String c EmptyString
      | kept => String c kept
      end
  end.

(** [s.replace(/^-+|-+$/g, '')] *)
Definition trimDashes (s : string) : string := dropDashesEnd (dropDashes s).

Definition safeName (name : value) : string :=
  let cleaned :=
    trimDashes (dashUnsafe false
                  (toLowerCase (trim (toString (or_else name (VStr "command")))))) in
  if String.eqb cleaned "" then "command" else cleaned.

(** What [spawnSync] reports; [status] is [None] when it is not a number
    (the child was killed by a signal, or could not be started). *)
Record spawnResult : Type :=
  mkSpawn { status : option Z; stdout : string; stderr : string }.

Section RunVerify.

(** The machine outside the engine: the state [world] of the working copy and
    of the run directory, the shell, the file writes, the helper binary, the
    clock and the detection of the project's own scripts (which relies on
    [lib/package-manager]). *)
Variable world : Type.
(** [spawn w cwd command] runs [command] through a shell in [cwd]. *)
Variable spawn : world -> string -> string -> world * spawnResult.
Variable ensureDir : world -> string -> world.
Variable writeText : world -> string -> string -> world.
Variable writeJson : world -> string -> value -> world.
Variable existsSync : world -> string -> bool.
Variable runKernel : world -> string -> value -> world * result value.
Variable detectAutoCommands : world -> list value.
Variable nowIso : string.

(** [runCommand(command, { cwd })] *)
Definition runCommand (w : world) (command cwd : string)
  : world * (Z * string * string) :=
  let (w', res) := spawn w cwd command in
  (w', (match status res with Some n => n | None => 1%Z end, stdout res, stderr res)).

Definition getVerifyCommands (w : world) (verifyConfig : value) : list value :=
  if truthy verifyConfig && value_eqb (get verifyConfig "mode") (VStr "manual") then
    match get verifyConfig "commands" with
    | VArr commands => commands
    | _ => []
    end
  else detectAutoCommands w.

(** [stdout + (stderr ? (stdout.endsWith('\n') ? '' : '\n') + stderr : '')] *)
Definition combinedOutput (out err : string) : string :=
  out ++ (if String.eqb err "" then ""
          else (if endsWithChar (chr 10) out then "" else nl) ++ err).

(** The loop [for (const c of commands)], with the accumulators [results]
    and [ok] of the source. *)
Fixpoint verifyLoop (w : world) (worktreePath outDir : string)
         (results : list value) (ok : bool) (commands : list value)
  : world * list value * bool :=
  match commands with
  | [] => (w, results, ok)
  | c :: rest =>
      let name := safeName (get c "name") in
      let cmd := toString (or_else (get c "command") (VStr "")) in
      let outputPath := pathJoin [outDir; name ++ ".txt"] in
      let '(w1, (st, out, err)) := runCommand w cmd worktreePath in
      let entryOk := Z.eqb st 0 in
      let ok' := if negb entryOk then false else ok in
      let w2 := writeText w1 outputPath (combinedOutput out err) in
      verifyLoop w2 worktreePath outDir
        (results ++ [VObj [("name", VStr (toString (get c "name")));
                           ("command", VStr cmd);
                           ("ok", VBool entryOk);
                           ("exitCode", VNum st);
                           ("outputPath", VStr outputPath)]])%list
        ok' rest
  end.

Definition runVerify (w : world) (worktreePath : string) (verifyConfig : value)
           (outDir : string) : world * result value :=
  let w0 := ensureDir w outDir in
  let commands :=
    getVerifyCommands w0 (or_else verifyConfig (VObj [("mode", VStr "auto")])) in
  match runKernel w0 "verify.run"
          (VObj [("worktreePath", VStr worktreePath);
                 ("outDir", VStr outDir);
                 ("commands",
                  VArr (map (fun c => VObj [("name", VStr (toString (get c "name")));
                                            ("command", VStr (toString (get c "command")))])
                            commands))])
  with
  | (w1, Throw msg) => (w1, Throw msg)
  | (w1, Ok kernelOut) =>
      if negb (value_eqb kernelOut VNull) then
        if negb (truthy kernelOut) || negb (value_eqb (get kernelOut "version") (VNum 1))
        then (w1, Throw "ecc-kernel verify.run returned invalid output")
        else
          match Validate.throwIfErrors (Validate.validateVerifySummary kernelOut)
                                       "verify summary" with
          | Throw msg => (w1, Throw msg)
          | Ok _ =>
              let sumPath := pathJoin [outDir; "summary.json"] in
              ((if negb (existsSync w1 sumPath) then writeJson w1 sumPath kernelOut else w1),
               Ok kernelOut)
          end
      else
        let '(w2, results, ok) :=
          verifyLoop w1 worktreePath outDir [] true commands in
        let summary := VObj [("version", VNum 1);
                             ("ranAt", VStr nowIso);
                             ("commands", VArr results);
                             ("ok", VBool ok)] in
        match Validate.throwIfErrors (Validate.validateVerifySummary summary)
                                     "verify summary" with
        | Throw msg => (w2, Throw msg)
        | Ok _ => (writeJson w2 (pathJoin [outDir; "summary.json"]) summary, Ok summary)
        end
  end.


(** The bridge in [node] mode, or without a helper binary. *)
Definition kernelDisabled : Prop :=
  forall w command input, runKernel w command input = (w, Ok VNull).

(** *** What the specification says of a verification run *)

(** The configured command list: the commands that the configuration
    lists when its mode is [manual] (none when it holds no list), and
    otherwise the scripts detected in the working copy. *)
Inductive configuredCommands (detected : list value) (verifyConfig : value)
  : list value -> Prop :=
| listedCommands (commands : list value) :
    get verifyConfig "mode" = VStr "manual" ->
    get verifyConfig "commands" = VArr commands ->
    configuredCommands detected verifyConfig commands
| noListedCommands :
    get verifyConfig "mode" = VStr "manual" ->
    isArray (get verifyConfig "commands") = false ->
    configuredCommands detected verifyConfig []
| detectedCommands :
    get verifyConfig "mode" <> VStr "manual" ->
    configuredCommands detected verifyConfig detected.

(** A command as [validateConfig] admits it. *)
Definition validCommand (c : value) : Prop :=
  Validate.nonEmptyStr (get c "name") /\ Validate.nonEmptyStr (get c "command").

(** [ranAll w commands entries w']: from [w], the commands were run one
    after the other, each to completion whatever the earlier ones
    returned, leaving their output files and the world [w']; [entries]
    holds one record per command, in order. *)
Inductive ranAll (worktreePath outDir : string)
  : world -> list value -> list value -> world -> Prop :=
| ranNone (w : world) : ranAll worktreePath outDir w [] [] w
| ranNext (w w1 w' : world) (c : value) (rest entries : list value)
          (res : spawnResult) (code : Z) :
    spawn w worktreePath (toString (get c "command")) = (w1, res) ->
    code = match status res with Some n => n | None => 1%Z end ->
    ranAll worktreePath outDir
           (writeText w1 (pathJoin [outDir; safeName (get c "name") ++ ".txt"])
                      (combinedOutput (stdout res) (stderr res)))
           rest entries w' ->
    ranAll worktreePath outDir w (c :: rest)
           (VObj [("name", get c "name");
                  ("command", get c "command");
                  ("ok", VBool (Z.eqb code 0));
                  ("exitCode", VNum code);
                  ("outputPath",
                   VStr (pathJoin [outDir; safeName (get c "name") ++ ".txt"]))]
              :: entries)
           w'.

(** [exitCode == 0] of an entry of the summary. *)
Definition exitedZero (entry : value) : bool :=
  value_eqb (get entry "exitCode") (VNum 0).

Definition validEntry (entry : value) : Prop :=
  isObj entry = true
  /\ Validate.nonEmptyStr (get entry "name")
  /\ Validate.nonEmptyStr (get entry "command")
  /\ Validate.isBool (get entry "ok") = true
  /\ Validate.isInt (get entry "exitCode") = true
  /\ Validate.nonEmptyStr (get entry "outputPath").

End RunVerify.

Lemma posixNormalize_nonempty (p : string) : posixNormalize p <> "".
Proof.
  unfold posixNormalize. destruct (String.eqb p ""); [discriminate|].
  set (res := join "/" _).
  destruct (String.eqb_spec res "") as [E|E].
  - destruct (startsWith "/" p); [discriminate|].
    destruct (endsWithChar (chr 47) p); discriminate.
  - destruct (startsWith "/" p); [discriminate|].
    destruct (endsWithChar (chr 47) p); [|exact E].
    destruct res; [congruence | discriminate].
Qed.

Lemma pathJoin_nonempty (parts : list string) : pathJoin parts <> "".
Proof.
  unfold pathJoin. destruct (String.eqb _ ""); [discriminate|].
  apply posixNormalize_nonempty.
Qed.

Lemma validateCommands_nil (entries : list value) :
  Forall validEntry entries -> forall i, Validate.validateCommands i entries = [].
Proof.
  induction 1 as [|e entries [Hobj [Hn [Hc [Hok [Hcode Hout]]]]] _ IH]; intro i;
    [reflexivity|].
  cbn [Validate.validateCommands]. rewrite Hobj, Hok, Hcode. cbn [negb].
  rewrite (proj2 (Validate.validateString_nil _ _) Hn),
          (proj2 (Validate.validateString_nil _ _) Hc),
          (proj2 (Validate.validateString_nil _ _) Hout).
  simpl. apply IH.
Qed.

Section RunVerifyFacts.

Variable world : Type.
Variable spawn : world -> string -> string -> world * spawnResult.
Variable ensureDir : world -> string -> world.
Variable writeText : world -> string -> string -> world.
Variable writeJson : world -> string -> value -> world.
Variable existsSync : world -> string -> bool.
Variable runKernel : world -> string -> value -> world * result value.
Variable detectAutoCommands : world -> list value.
Variable nowIso : string.

Lemma verifyLoop_ranAll (worktreePath outDir : string) (commands : list value) :
  Forall validCommand commands ->
  forall w results ok,
  exists w' entries,
    verifyLoop world spawn writeText w worktreePath outDir results ok commands
    = (w', (results ++ entries)%list, ok && forallb exitedZero entries)
    /\ ranAll world spawn writeText worktreePath outDir w commands entries w'
    /\ Forall validEntry entries.
Proof.
  induction 1 as [|c rest [[n [Hn Hne]] [k [Hk Hke]]] _ IH]; intros w results ok.
  - exists w, []. simpl. rewrite app_nil_r, andb_true_r.
    repeat split; constructor.
  - cbn [verifyLoop]. unfold runCommand.
    assert (Hcmd : toString (or_else (get c "command") (VStr "")) = k).
    { rewrite Hk. unfold or_else. simpl.
      destruct (String.eqb_spec k ""); [contradiction | reflexivity]. }
    rewrite Hcmd.
    destruct (spawn w worktreePath k) as [w1 res] eqn:Es.
    set (code := match status res with Some z => z | None => 1%Z end).
    set (outputPath := pathJoin [outDir; safeName (get c "name") ++ ".txt"]).
    set (entry := VObj [("name", VStr (toString (get c "name")));
                        ("command", VStr k);
                        ("ok", VBool (Z.eqb code 0));
                        ("exitCode", VNum code);
                        ("outputPath", VStr outputPath)]).
    destruct (IH (writeText w1 outputPath (combinedOutput (stdout res) (stderr res)))
                 (results ++ [entry])%list
                 (if negb (Z.eqb code 0) then false else ok))
      as [w' [entries [Hloop [Hran Hvalid]]]].
    exists w', (entry :: entries). split; [|split].
    + rewrite Hloop, <- app_assoc. cbn [app forallb].
      assert (Hz : exitedZero entry = Z.eqb code 0) by reflexivity.
      rewrite Hz. clear Hz Hloop. clearbody entry.
      destruct (Z.eqb code 0); cbn [negb andb]; [reflexivity|].
      now rewrite andb_false_r.
    + unfold entry. rewrite Hn. simpl toString. rewrite <- Hn, <- Hk.
      apply ranNext with (w1 := w1) (res := res); auto.
      rewrite Hk. exact Es.
    + constructor; [|exact Hvalid]. unfold entry, validEntry. simpl.
      rewrite Hn. simpl.
      repeat split; try (eexists; split; [reflexivity | assumption]).
      exists outputPath. split; [reflexivity | apply pathJoin_nonempty].
Qed.

Lemma ranAll_length (worktreePath outDir : string) (w w' : world)
      (commands entries : list value) :
  ranAll world spawn writeText worktreePath outDir w commands entries w' ->
  List.length entries = List.length commands.
Proof.
  induction 1 as [|? ? ? ? ? ? ? ? _ _ _ IH]; simpl; [reflexivity | now rewrite IH].
Qed.

Lemma getVerifyCommands_configured (w : world) (verifyConfig : value)
      (commands : list value) :
  configuredCommands (detectAutoCommands w) verifyConfig commands ->
  getVerifyCommands world detectAutoCommands w
                    (or_else verifyConfig (VObj [("mode", VStr "auto")]))
  = commands.
Proof.
  unfold getVerifyCommands, or_else.
  intros [listed Hmode Hlist | Hmode Hlist | Hmode].
  - destruct verifyConfig; try discriminate Hmode. cbn [truthy andb].
    now rewrite Hmode, Hlist.
  - destruct verifyConfig; try discriminate Hmode. cbn [truthy andb].
    rewrite Hmode. cbn [value_eqb]. rewrite String.eqb_refl.
    destruct (get (VObj fields) "commands"); try reflexivity. discriminate Hlist.
  - destruct (truthy verifyConfig) eqn:Htruthy; [rewrite Htruthy; cbn [andb] | reflexivity].
    destruct (get verifyConfig "mode") as [ | | b | n | mode | items | fields];
      try reflexivity.
    cbn [value_eqb]. destruct (String.eqb_spec mode "manual") as [->|_];
      [congruence | reflexivity].
Qed.

(** C5.  Without the helper binary and with a non-empty time stamp, for
    every configured command list (the commands the configuration lists
    in [manual] mode, the detected scripts otherwise; each with a
    non-empty name and command line, as the configuration validator
    requires), [runVerify] runs every command of the list to completion,
    one after the other, whatever the earlier ones returned; the summary
    it returns and writes holds one entry per configured command, in
    order, and its [ok] field is the conjunction of [exitCode == 0] over
    all the entries ([true] when there is none). *)
Theorem runVerify_runs_all_and_ands_exit_codes
        (w : world) (worktreePath : string) (verifyConfig : value) (outDir : string)
        (commands : list value) :
  kernelDisabled world runKernel ->
  nowIso <> "" ->
  configuredCommands (detectAutoCommands (ensureDir w outDir)) verifyConfig commands ->
  Forall validCommand commands ->
  exists w' entries summary,
    runVerify world spawn ensureDir writeText writeJson existsSync runKernel
              detectAutoCommands nowIso w worktreePath verifyConfig outDir
    = (writeJson w' (pathJoin [outDir; "summary.json"]) summary, Ok summary)
    /\ ranAll world spawn writeText worktreePath outDir (ensureDir w outDir)
              commands entries w'
    /\ List.length entries = List.length commands
    /\ get summary "commands" = VArr entries
    /\ get summary "ok" = VBool (forallb exitedZero entries).
Proof.
  intros Hlocal Hnow Hconfigured Hvalid.
  destruct (verifyLoop_ranAll worktreePath outDir commands Hvalid (ensureDir w outDir)
                              [] true)
    as [w' [entries [Hloop [Hran Hentries]]]].
  exists w', entries.
  exists (VObj [("version", VNum 1); ("ranAt", VStr nowIso);
                ("commands", VArr entries); ("ok", VBool (forallb exitedZero entries))]).
  split; [|split; [exact Hran|split; [|split; reflexivity]]].
  - unfold runVerify. rewrite (getVerifyCommands_configured _ _ _ Hconfigured).
    rewrite Hlocal. cbn [value_eqb negb].
    rewrite Hloop. cbn [app andb].
    unfold Validate.validateVerifySummary. simpl isObj. cbn [negb].
    simpl get. cbn [value_eqb Z.eqb Pos.eqb Validate.isBool].
    rewrite (proj2 (Validate.validateString_nil _ _)) by (exists nowIso; now split).
    rewrite (validateCommands_nil entries Hentries). reflexivity.
  - exact (ranAll_length _ _ _ _ _ _ Hran).
Qed.

End RunVerifyFacts.

Definition sampleShell (w : list string) (cwd command : string)
  : list string * spawnResult :=
  (command :: w, if String.eqb command "exit 1" then mkSpawn (Some 1%Z) "" "boom"
                 else mkSpawn (Some 0%Z) "done" "").

Definition sampleWriteText (w : list string) (path content : string) : list string := w.
Definition sampleWriteJson (w : list string) (path : string) (data : value)
  : list string := w.
Definition sampleEnsureDir (w : list string) (path : string) : list string := w.
Definition sampleExists (w : list string) (path : string) : bool := false.
Definition noKernel (w : list string) (command : string) (input : value)
  : list string * result value := (w, Ok VNull).
Definition noAuto (w : list string) : list value := [].

Definition manualConfig : value :=
  VObj [("mode", VStr "manual");
        ("commands",
         VArr [VObj [("name", VStr "fail"); ("command", VStr "exit 1")];
               VObj [("name", VStr "build"); ("command", VStr "make")]])].

(** A failing first command does not stop the second one. *)
Example runVerify_after_failure :
  runVerify (list string) sampleShell sampleEnsureDir sampleWriteText sampleWriteJson
            sampleExists noKernel noAuto "2026-01-01T00:00:00.000Z"
            [] "/wt" manualConfig "/out"
  = (["make"; "exit 1"],
     Ok (VObj [("version", VNum 1); ("ranAt", VStr "2026-01-01T00:00:00.000Z");
               ("commands",
                VArr [VObj [("name", VStr "fail"); ("command", VStr "exit 1");
                            ("ok", VBool false); ("exitCode", VNum 1);
                            ("outputPath", VStr "/out/fail.txt")];
                      VObj [("name", VStr "build"); ("command", VStr "make");
                            ("ok", VBool true); ("exitCode", VNum 0);
                            ("outputPath", VStr "/out/build.txt")]]);
               ("ok", VBool false)])).
Proof. reflexivity. Qed.

(** Both commands of the configuration are run, the second one after the
    first one failed, and the summary holds the two entries. *)
Lemma runVerify_runs_all_and_ands_exit_codes_witness :
  let commands := [VObj [("name", VStr "fail"); ("command", VStr "exit 1")];
                   VObj [("name", VStr "build"); ("command", VStr "make")]] in
  exists w' entries summary,
    runVerify (list string) sampleShell sampleEnsureDir sampleWriteText sampleWriteJson
              sampleExists noKernel noAuto "2026-01-01T00:00:00.000Z"
              [] "/wt" manualConfig "/out"
    = (sampleWriteJson w' (pathJoin ["/out"; "summary.json"]) summary, Ok summary)
    /\ ranAll (list string) sampleShell sampleWriteText "/wt" "/out"
              (sampleEnsureDir [] "/out") commands entries w'
    /\ List.length entries = List.length commands
    /\ get summary "commands" = VArr entries
    /\ get summary "ok" = VBool (forallb exitedZero entries).
Proof.
  apply (runVerify_runs_all_and_ands_exit_codes (list string) sampleShell sampleEnsureDir
           sampleWriteText sampleWriteJson sampleExists noKernel noAuto
           "2026-01-01T00:00:00.000Z" [] "/wt" manualConfig "/out").
  - intros w c i. reflexivity.
  - discriminate.
  - apply listedCommands; reflexivity.
  - repeat constructor; eexists; (split; [reflexivity | discriminate]).
Defined.

(** *** The names of the output files *)

Lemma dashUnsafe_safe (s : string) :
  forall inRun, allChars isSafeChar (dashUnsafe inRun s) = true.
Proof.
  induction s as [|c s IH]; intro inRun; cbn [dashUnsafe]; [reflexivity|].
  destruct (isSafeChar c) eqn:Hc.
  - cbn [allChars]. now rewrite Hc, IH.
  - destruct inRun; [apply IH|]. cbn [allChars]. now rewrite IH.
Qed.

Lemma dropDashes_safe (s : string) :
  allChars isSafeChar s = true ->
  allChars isSafeChar (dropDashes s) = true /\ startsWith "-" (dropDashes s) = false.
Proof.
  induction s as [|c s IH]; cbn [dropDashes allChars]; intro H; [now split|].
  apply andb_true_iff in H. destruct H as [Hc Hs].
  destruct (Ascii.eqb c "-"%char) eqn:E; [now apply IH|].
  cbn [allChars startsWith]. rewrite Hc, Hs, Ascii.eqb_sym, E. now split.
Qed.

Lemma dropDashesEnd_safe (s : string) :
  allChars isSafeChar s = true ->
  allChars isSafeChar (dropDashesEnd s) = true
  /\ endsWithChar "-"%char (dropDashesEnd s) = false
  /\ (startsWith "-" s = false -> startsWith "-" (dropDashesEnd s) = false).
Proof.
  induction s as [|c s IH]; cbn [dropDashesEnd allChars]; intro H; [now repeat split|].
  apply andb_true_iff in H. destruct H as [Hc Hs].
  destruct (IH Hs) as [Hall [Hend _]].
  destruct (dropDashesEnd s) as [|k kept] eqn:Ek.
  - destruct (Ascii.eqb c "-"%char) eqn:E; [now repeat split|].
    cbn [allChars]. rewrite Hc. unfold endsWithChar. cbn [lastChar].
    rewrite Ascii.eqb_sym, E. repeat split. cbn [startsWith]. now rewrite Ascii.eqb_sym, E.
  - cbn [allChars]. rewrite Hc. cbn [andb]. split; [exact Hall|]. split.
    + unfold endsWithChar in *. exact Hend.
    + cbn [startsWith]. intro Hstart. apply andb_false_iff in Hstart.
      destruct Hstart as [-> | Hfalse]; [reflexivity | discriminate].
Qed.

Lemma safeName_shape (name : value) :
  safeName name <> ""
  /\ allChars isSafeChar (safeName name) = true
  /\ startsWith "-" (safeName name) = false
  /\ endsWithChar "-"%char (safeName name) = false.
Proof.
  unfold safeName, trimDashes.
  set (raw := dashUnsafe false (toLowerCase (trim (toString (or_else name (VStr "command")))))).
  destruct (dropDashes_safe raw (dashUnsafe_safe _ false)) as [Hall Hstart].
  destruct (dropDashesEnd_safe (dropDashes raw) Hall) as [Hall' [Hend Hstart']].
  destruct (String.eqb_spec (dropDashesEnd (dropDashes raw)) "") as [E|E].
  - repeat split; discriminate.
  - repeat split; auto.
Qed.

(** X7.  [safeName] always returns a name that is not empty, holds only
    characters of [a-z0-9._-] (so no path separator), and neither begins
    nor ends with a dash. *)
Theorem safeName_is_a_file_name (name : value) :
  safeName name <> ""
  /\ allChars isSafeChar (safeName name) = true
  /\ startsWith "-" (safeName name) = false
  /\ endsWithChar "-"%char (safeName name) = false.
Proof. exact (safeName_shape name). Qed.

(** *** Names that are already file names *)

Lemma safeChar_plain (c : ascii) :
  isSafeChar c = true -> isWhite c = false /\ lowerChar c = c.
Proof.
  destruct c as [[] [] [] [] [] [] [] []]; intro H;
    first [discriminate H | split; reflexivity].
Qed.

Lemma trimStart_safe (s : string) : allChars isSafeChar s = true -> trimStart s = s.
Proof.
  destruct s as [|c s]; cbn [allChars trimStart]; intro H; [reflexivity|].
  apply andb_true_iff in H. destruct H as [Hc _].
  now rewrite (proj1 (safeChar_plain c Hc)).
Qed.

Lemma trimEnd_safe (s : string) : allChars isSafeChar s = true -> trimEnd s = s.
Proof.
  induction s as [|c s IH]; cbn [allChars trimEnd]; intro H; [reflexivity|].
  apply andb_true_iff in H. destruct H as [Hc Hs].
  rewrite (IH Hs). destruct s; [|reflexivity].
  now rewrite (proj1 (safeChar_plain c Hc)).
Qed.

Lemma toLowerCase_safe (s : string) : allChars isSafeChar s = true -> toLowerCase s = s.
Proof.
  induction s as [|c s IH]; cbn [allChars toLowerCase]; intro H; [reflexivity|].
  apply andb_true_iff in H. destruct H as [Hc Hs].
  now rewrite (proj2 (safeChar_plain c Hc)), (IH Hs).
Qed.

Lemma dashUnsafe_fixed (s : string) :
  allChars isSafeChar s = true -> dashUnsafe false s = s.
Proof.
  induction s as [|c s IH]; cbn [allChars dashUnsafe]; intro H; [reflexivity|].
  apply andb_true_iff in H. destruct H as [Hc Hs].
  now rewrite Hc, (IH Hs).
Qed.

Lemma dropDashes_fixed (s : string) : startsWith "-" s = false -> dropDashes s = s.
Proof.
  destruct s as [|c s]; cbn [startsWith dropDashes]; intro H; [reflexivity|].
  rewrite andb_true_r, Ascii.eqb_sym in H. now rewrite H.
Qed.

Lemma dropDashesEnd_fixed (s : string) :
  endsWithChar "-"%char s = false -> dropDashesEnd s = s.
Proof.
  unfold endsWithChar.
  induction s as [|c s IH]; cbn [lastChar dropDashesEnd]; intro H; [reflexivity|].
  destruct s as [|k s'].
  - cbn [dropDashesEnd]. rewrite Ascii.eqb_sym in H. now rewrite H.
  - rewrite (IH H). reflexivity.
Qed.

(** X22.  [safeName] leaves its own results alone: a name it has returned
    comes back unchanged.  So a command named [n] and one named
    [safeName n] are given the same output file. *)
Theorem safeName_idempotent (name : value) :
  safeName (VStr (safeName name)) = safeName name.
Proof.
  destruct (safeName_shape name) as [Hne [Hall [Hstart Hend]]].
  set (s := safeName name) in *.
  unfold safeName at 1, trimDashes, or_else. cbn [truthy].
  destruct (String.eqb_spec s "") as [E|_]; [contradiction|].
  cbn [negb toString]. unfold trim.
  rewrite (trimStart_safe s Hall), (trimEnd_safe s Hall), (toLowerCase_safe s Hall),
    (dashUnsafe_fixed s Hall), (dropDashes_fixed s Hstart), (dropDashesEnd_fixed s Hend).
  destruct (String.eqb_spec s "") as [E|_]; [contradiction | reflexivity].
Qed.

(** Two commands whose names differ, and one output file for both. *)
Example safeName_shared :
  safeName (VStr "Unit Tests") = "unit-tests" /\ safeName (VStr "unit-tests") = "unit-tests".
Proof. split; reflexivity. Qed.

End Verify.

(** ** scripts/ecc/kernel.js *)

Module Kernel.

(** [getKernelMode]; [env] is [process.env.ECC_KERNEL], when set. *)
Definition getKernelMode (env : option string) : string :=
  let raw := match env with
             | Some e => if String.eqb e "" then "auto" else toLowerCase (trim e)
             | None => "auto"
             end in
  if String.eqb raw "" || String.eqb raw "auto" then "auto"
  else if String.eqb raw "rust" || String.eqb raw "kernel" then "rust"
  else if String.eqb raw "node" || String.eqb raw "js" || String.eqb raw "off"
          || String.eqb raw "disable" then "node"
  else "auto".

Record kernel : Type := mkKernel { mode : string; enabled : bool; bin : option string }.

Definition kernelRequiredMessage : string :=
  "ECC kernel required but not found. Build it with:" ++ nl
    ++ "  cargo build --release --manifest-path crates/ecc-kernel/Cargo.toml" ++ nl
    ++ "Then re-run, or set ECC_KERNEL=node to force JS fallback.".

(** [getKernel], first call; [found] is what [findKernelBinary] returns. *)
Definition getKernel (env : option string) (found : option string) : result kernel :=
  let mode := getKernelMode env in
  if String.eqb mode "node" then Ok (mkKernel mode false None)
  else
    match found with
    | None =>
        if String.eqb mode "rust" then Throw kernelRequiredMessage
        else Ok (mkKernel mode false None)
    | Some b => Ok (mkKernel mode (negb (String.eqb b "")) (Some b))
    end.

(** What [spawnSync] reports: [error] when the process could not be
    started, the exit status ([None] for [null]) and the two streams. *)
Record spawned : Type :=
  mkSpawned { error : option string; status : option Z;
              stdout : string; stderr : string }.

(** Outcome of [JSON.parse]. *)
Inductive parsed : Type :=
| Parsed (v : value)
| SyntaxError (detail : string).

(** [[a, b, c].filter(Boolean)] on strings and [null]s *)
Fixpoint filterTruthy (parts : list (option string)) : list string :=
  match parts with
  | [] => []
  | Some p :: rest => if String.eqb p "" then filterTruthy rest else p :: filterTruthy rest
  | None :: rest => filterTruthy rest
  end.

Definition statusText (st : option Z) : string :=
  match st with Some n => int_str n | None => "null" end.

(** [s.slice(0, n)] *)
Fixpoint take (n : nat) (s : string) : string :=
  match n, s with
  | S n', String c rest => String c (take n' rest)
  | _, _ => EmptyString
  end.

Section RunKernel.

Variable jsonParse : string -> parsed.
Variable jsonStringify : value -> string.
(** [spawnSync(bin, [command], { input })] *)
Variable spawnSync : string -> string -> string -> spawned.

Definition failureMessage (command : string) (res : spawned) : string :=
  let out := trim (stdout res) in
  let err := trim (stderr res) in
  join (nl ++ nl)
    (filterTruthy
       [Some ("ecc-kernel " ++ command ++ " failed (exit " ++ statusText (status res) ++ ")");
        (if String.eqb err "" then None else Some ("stderr:" ++ nl ++ err));
        (if String.eqb out "" then None else Some ("stdout:" ++ nl ++ out))]).

(** [runKernel(command, inputObj)] for the handle [k] that [getKernel]
    returned; [VNull] is the [null] of the source. *)
Definition runKernel (k : kernel) (command : string) (inputObj : value) : result value :=
  if negb (enabled k) then Ok VNull
  else
    let res := spawnSync (match bin k with Some b => b | None => "" end) command
                         (jsonStringify inputObj) in
    match error res with
    | Some message => Throw ("ecc-kernel spawn failed: " ++ message)
    | None =>
        let out := trim (stdout res) in
        if negb (match status res with Some n => Z.eqb n 0 | None => false end) then
          Throw (failureMessage command res)
        else if String.eqb out "" then Ok (VObj [])
        else
          match jsonParse out with
          | Parsed v => Ok v
          | SyntaxError detail =>
              Throw ("ecc-kernel returned non-JSON output (" ++ detail ++ "). Raw:" ++ nl
                       ++ take 2000 out)
          end
    end.

(** *** What the specification says of an invocation *)

(** [x] occurs in [s]. *)
Definition occursIn (x s : string) : Prop := exists pre post, s = pre ++ x ++ post.

Definition validJson (s : string) : Prop := exists v, jsonParse s = Parsed v.

(** The claim: a non-zero exit raises an error that holds the captured
    output, and a zero exit with an output that is not a JSON document
    raises an error. *)
Definition badOutputIsFatal : Prop :=
  forall k command inputObj,
    enabled k = true ->
    let res := spawnSync (match bin k with Some b => b | None => "" end) command
                         (jsonStringify inputObj) in
    error res = None ->
    (status res <> Some 0%Z ->
     exists msg, runKernel k command inputObj = Throw msg
                 /\ occursIn (trim (stdout res)) msg /\ occursIn (trim (stderr res)) msg)
    /\ (status res = Some 0%Z -> ~ validJson (stdout res) ->
        exists msg, runKernel k command inputObj = Throw msg).

End RunKernel.

Lemma occursIn_join (sep p : string) (parts : list string) :
  In p parts -> occursIn p (join sep parts).
Proof.
  induction parts as [|x rest IH]; [contradiction|].
  intros [-> | Hin].
  - destruct rest as [|y rest].
    + exists "", "". simpl. now rewrite append_nil_r.
    + exists "", (sep ++ join sep (y :: rest)). reflexivity.
  - destruct rest as [|y rest]; [contradiction|].
    destruct (IH Hin) as [pre [post Heq]].
    exists (x ++ sep ++ pre), post.
    change (join sep (x :: y :: rest)) with (x ++ sep ++ join sep (y :: rest)).
    rewrite Heq. now rewrite !append_assoc.
Qed.

Lemma occursIn_suffix (label x s : string) :
  occursIn (label ++ x) s -> occursIn x s.
Proof.
  intros [pre [post Heq]]. exists (pre ++ label), post.
  rewrite Heq. now rewrite !append_assoc.
Qed.

Lemma occursIn_empty (s : string) : occursIn "" s.
Proof. now exists "", s. Qed.

Lemma filterTruthy_In (p : string) (parts : list (option string)) :
  In (Some p) parts -> p <> "" -> In p (filterTruthy parts).
Proof.
  intros Hin Hne. induction parts as [|[q|] rest IH]; [contradiction| |].
  - cbn [filterTruthy]. destruct Hin as [Heq | Hin].
    + inversion Heq; subst. destruct (String.eqb_spec p ""); [contradiction | now left].
    + destruct (String.eqb q ""); [now apply IH | right; now apply IH].
  - cbn [filterTruthy]. destruct Hin as [Heq | Hin]; [discriminate | now apply IH].
Qed.

Section RunKernelFacts.

Variable jsonParse : string -> parsed.
Variable jsonStringify : value -> string.
Variable spawnSync : string -> string -> string -> spawned.

Lemma failureMessage_holds_output (command : string) (res : spawned) :
  occursIn (trim (stdout res)) (failureMessage command res)
  /\ occursIn (trim (stderr res)) (failureMessage command res).
Proof.
  unfold failureMessage. split.
  - destruct (String.eqb_spec (trim (stdout res)) "") as [E|E].
    + rewrite E at 1. apply occursIn_empty.
    + apply occursIn_suffix with (label := "stdout:" ++ nl). apply occursIn_join.
      apply filterTruthy_In; [|destruct nl; discriminate].
      right. right. now left.
  - destruct (String.eqb_spec (trim (stderr res)) "") as [E|E].
    + rewrite E at 1. apply occursIn_empty.
    + apply occursIn_suffix with (label := "stderr:" ++ nl). apply occursIn_join.
      apply filterTruthy_In; [|destruct nl; discriminate].
      right. now left.
Qed.

(** C10, as amended.  For an enabled helper whose process could be
    started: a non-zero (or missing) exit status raises an error whose
    message holds the captured, trimmed output of both streams; a zero exit
    status whose trimmed output is not empty and is rejected by
    [JSON.parse] raises an error; a zero exit status with an empty or
    whitespace-only output returns the empty object. *)
Theorem runKernel_exit_and_output (k : kernel) (command : string) (inputObj : value) :
  enabled k = true ->
  let res := spawnSync (match bin k with Some b => b | None => "" end) command
                       (jsonStringify inputObj) in
  error res = None ->
  (status res <> Some 0%Z ->
   runKernel jsonParse jsonStringify spawnSync k command inputObj
   = Throw (failureMessage command res)
   /\ occursIn (trim (stdout res)) (failureMessage command res)
   /\ occursIn (trim (stderr res)) (failureMessage command res))
  /\ (status res = Some 0%Z -> trim (stdout res) <> "" ->
      forall detail, jsonParse (trim (stdout res)) = SyntaxError detail ->
      exists msg, runKernel jsonParse jsonStringify spawnSync k command inputObj = Throw msg)
  /\ (status res = Some 0%Z -> trim (stdout res) = "" ->
      runKernel jsonParse jsonStringify spawnSync k command inputObj = Ok (VObj [])).
Proof.
  intros Hen res Herr. unfold runKernel. rewrite Hen. cbn [negb]. fold res. rewrite Herr.
  split; [|split].
  - intro Hst. split; [|apply failureMessage_holds_output].
    destruct (status res) as [n|]; [|reflexivity].
    destruct (Z.eqb_spec n 0); [congruence | reflexivity].
  - intros Hst Hout detail Hparse. rewrite Hst. cbn [Z.eqb negb].
    destruct (String.eqb_spec (trim (stdout res)) ""); [contradiction|].
    rewrite Hparse. now eexists.
  - intros Hst Hout. rewrite Hst, Hout. reflexivity.
Qed.

End RunKernelFacts.

(** A helper that exits with status 0 and writes nothing. *)
Definition silentHelper (bin command input : string) : spawned :=
  mkSpawned None (Some 0%Z) "" "".

(** A helper that exits with status 2 after writing to both streams. *)
Definition failingHelper (bin command input : string) : spawned :=
  mkSpawned None (Some 2%Z) "partial" "bad request".

(** A helper that exits with status 0 after writing text that is not JSON. *)
Definition chattyHelper (bin command input : string) : spawned :=
  mkSpawned None (Some 0%Z) "done" "".

(** A parser that knows the empty object only; like [JSON.parse], it
    rejects the empty text. *)
Definition parseEmptyObject (s : string) : parsed :=
  if String.eqb s "{}" then Parsed (VObj []) else SyntaxError "Unexpected token".

Definition sampleStringify (v : value) : string := "{}".

Definition sampleKernel : kernel := mkKernel "auto" true (Some "ecc-kernel").

Lemma runKernel_exit_and_output_witness :
  (runKernel parseEmptyObject sampleStringify failingHelper sampleKernel "verify.run" VNull
   = Throw ("ecc-kernel verify.run failed (exit 2)" ++ nl ++ nl
              ++ "stderr:" ++ nl ++ "bad request" ++ nl ++ nl
              ++ "stdout:" ++ nl ++ "partial"))
  /\ (exists msg,
         runKernel parseEmptyObject sampleStringify chattyHelper sampleKernel
                   "verify.run" VNull = Throw msg)
  /\ runKernel parseEmptyObject sampleStringify silentHelper sampleKernel
               "verify.run" VNull = Ok (VObj []).
Proof.
  split; [|split].
  - apply (runKernel_exit_and_output parseEmptyObject sampleStringify failingHelper
             sampleKernel "verify.run" VNull eq_refl eq_refl).
    discriminate.
  - apply (runKernel_exit_and_output parseEmptyObject sampleStringify chattyHelper
             sampleKernel "verify.run" VNull eq_refl eq_refl)
      with (detail := "Unexpected token"); [reflexivity | discriminate | reflexivity].
  - apply (runKernel_exit_and_output parseEmptyObject sampleStringify silentHelper
             sampleKernel "verify.run" VNull eq_refl eq_refl); reflexivity.
Defined.

(** C10, as stated, fails: a helper that exits with status 0 and writes
    nothing has written no JSON document, and [runKernel] returns the empty
    object in place of an error. *)
Lemma runKernel_empty_output_not_fatal :
  ~ badOutputIsFatal parseEmptyObject sampleStringify silentHelper.
Proof.
  intro H.
  destruct (H sampleKernel "verify.run" VNull eq_refl eq_refl) as [_ Hzero].
  destruct (Hzero eq_refl) as [msg Hmsg].
  - intros [v Hv]. discriminate Hv.
  - discriminate Hmsg.
Qed.

(** *** The mode of the bridge *)

Lemma getKernelMode_cases (env : option string) :
  getKernelMode env = "auto" \/ getKernelMode env = "rust" \/ getKernelMode env = "node".
Proof.
  unfold getKernelMode.
  destruct (_ || _); [now left|].
  destruct (_ || _); [now right; left|].
  destruct (_ || _); [now right; right | now left].
Qed.

(** X8.  Whatever [ECC_KERNEL] holds, the mode is one of [auto], [rust]
    and [node].  [getKernel] throws only in mode [rust] when no binary was
    found; the handle it returns is enabled exactly when the mode is not
    [node] and a binary was found; and with a handle of mode [node]
    [runKernel] starts no process and returns [null], whatever binary is
    installed. *)
Theorem getKernel_by_mode (env found : option string) :
  (forall msg,
      getKernel env found = Throw msg
      <-> getKernelMode env = "rust" /\ found = None /\ msg = kernelRequiredMessage)
  /\ (forall k,
         getKernel env found = Ok k ->
         mode k = getKernelMode env
         /\ (enabled k = true
             <-> getKernelMode env <> "node" /\ exists b, found = Some b /\ b <> "")
         /\ (getKernelMode env = "node" ->
             forall jsonParse jsonStringify spawnSync command inputObj,
               runKernel jsonParse jsonStringify spawnSync k command inputObj = Ok VNull)).
Proof.
  unfold getKernel.
  destruct (getKernelMode_cases env) as [-> | [-> | ->]]; cbn [String.eqb Ascii.eqb Bool.eqb];
    cbn.
  - split.
    + intro msg. destruct found; split; try discriminate; intros [H _]; discriminate.
    + intros k Hk. destruct found as [b|]; inversion Hk; subst; cbn.
      * split; [reflexivity|]. split; [|discriminate]. split.
        -- intro Hb. split; [discriminate|]. exists b. split; [reflexivity|].
           intros ->. discriminate.
        -- intros [_ [b' [Hb' Hne]]]. inversion Hb'; subst.
           destruct (String.eqb_spec b' ""); [contradiction | reflexivity].
      * split; [reflexivity|]. split; [|discriminate].
        split; [discriminate | intros [_ [b [Hb _]]]; discriminate].
  - split.
    + intro msg. destruct found; split.
      * discriminate.
      * intros [_ [H _]]. discriminate.
      * intro H. inversion H. auto.
      * intros [_ [_ ->]]. reflexivity.
    + intros k Hk. destruct found as [b|]; inversion Hk; subst; cbn.
      split; [reflexivity|]. split; [|discriminate]. split.
      * intro Hb. split; [discriminate|]. exists b. split; [reflexivity|].
        intros ->. discriminate.
      * intros [_ [b' [Hb' Hne]]]. inversion Hb'; subst.
        destruct (String.eqb_spec b' ""); [contradiction | reflexivity].
  - split.
    + intro msg. split; [discriminate | intros [H _]; discriminate].
    + intros k Hk. inversion Hk; subst; cbn. split; [reflexivity|]. split.
      * split; [discriminate | intros [H _]; congruence].
      * intros _ jsonParse jsonStringify spawnSync command inputObj. reflexivity.
Qed.

Lemma getKernel_by_mode_witness :
  mode (mkKernel "node" false None) = getKernelMode (Some " OFF ")
  /\ (enabled (mkKernel "node" false None) = true
      <-> getKernelMode (Some " OFF ") <> "node"
          /\ exists b, Some "/usr/bin/ecc-kernel" = Some b /\ b <> "")
  /\ (getKernelMode (Some " OFF ") = "node" ->
      forall jsonParse jsonStringify spawnSync command inputObj,
        runKernel jsonParse jsonStringify spawnSync (mkKernel "node" false None)
                  command inputObj = Ok VNull).
Proof.
  apply (proj2 (getKernel_by_mode (Some " OFF ") (Some "/usr/bin/ecc-kernel"))).
  reflexivity.
Defined.

End Kernel.

(** ** scripts/ecc/git.js *)

Module Git.

(** *** [path.resolve], [path.relative] and [path.dirname] of Node.js

    A resolved path is the list of its segments below the root.
    [path.relative] resolves both paths against the working directory,
    drops their common leading segments, and answers one [..] for every
    segment left of [from], followed by the segments left of [to]. *)
Definition resolve (cwd p : string) : list string :=
  normalizeSegments false []
    (splitChar (chr 47) (if startsWith "/" p then p else cwd ++ "/" ++ p)).

Fixpoint dropCommon (a b : list string) : list string * list string :=
  match a, b with
  | x :: a', y :: b' => if String.eqb x y then dropCommon a' b' else (a, b)
  | _, _ => (a, b)
  end.

Definition relativeSegments (from to : list string) : list string :=
  let (up, down) := dropCommon from to in
  (map (fun _ => "..") up ++ down)%list.

Definition relative (cwd from to : string) : string :=
  join "/" (relativeSegments (resolve cwd from) (resolve cwd to)).

Fixpoint dropWhile (f : ascii -> bool) (l : list ascii) : list ascii :=
  match l with
  | c :: rest => if f c then dropWhile f rest else l
  | [] => []
  end.

Definition isSlash (c : ascii) : bool := Ascii.eqb c (chr 47).

Definition dirname (p : string) : string :=
  match p with
  | EmptyString => "."
  | String c0 rest =>
      let hasRoot := isSlash c0 in
      let scanned :=
        dropWhile (fun c => negb (isSlash c))
                  (dropWhile isSlash (rev (list_ascii_of_string rest))) in
      match scanned with
      | [] => if hasRoot then "/" else "."
      | _ :: kept =>
          if hasRoot && (List.length kept =? 0)%nat then "//"
          else String c0 (string_of_list_ascii (rev kept))
      end
  end.

(** What [runGit] returns. *)
Record gitResult : Type :=
  mkGit { ok : bool; status : option Z; stdout : string; stderr : string }.

Definition stderrOr (res : gitResult) (fallback : string) : string :=
  if String.eqb (stderr res) "" then fallback else stderr res.

Definition insideMessage (repoRoot worktreePath : string) : string :=
  "Refusing to create worktree inside repo root (would recurse): repoRoot="
    ++ repoRoot ++ " worktreePath=" ++ worktreePath.

(** [assertExternalWorktreePath]; [cwd] is the working directory of the
    process, against which relative paths are resolved. *)
Definition isInside (cwd repoRoot worktreePath : string) : bool :=
  let rel := relative cwd repoRoot worktreePath in
  negb (String.eqb rel "") && negb (startsWith ".." rel) && negb (startsWith "/" rel).

Definition assertExternalWorktreePath (cwd repoRoot worktreePath : string)
  : result unit :=
  if isInside cwd repoRoot worktreePath
  then Throw (insideMessage repoRoot worktreePath)
  else Ok tt.

Section Worktrees.

(** The repository and the file system are the state; [git w args] is
    [spawnSync('git', args)]. *)
Variable world : Type.
Variable git : world -> list string -> world * gitResult.
Variable existsSync : world -> string -> bool.
Variable mkdirSync : world -> string -> world.

Definition branchExists (w : world) (repoRoot branch : string) : world * bool :=
  let (w', res) :=
    git w ["-C"; repoRoot; "show-ref"; "--verify"; "--quiet"; "refs/heads/" ++ branch] in
  (w', match status res with Some n => Z.eqb n 0 | None => false end).

Definition ensureBranchAt (w : world) (repoRoot branch baseSha : string)
  : world * result unit :=
  let (w1, found) := branchExists w repoRoot branch in
  if found then (w1, Ok tt)
  else
    let (w2, res) := git w1 ["-C"; repoRoot; "branch"; branch; baseSha] in
    if negb (ok res)
    then (w2, Throw (stderrOr res ("git branch " ++ branch ++ " " ++ baseSha ++ " failed")))
    else (w2, Ok tt).

Definition isGitWorktree (w : world) (dir : string) : world * bool :=
  if negb (existsSync w dir) then (w, false)
  else
    let (w', res) := git w ["-C"; dir; "rev-parse"; "--is-inside-work-tree"] in
    (w', ok res && String.eqb (trim (stdout res)) "true").

Definition ensureWorktree (w : world) (cwd repoRoot worktreePath branch baseSha : string)
  : world * result string :=
  match assertExternalWorktreePath cwd repoRoot worktreePath with
  | Throw msg => (w, Throw msg)
  | Ok _ =>
      match ensureBranchAt w repoRoot branch baseSha with
      | (w1, Throw msg) => (w1, Throw msg)
      | (w1, Ok _) =>
          if existsSync w1 worktreePath then
            let (w2, isWt) := isGitWorktree w1 worktreePath in
            if negb isWt
            then (w2, Throw ("Worktree path exists but is not a git worktree: "
                               ++ worktreePath))
            else (w2, Ok worktreePath)
          else
            let w2 := mkdirSync w1 (dirname worktreePath) in
            let (w3, res) := git w2 ["-C"; repoRoot; "worktree"; "add"; worktreePath; branch] in
            if negb (ok res)
            then (w3, Throw (stderrOr res ("git worktree add failed: " ++ worktreePath)))
            else (w3, Ok worktreePath)
      end
  end.

End Worktrees.

(** *** What the specification says of the desired path *)

(** [isPrefixOf a b]: the segments [a] begin the segments [b]. *)
Fixpoint isPrefixOf (a b : list string) : Prop :=
  match a, b with
  | [], _ => True
  | x :: a', y :: b' => x = y /\ isPrefixOf a' b'
  | _ :: _, [] => False
  end.

(** The desired path resolves to a directory below the repository root. *)
Definition resolvesInside (cwd repoRoot worktreePath : string) : Prop :=
  isPrefixOf (resolve cwd repoRoot) (resolve cwd worktreePath)
  /\ resolve cwd repoRoot <> resolve cwd worktreePath.

(** A segment of a resolved path: not empty, and without a slash. *)
Definition isSegment (seg : string) : Prop :=
  seg <> "" /\ startsWith "/" seg = false.

(** *** The containment test *)

Lemma dropCommon_split (a b : list string) :
  exists common,
    a = (common ++ fst (dropCommon a b))%list
    /\ b = (common ++ snd (dropCommon a b))%list
    /\ (fst (dropCommon a b) = [] \/ snd (dropCommon a b) = []
        \/ exists x up y down,
             fst (dropCommon a b) = x :: up /\ snd (dropCommon a b) = y :: down /\ x <> y).
Proof.
  revert b. induction a as [|x a IH]; intro b.
  - exists []. simpl. auto.
  - destruct b as [|y b].
    + exists []. simpl. auto.
    + simpl. destruct (String.eqb_spec x y) as [->|Hne].
      * destruct (IH b) as [common [Ha [Hb Hrest]]].
        exists (y :: common). simpl. now rewrite <- Ha, <- Hb.
      * exists []. simpl. split; [reflexivity|]. split; [reflexivity|].
        right. right. now exists x, a, y, b.
Qed.

Lemma isPrefixOf_app (a rest : list string) : isPrefixOf a (a ++ rest).
Proof. induction a as [|x a IH]; simpl; auto. Qed.

Lemma isPrefixOf_split (a b : list string) :
  isPrefixOf a b -> exists rest, b = (a ++ rest)%list.
Proof.
  revert b. induction a as [|x a IH]; intros b H.
  - now exists b.
  - destruct b as [|y b]; [contradiction|]. destruct H as [-> H].
    destruct (IH b H) as [rest ->]. now exists rest.
Qed.

Lemma dropCommon_prefix (a rest : list string) : dropCommon a (a ++ rest) = ([], rest).
Proof.
  induction a as [|x a IH]; simpl; [now destruct rest|].
  now rewrite String.eqb_refl.
Qed.

Lemma join_cons (sep x : string) (rest : list string) :
  join sep (x :: rest) = x ++ match rest with [] => "" | _ => sep ++ join sep rest end.
Proof.
  destruct rest; simpl; [|reflexivity].
  induction x as [|c x IH]; simpl; [reflexivity | now rewrite <- IH].
Qed.

Lemma startsWith_dots_app (d tail : string) :
  d <> "" -> startsWith "/" tail = true \/ tail = "" ->
  startsWith ".." (d ++ tail) = startsWith ".." d.
Proof.
  intros Hd Htail.
  destruct d as [|c d]; [congruence|]. cbn [append startsWith].
  destruct (Ascii.eqb "."%char c); [|reflexivity]. cbn [andb].
  destruct d as [|c' d]; cbn [append startsWith]; [|reflexivity].
  destruct Htail as [Htail | ->]; [|reflexivity].
  destruct tail as [|t tail]; [reflexivity|]. cbn [startsWith] in Htail.
  apply andb_true_iff in Htail. destruct Htail as [Ht _].
  apply Ascii.eqb_eq in Ht. subst t. reflexivity.
Qed.

Lemma startsWith_slash_app (d tail : string) :
  d <> "" -> startsWith "/" (d ++ tail) = startsWith "/" d.
Proof.
  destruct d as [|c d]; [congruence|]. intros _. reflexivity.
Qed.

Lemma join_tail_shape (rest : list string) :
  let tail := match rest with [] => "" | _ => "/" ++ join "/" rest end in
  startsWith "/" tail = true \/ tail = "".
Proof.
  destruct rest; [now right | left]. reflexivity.
Qed.

(** The test says "inside" exactly when the path resolves below the root
    and the first segment below the root does not begin with two dots. *)
Lemma relative_containment (from to : list string) :
  Forall isSegment to ->
  let rel := join "/" (relativeSegments from to) in
  negb (String.eqb rel "") && negb (startsWith ".." rel) && negb (startsWith "/" rel) = true
  <-> exists d rest, to = (from ++ d :: rest)%list /\ startsWith ".." d = false.
Proof.
  intros Hto rel. unfold rel, relativeSegments.
  destruct (dropCommon_split from to) as [common [Hfrom [Hto' Hshape]]].
  destruct (dropCommon from to) as [up down] eqn:Edrop. simpl in Hfrom, Hto', Hshape.
  destruct up as [|u up].
  - rewrite app_nil_r in Hfrom. subst common. cbn [map app].
    destruct down as [|d rest].
    + split; [discriminate|].
      intros [d [rest [Heq _]]]. rewrite app_nil_r in Hto'.
      rewrite Hto' in Heq at 1. apply (f_equal (@List.length string)) in Heq.
      rewrite length_app in Heq. simpl in Heq. lia.
    + assert (Hd : isSegment d).
      { apply (proj1 (Forall_forall _ _) Hto). rewrite Hto'. apply in_or_app.
        right. now left. }
      destruct Hd as [Hne Hslash].
      rewrite join_cons.
      rewrite (startsWith_dots_app d _ Hne (join_tail_shape rest)).
      rewrite (startsWith_slash_app d _ Hne), Hslash.
      assert (Hrel : String.eqb (d ++ match rest with
                                      | [] => ""
                                      | _ :: _ => "/" ++ join "/" rest
                                      end) "" = false).
      { destruct d; [congruence | reflexivity]. }
      rewrite Hrel. cbn [negb andb]. rewrite andb_true_r. split.
      * intro H. exists d, rest. split; [exact Hto'|].
        now destruct (startsWith ".." d).
      * intros [d' [rest' [Heq Hdots]]]. rewrite Hto' in Heq.
        apply app_inv_head in Heq. inversion Heq; subst. now rewrite Hdots.
  - cbn [map app]. split.
    + intro H. exfalso. rewrite join_cons in H.
      assert (Hdots : startsWith ".." (".." ++ match (map (fun _ => "..") up ++ down)%list with
                                               | [] => ""
                                               | _ :: _ => "/" ++ join "/" (map (fun _ => "..") up ++ down)
                                               end) = true)
        by apply Diff.startsWith_app.
      rewrite Hdots in H. rewrite andb_false_r in H. discriminate.
    + intros [d [rest [Heq _]]]. exfalso.
      rewrite Heq, dropCommon_prefix in Edrop. discriminate.
Qed.

Lemma splitChar_no_sep (sep : ascii) (s : string) :
  Forall (fun seg => allChars (fun c => negb (Ascii.eqb c sep)) seg = true)
         (splitChar sep s).
Proof.
  induction s as [|c s IH]; simpl; [repeat constructor|].
  destruct (Ascii.eqb c sep) eqn:E; [constructor; [reflexivity | exact IH]|].
  destruct (splitChar sep s) as [|cur more]; [repeat constructor; simpl; now rewrite E|].
  inversion IH; subst. constructor; [|assumption]. simpl. now rewrite E.
Qed.

Lemma normalizeSegments_segments (segs : list string) :
  Forall (fun seg => allChars (fun c => negb (Ascii.eqb c (chr 47))) seg = true) segs ->
  forall kept, Forall isSegment kept ->
    Forall isSegment (normalizeSegments false kept segs).
Proof.
  induction 1 as [|seg segs Hseg _ IH]; intros kept Hkept; simpl.
  - apply Forall_rev. exact Hkept.
  - destruct (String.eqb_spec seg "") as [E|E]; simpl; [now apply IH|].
    destruct (String.eqb seg "."); [now apply IH|].
    destruct (String.eqb seg "..").
    + destruct kept as [|top below]; [now apply IH|].
      inversion Hkept; subst.
      destruct (String.eqb top ".."); now apply IH.
    + apply IH. constructor; [|exact Hkept]. split; [exact E|].
      destruct seg as [|c seg]; [congruence|]. simpl in Hseg.
      apply andb_true_iff in Hseg. destruct Hseg as [Hc _].
      cbn [startsWith]. rewrite Ascii.eqb_sym.
      change (chr 47) with "/"%char in Hc.
      now destruct (Ascii.eqb c "/"%char).
Qed.

Lemma resolve_segments (cwd p : string) : Forall isSegment (resolve cwd p).
Proof.
  unfold resolve. apply normalizeSegments_segments; [apply splitChar_no_sep | constructor].
Qed.

(** The test of [assertExternalWorktreePath], on the resolved paths. *)
Lemma isInside_iff (cwd repoRoot worktreePath : string) :
  isInside cwd repoRoot worktreePath = true
  <-> exists d rest,
        resolve cwd worktreePath = (resolve cwd repoRoot ++ d :: rest)%list
        /\ startsWith ".." d = false.
Proof.
  unfold isInside, relative.
  apply (relative_containment (resolve cwd repoRoot) (resolve cwd worktreePath)).
  apply resolve_segments.
Qed.

Section WorktreeFacts.

Variable world : Type.
Variable git : world -> list string -> world * gitResult.
Variable existsSync : world -> string -> bool.
Variable mkdirSync : world -> string -> world.

(** A desired path the test finds inside the repository root is refused
    before any command is run: nothing is created. *)
Lemma ensureWorktree_refuses_tested_inside
      (w : world) (cwd repoRoot worktreePath branch baseSha : string) :
  isInside cwd repoRoot worktreePath = true ->
  ensureWorktree world git existsSync mkdirSync w cwd repoRoot worktreePath branch baseSha
  = (w, Throw (insideMessage repoRoot worktreePath)).
Proof.
  intro H. unfold ensureWorktree, assertExternalWorktreePath. now rewrite H.
Qed.

End WorktreeFacts.

(** A repository in which every git command succeeds and no path exists
    yet; the state is the list of the commands run, newest first. *)
Definition sampleGit (w : list (list string)) (args : list string)
  : list (list string) * gitResult :=
  (args :: w, mkGit true (Some 0%Z) "" "").
Definition sampleExists (w : list (list string)) (path : string) : bool := false.
Definition sampleMkdir (w : list (list string)) (path : string) : list (list string) :=
  ["mkdir"; path] :: w.

(** C9 on the code: the desired path [/repo/..wt/r1] resolves to a
    directory below the repository root [/repo]; the relative path
    [..wt/r1] begins with two dots, the test takes it for a path outside,
    and [ensureWorktree] goes on to add the working copy inside the
    repository. *)
Lemma ensureWorktree_accepts_dotdot_directory :
  resolvesInside "/" "/repo" "/repo/..wt/r1"
  /\ relative "/" "/repo" "/repo/..wt/r1" = "..wt/r1"
  /\ assertExternalWorktreePath "/" "/repo" "/repo/..wt/r1" = Ok tt
  /\ ensureWorktree (list (list string)) sampleGit sampleExists sampleMkdir []
       "/" "/repo" "/repo/..wt/r1" "ecc/r1" "abc"
     = ([["-C"; "/repo"; "worktree"; "add"; "/repo/..wt/r1"; "ecc/r1"];
         ["mkdir"; "/repo/..wt"];
         ["-C"; "/repo"; "show-ref"; "--verify"; "--quiet"; "refs/heads/ecc/r1"]],
        Ok "/repo/..wt/r1").
Proof.
  split; [|repeat split; reflexivity].
  split; [simpl; auto | discriminate].
Qed.

(** An ordinary directory below the root is refused. *)
Example ensureWorktree_refuses_nested :
  ensureWorktree (list (list string)) sampleGit sampleExists sampleMkdir []
    "/" "/repo" "/repo/wt/r1" "ecc/r1" "abc"
  = ([], Throw (insideMessage "/repo" "/repo/wt/r1")).
Proof. reflexivity. Qed.

(** *** The containment test, exactly *)

Section Containment.

Variable world : Type.
Variable git : world -> list string -> world * gitResult.
Variable existsSync : world -> string -> bool.
Variable mkdirSync : world -> string -> world.

(** X9.  [assertExternalWorktreePath] refuses the desired path exactly
    when it resolves to a directory strictly below the repository root
    whose first segment below the root does not begin with two dots; the
    root itself passes.  When it refuses, [ensureWorktree] throws before it
    runs any git command or creates a directory. *)
Theorem worktree_containment_test (cwd repoRoot worktreePath : string) :
  (assertExternalWorktreePath cwd repoRoot worktreePath
   = Throw (insideMessage repoRoot worktreePath)
   <-> exists d rest,
         resolve cwd worktreePath = (resolve cwd repoRoot ++ d :: rest)%list
         /\ startsWith ".." d = false)
  /\ (assertExternalWorktreePath cwd repoRoot worktreePath = Ok tt
      <-> ~ exists d rest,
            resolve cwd worktreePath = (resolve cwd repoRoot ++ d :: rest)%list
            /\ startsWith ".." d = false)
  /\ (resolve cwd worktreePath = resolve cwd repoRoot ->
      assertExternalWorktreePath cwd repoRoot worktreePath = Ok tt)
  /\ (forall w branch baseSha,
         assertExternalWorktreePath cwd repoRoot worktreePath
         = Throw (insideMessage repoRoot worktreePath) ->
         ensureWorktree world git existsSync mkdirSync w cwd repoRoot worktreePath
                        branch baseSha
         = (w, Throw (insideMessage repoRoot worktreePath))).
Proof.
  pose proof (isInside_iff cwd repoRoot worktreePath) as Hiff.
  assert (Hthrow : assertExternalWorktreePath cwd repoRoot worktreePath
                   = Throw (insideMessage repoRoot worktreePath)
                   <-> isInside cwd repoRoot worktreePath = true).
  { unfold assertExternalWorktreePath.
    destruct (isInside cwd repoRoot worktreePath); split; congruence. }
  assert (Hok : assertExternalWorktreePath cwd repoRoot worktreePath = Ok tt
                <-> isInside cwd repoRoot worktreePath = false).
  { unfold assertExternalWorktreePath.
    destruct (isInside cwd repoRoot worktreePath); split; congruence. }
  split; [|split; [|split]].
  - rewrite Hthrow. exact Hiff.
  - rewrite Hok, <- Hiff. destruct (isInside cwd repoRoot worktreePath); split; congruence.
  - intro Heq. apply Hok. destruct (isInside cwd repoRoot worktreePath) eqn:E; [|reflexivity].
    destruct (proj1 Hiff eq_refl) as [d [rest [E' _]]]. rewrite Heq in E'.
    apply (f_equal (@List.length string)) in E'. rewrite length_app in E'. simpl in E'. lia.
  - intros w branch baseSha H. unfold ensureWorktree. now rewrite H.
Qed.

End Containment.

Lemma worktree_containment_test_witness :
  assertExternalWorktreePath "/" "/repo" "/repo" = Ok tt
  /\ ensureWorktree (list (list string)) sampleGit sampleExists sampleMkdir []
       "/" "/repo" "/repo/wt/r1" "ecc/r1" "abc"
     = ([], Throw (insideMessage "/repo" "/repo/wt/r1")).
Proof.
  split.
  - apply (proj1 (proj2 (proj2 (worktree_containment_test
                                  (list (list string)) sampleGit sampleExists sampleMkdir
                                  "/" "/repo" "/repo")))).
    reflexivity.
  - apply (proj2 (proj2 (proj2 (worktree_containment_test
                                  (list (list string)) sampleGit sampleExists sampleMkdir
                                  "/" "/repo" "/repo/wt/r1")))).
    reflexivity.
Defined.

End Git.

(** ** scripts/ecc/id.js *)

Module RunId.

(** A character of the class [[a-z0-9]], or the dash that replaces the
    others. *)
Definition isSlugChar (c : ascii) : bool :=
  Verify.isLowerAlnum c || Ascii.eqb c "-"%char.

(** [s.replace(/[^a-z0-9]+/g, '-')]; [inRun] tells that the character
    before was replaced. *)
Fixpoint dashOther (inRun : bool) (s : string) : string :=
  match s with
  | EmptyString => EmptyString
  | String c rest =>
      if Verify.isLowerAlnum c then String c (dashOther false rest)
      else if inRun then dashOther true rest
      else String "-"%char (dashOther true rest)
  end.

(** [slugify(s, fallback)] *)
Definition slugify (s : value) (fallback : string) : string :=
  let cleaned :=
    Verify.trimDashes
      (dashOther false (trim (toLowerCase (toString (or_else s (VStr "")))))) in
  if String.eqb cleaned "" then fallback else cleaned.

(** [defaultRunId(intent)]; [date] is what [getDateString()] returns. *)
Definition defaultRunId (date : string) (intent : value) : string :=
  date ++ "-" ++ slugify intent "task".

(** [runsDir(projectRoot)] of [project.js] *)
Definition runsDir (projectRoot : string) : string :=
  pathJoin [pathJoin [projectRoot; ".ecc"]; "runs"].

Section Unique.

Variable existsSync : string -> bool.

(** The loop [while (true)] of [ensureUniqueRunId], entered with
    [candidate] and the counter [n]; [None] when the fuel ran out. *)
Fixpoint uniqueFrom (fuel : nat) (root base candidate : string) (n : nat)
  : option string :=
  match fuel with
  | O => None
  | S fuel' =>
      if negb (existsSync (pathJoin [root; candidate])) then Some candidate
      else uniqueFrom fuel' root base (base ++ "-" ++ nat_str n) (S n)
  end.

Definition ensureUniqueRunId (fuel : nat) (projectRoot : string) (runIdBase : value)
  : option string :=
  let base := slugify runIdBase "run" in
  uniqueFrom fuel (runsDir projectRoot) base base 2.

(** The candidates in the order the loop tries them: the base, then the
    base followed by [-2], [-3], and so on. *)
Definition candidateAt (base : string) (k : nat) : string :=
  match k with
  | O => base
  | S _ => base ++ "-" ++ nat_str (S k)
  end.

End Unique.

(** *** The characters of a run id *)

Lemma dashOther_slug (s : string) :
  forall inRun, allChars isSlugChar (dashOther inRun s) = true.
Proof.
  induction s as [|c s IH]; intro inRun; cbn [dashOther]; [reflexivity|].
  destruct (Verify.isLowerAlnum c) eqn:Hc.
  - cbn [allChars]. unfold isSlugChar at 1. now rewrite Hc, IH.
  - destruct inRun; [apply IH|]. cbn [allChars]. now rewrite IH.
Qed.

Lemma dropDashes_slug (s : string) :
  allChars isSlugChar s = true ->
  allChars isSlugChar (Verify.dropDashes s) = true
  /\ startsWith "-" (Verify.dropDashes s) = false.
Proof.
  induction s as [|c s IH]; cbn [Verify.dropDashes allChars]; intro H; [now split|].
  apply andb_true_iff in H. destruct H as [Hc Hs].
  destruct (Ascii.eqb c "-"%char) eqn:E; [now apply IH|].
  cbn [allChars startsWith]. rewrite Hc, Hs, Ascii.eqb_sym, E. now split.
Qed.

Lemma dropDashesEnd_slug (s : string) :
  allChars isSlugChar s = true ->
  allChars isSlugChar (Verify.dropDashesEnd s) = true
  /\ endsWithChar "-"%char (Verify.dropDashesEnd s) = false
  /\ (startsWith "-" s = false -> startsWith "-" (Verify.dropDashesEnd s) = false).
Proof.
  induction s as [|c s IH]; cbn [Verify.dropDashesEnd allChars]; intro H;
    [now repeat split|].
  apply andb_true_iff in H. destruct H as [Hc Hs].
  destruct (IH Hs) as [Hall [Hend _]].
  destruct (Verify.dropDashesEnd s) as [|k kept] eqn:Ek.
  - destruct (Ascii.eqb c "-"%char) eqn:E; [now repeat split|].
    cbn [allChars]. rewrite Hc. unfold endsWithChar. cbn [lastChar].
    rewrite Ascii.eqb_sym, E. repeat split. cbn [startsWith]. now rewrite Ascii.eqb_sym, E.
  - cbn [allChars]. rewrite Hc. cbn [andb]. split; [exact Hall|]. split.
    + unfold endsWithChar in *. exact Hend.
    + cbn [startsWith]. intro Hstart. apply andb_false_iff in Hstart.
      destruct Hstart as [-> | Hfalse]; [reflexivity | discriminate].
Qed.

Lemma slugify_cases (s : value) (fallback : string) :
  slugify s fallback = fallback
  \/ (slugify s fallback <> ""
      /\ allChars isSlugChar (slugify s fallback) = true
      /\ startsWith "-" (slugify s fallback) = false
      /\ endsWithChar "-"%char (slugify s fallback) = false).
Proof.
  unfold slugify, Verify.trimDashes.
  set (raw := dashOther false (trim (toLowerCase (toString (or_else s (VStr "")))))).
  destruct (dropDashes_slug raw (dashOther_slug _ false)) as [Hall Hstart].
  destruct (dropDashesEnd_slug (Verify.dropDashes raw) Hall) as [Hall' [Hend Hstart']].
  destruct (String.eqb_spec (Verify.dropDashesEnd (Verify.dropDashes raw)) "") as [E|E];
    [now left | right; auto].
Qed.

Lemma uint_slug (d : Decimal.uint) : allChars isSlugChar (NilEmpty.string_of_uint d) = true.
Proof. induction d; simpl; auto. Qed.

Lemma allChars_append (f : ascii -> bool) (a b : string) :
  allChars f (a ++ b) = allChars f a && allChars f b.
Proof.
  induction a as [|c a IH]; simpl; [reflexivity|].
  rewrite IH. now rewrite andb_assoc.
Qed.

Lemma candidateAt_slug (base : string) (k : nat) :
  base <> "" -> allChars isSlugChar base = true ->
  candidateAt base k <> "" /\ allChars isSlugChar (candidateAt base k) = true.
Proof.
  intros Hne Hall. destruct k as [|k]; cbn [candidateAt]; [now split|]. split.
  - destruct base; [congruence | discriminate].
  - rewrite !allChars_append, Hall. unfold nat_str. now rewrite uint_slug.
Qed.

(** *** The first free candidate *)

Section UniqueFacts.

Variable existsSync : string -> bool.
Variable root base : string.

(** The candidates tried from [candidate] and the counter [n] on. *)
Definition tried (candidate : string) (n k : nat) : string :=
  match k with
  | O => candidate
  | S j => base ++ "-" ++ nat_str (n + j)
  end.

Lemma uniqueFrom_first_free (fuel : nat) :
  forall candidate n c,
    uniqueFrom existsSync fuel root base candidate n = Some c
    <-> exists k,
          k < fuel /\ c = tried candidate n k
          /\ existsSync (pathJoin [root; tried candidate n k]) = false
          /\ forall j, j < k -> existsSync (pathJoin [root; tried candidate n j]) = true.
Proof.
  induction fuel as [|fuel IH]; intros candidate n c; cbn [uniqueFrom].
  - split; [discriminate | intros [k [Hk _]]; lia].
  - destruct (existsSync (pathJoin [root; candidate])) eqn:E; cbn [negb].
    + rewrite IH. split.
      * intros [k [Hk [Hc [Hfree Htaken]]]]. exists (S k). split; [lia|].
        assert (Hshift : forall j, tried (base ++ "-" ++ nat_str n) (S n) j
                                   = tried candidate n (S j)).
        { intros [|j]; cbn [tried]; [now rewrite Nat.add_0_r|].
          now rewrite Nat.add_succ_r. }
        rewrite <- !Hshift. split; [exact Hc|]. split.
        -- exact Hfree.
        -- intros [|j] Hj; [exact E|]. rewrite <- Hshift. apply Htaken. lia.
      * intros [[|k] [Hk [Hc [Hfree Htaken]]]].
        -- cbn [tried] in Hfree. congruence.
        -- assert (Hshift : forall j, tried (base ++ "-" ++ nat_str n) (S n) j
                                      = tried candidate n (S j)).
           { intros [|j]; cbn [tried]; [now rewrite Nat.add_0_r|].
             now rewrite Nat.add_succ_r. }
           exists k. split; [lia|]. rewrite !Hshift. split; [exact Hc|]. split.
           ++ exact Hfree.
           ++ intros j Hj. rewrite Hshift. apply Htaken. lia.
    + split.
      * intro H. inversion H; subst. exists 0. split; [lia|]. split; [reflexivity|].
        split; [exact E | intros j Hj; lia].
      * intros [[|k] [Hk [Hc [Hfree Htaken]]]]; [now subst|].
        specialize (Htaken 0 (Nat.lt_0_succ k)). cbn [tried] in Htaken. congruence.
Qed.

End UniqueFacts.

Lemma tried_candidateAt (base : string) (k : nat) : tried base base 2 k = candidateAt base k.
Proof. destruct k; reflexivity. Qed.

(** X10.  [slugify] returns the fallback, or a string that is not empty,
    holds only characters of [a-z0-9-] and neither begins nor ends with a
    dash. *)
Theorem slugify_is_a_slug (s : value) (fallback : string) :
  slugify s fallback = fallback
  \/ (slugify s fallback <> ""
      /\ allChars isSlugChar (slugify s fallback) = true
      /\ startsWith "-" (slugify s fallback) = false
      /\ endsWithChar "-"%char (slugify s fallback) = false).
Proof. apply slugify_cases. Qed.

(** X11.  [ensureUniqueRunId] returns the first candidate, among the
    slug of the requested id and the slug followed by [-2], [-3], ..., for
    which no run directory exists; the id it returns is not empty and
    holds only characters of [a-z0-9-], so it names a single directory
    below the runs directory. *)
Theorem ensureUniqueRunId_first_free
        (existsSync : string -> bool) (fuel : nat) (projectRoot : string)
        (runIdBase : value) (c : string) :
  let base := slugify runIdBase "run" in
  (ensureUniqueRunId existsSync fuel projectRoot runIdBase = Some c
   <-> exists k,
         k < fuel /\ c = candidateAt base k
         /\ existsSync (pathJoin [runsDir projectRoot; candidateAt base k]) = false
         /\ forall j, j < k ->
                      existsSync (pathJoin [runsDir projectRoot; candidateAt base j]) = true)
  /\ (ensureUniqueRunId existsSync fuel projectRoot runIdBase = Some c ->
      c <> "" /\ allChars isSlugChar c = true).
Proof.
  intro base. unfold ensureUniqueRunId. fold base.
  assert (Hiff : uniqueFrom existsSync fuel (runsDir projectRoot) base base 2 = Some c
                 <-> exists k,
                       k < fuel /\ c = candidateAt base k
                       /\ existsSync (pathJoin [runsDir projectRoot; candidateAt base k])
                          = false
                       /\ forall j, j < k ->
                                    existsSync (pathJoin [runsDir projectRoot;
                                                          candidateAt base j]) = true).
  { rewrite uniqueFrom_first_free. split; intros [k H]; exists k.
    - rewrite tried_candidateAt in H. destruct H as [Hk [Hc [Hf Ht]]].
      repeat split; auto. intros j Hj. rewrite <- tried_candidateAt. now apply Ht.
    - rewrite tried_candidateAt. destruct H as [Hk [Hc [Hf Ht]]].
      repeat split; auto. intros j Hj. rewrite tried_candidateAt. now apply Ht. }
  split; [exact Hiff|].
  intro H. apply Hiff in H. destruct H as [k [_ [-> _]]].
  apply candidateAt_slug.
  - subst base. destruct (slugify_cases runIdBase "run") as [-> | [Hne _]];
      [discriminate | exact Hne].
  - subst base. destruct (slugify_cases runIdBase "run") as [-> | [_ [Hall _]]];
      [reflexivity | exact Hall].
Qed.

(** Two runs exist already under the requested id. *)
Definition sampleRuns (path : string) : bool :=
  String.eqb path "/repo/.ecc/runs/fix-login" || String.eqb path "/repo/.ecc/runs/fix-login-2".

Example ensureUniqueRunId_third :
  ensureUniqueRunId sampleRuns 5 "/repo" (VStr "Fix  Login!") = Some "fix-login-3".
Proof. reflexivity. Qed.

End RunId.

(** ** scripts/ecc/plan.js: the rendering of a plan *)

Module PlanMd.

Definition typeError (what : string) : string := "TypeError: " ++ what.

(** [o.k], which throws when [o] is [undefined] or [null]. *)
Definition prop (o : value) (k : string) : result value :=
  match o with
  | VUndef | VNull =>
      Throw (typeError ("Cannot read properties of " ++ toString o
                          ++ " (reading '" ++ k ++ "')"))
  | _ => Ok (get o k)
  end.

(** [v.length], as a condition: the array or string is not empty. *)
Definition hasLength (v : value) : result bool :=
  match v with
  | VUndef | VNull =>
      Throw (typeError ("Cannot read properties of " ++ toString v ++ " (reading 'length')"))
  | VArr items => Ok (negb (Nat.eqb (List.length items) 0))
  | VStr s => Ok (negb (String.eqb s ""))
  | VObj _ => Ok (truthy (get v "length"))
  | VBool _ | VNum _ => Ok false
  end.

(** An element of an array, as [Array.prototype.join] writes it. *)
Definition element (v : value) : string :=
  match v with
  | VUndef | VNull => ""
  | _ => toString v
  end.

(** [v.join(sep)] *)
Definition joinOf (v : value) (sep : string) : result string :=
  match v with
  | VArr items => Ok (join sep (map element items))
  | VUndef | VNull =>
      Throw (typeError ("Cannot read properties of " ++ toString v ++ " (reading 'join')"))
  | _ => Throw (typeError "join is not a function")
  end.

(** [v.trim()] *)
Definition trimOf (v : value) : result string :=
  match v with
  | VStr s => Ok (trim s)
  | VUndef | VNull =>
      Throw (typeError ("Cannot read properties of " ++ toString v ++ " (reading 'trim')"))
  | _ => Throw (typeError "trim is not a function")
  end.

Definition fence : string := "```".

(** The lines one task adds. *)
Definition renderTask (t : value) : result (list string) :=
  match prop t "id" with
  | Throw msg => Throw msg
  | Ok id =>
      match hasLength (get t "dependsOn") with
      | Throw msg => Throw msg
      | Ok nonEmpty =>
          match (if nonEmpty then joinOf (get t "dependsOn") ", " else Ok "(none)") with
          | Throw msg => Throw msg
          | Ok deps =>
              match joinOf (get t "allowedPathPrefixes") ", " with
              | Throw msg => Throw msg
              | Ok prefixes =>
                  match trimOf (get t "prompt") with
                  | Throw msg => Throw msg
                  | Ok promptText =>
                      Ok ["### " ++ toString id ++ ": " ++ toString (get t "title");
                          "";
                          "- kind: " ++ toString (get t "kind");
                          "- dependsOn: " ++ deps;
                          "- allowedPathPrefixes: " ++ prefixes;
                          "";
                          "Prompt:";
                          "";
                          fence;
                          promptText;
                          fence;
                          ""]
                  end
              end
          end
      end
  end.

(** The loop [for (const t of plan.tasks)] over an array. *)
Fixpoint renderTasks (tasks : list value) : result (list string) :=
  match tasks with
  | [] => Ok []
  | t :: rest =>
      match renderTask t with
      | Throw msg => Throw msg
      | Ok lines =>
          match renderTasks rest with
          | Throw msg => Throw msg
          | Ok more => Ok (lines ++ more)%list
          end
      end
  end.

(** [renderPlanMd(plan)].  A string is iterable too: its characters have
    no [dependsOn], so the first one throws. *)
Definition renderPlanMd (plan : value) : result string :=
  match prop plan "intent" with
  | Throw msg => Throw msg
  | Ok intentText =>
      let head := ["# ECC Plan"; ""; "Intent: " ++ toString intentText; ""; "## Tasks"; ""] in
      match get plan "tasks" with
      | VArr tasks =>
          match renderTasks tasks with
          | Throw msg => Throw msg
          | Ok lines => Ok (join nl (head ++ lines))
          end
      | VStr EmptyString => Ok (join nl head)
      | VStr _ =>
          Throw (typeError "Cannot read properties of undefined (reading 'length')")
      | other => Throw (typeError (toString other ++ " is not iterable"))
      end
  end.

(** [dependsOn] is there to read [length] from. *)
Definition hasDependsOn (t : value) : bool :=
  match get t "dependsOn" with
  | VUndef | VNull => false
  | _ => true
  end.

Lemma renderTask_shape (t : value) :
  Validate.taskShape t ->
  (exists lines, renderTask t = Ok lines) <-> hasDependsOn t = true.
Proof.
  intros [Hobj [_ [_ [_ [Hdeps [[ps [Hps _]] [prompt [Hprompt _]]]]]]]].
  unfold renderTask, hasDependsOn.
  destruct t; try discriminate. cbn [prop].
  rewrite Hps, Hprompt. cbn [joinOf trimOf].
  destruct Hdeps as [Hfalsy | [deps [Hd _]]].
  - destruct (get (VObj fields) "dependsOn") as [| |b|n|s|items|fs] eqn:E;
      cbn [hasLength]; try discriminate Hfalsy.
    + split; [intros [lines H]; discriminate | discriminate].
    + split; [intros [lines H]; discriminate | discriminate].
    + split; [reflexivity | intros _; eexists; reflexivity].
    + split; [reflexivity | intros _; eexists; reflexivity].
    + cbn [truthy] in Hfalsy. apply negb_false_iff in Hfalsy. rewrite Hfalsy. cbn [negb].
      split; [reflexivity | intros _; eexists; reflexivity].
  - rewrite Hd. cbn [hasLength].
    destruct (negb (Nat.eqb (List.length deps) 0)); cbn [joinOf];
      (split; [reflexivity | intros _; eexists; reflexivity]).
Qed.

Lemma renderTasks_shapes (tasks : list value) :
  Forall Validate.taskShape tasks ->
  (exists lines, renderTasks tasks = Ok lines) <-> forallb hasDependsOn tasks = true.
Proof.
  induction 1 as [|t tasks Ht _ IH]; cbn [renderTasks forallb].
  - split; [reflexivity | intros _; now eexists].
  - rewrite andb_true_iff, <- IH, <- (renderTask_shape t Ht). split.
    + intros [lines H]. destruct (renderTask t) as [l|]; [|discriminate].
      destruct (renderTasks tasks) as [more|]; [|discriminate].
      split; now eexists.
    + intros [[l Hl] [more Hmore]]. rewrite Hl, Hmore. now eexists.
Qed.

(** X21.  [validatePlan] accepts a task without [dependsOn] (it reads
    [t.dependsOn || []]), and [renderPlanMd] reads [t.dependsOn.length]:
    on a plan that [validatePlan] accepts, [renderPlanMd] returns exactly
    when every task has a [dependsOn] other than [undefined] and [null],
    and throws a [TypeError] otherwise. *)
Theorem accepted_plan_renders_iff_dependsOn (plan : value) :
  Validate.validatePlan plan = Some [] ->
  (exists text, renderPlanMd plan = Ok text)
  <-> forallb hasDependsOn (Validate.planTasks plan) = true.
Proof.
  intro Hok. apply Validate.validatePlan_sound in Hok.
  destruct Hok as [Hobj [[tasks [Htasks [_ Hshapes]]] _]].
  unfold renderPlanMd, Validate.planTasks. rewrite Htasks.
  destruct plan; try discriminate. cbn [prop].
  rewrite <- (renderTasks_shapes tasks Hshapes). split.
  - intros [text H]. destruct (renderTasks tasks) as [lines|]; [now eexists | discriminate].
  - intros [lines H]. rewrite H. now eexists.
Qed.

(** A plan that passes validation and cannot be rendered. *)
Definition bareTask : value :=
  VObj [("id", VStr "t1"); ("title", VStr "t"); ("kind", VStr "patch");
        ("allowedPathPrefixes", VArr [VStr "src/"]); ("prompt", VStr "p")].

Definition barePlan : value :=
  VObj [("version", VNum 1); ("intent", VStr "demo"); ("tasks", VArr [bareTask])].

Example barePlan_accepted_not_rendered :
  Validate.validatePlan barePlan = Some []
  /\ renderPlanMd barePlan
     = Throw "TypeError: Cannot read properties of undefined (reading 'length')".
Proof. split; reflexivity. Qed.

Lemma accepted_plan_renders_iff_dependsOn_witness :
  (exists text, renderPlanMd barePlan = Ok text)
  <-> forallb hasDependsOn (Validate.planTasks barePlan) = true.
Proof.
  apply (accepted_plan_renders_iff_dependsOn barePlan). reflexivity.
Defined.

End PlanMd.

(** ** The run store and the commands

    [scripts/ecc/run.js], [config.js], [lock.js], [exec.js] and the
    commands of [scripts/ecc.js].  The project's state directory holds one
    run; its files are named by an [artifact].  Everything the engine does
    not own (the git repository and its working copies, the provider, the
    verify runner, the catalog, the clock) is the state [host] with the
    operations of the section below. *)

Module Engine.

Inductive runStatus : Type := Planned | Executing | Verifying | Succeeded | Failed.

(** [run.json], as [validateRun] types it. *)
Record run : Type := mkRun {
  runId : string;
  intent : string;
  backend : string;
  packs : list string;
  status : runStatus;
  baseRepoRoot : string;
  baseBranch : string;
  baseSha : string;
  worktreePath : string;
  worktreeBranch : string;
  startedAt : string;
  endedAt : option string
}.

Definition withStatus (r : run) (s : runStatus) : run :=
  mkRun (runId r) (intent r) (backend r) (packs r) s (baseRepoRoot r) (baseBranch r)
        (baseSha r) (worktreePath r) (worktreeBranch r) (startedAt r) (endedAt r).

Definition withEndedAt (r : run) (t : string) : run :=
  mkRun (runId r) (intent r) (backend r) (packs r) (status r) (baseRepoRoot r)
        (baseBranch r) (baseSha r) (worktreePath r) (worktreeBranch r) (startedAt r)
        (Some t).

Definition withWorktreePath (r : run) (p : string) : run :=
  mkRun (runId r) (intent r) (backend r) (packs r) (status r) (baseRepoRoot r)
        (baseBranch r) (baseSha r) p (worktreeBranch r) (startedAt r) (endedAt r).

Definition withWorktreeBranch (r : run) (b : string) : run :=
  mkRun (runId r) (intent r) (backend r) (packs r) (status r) (baseRepoRoot r)
        (baseBranch r) (baseSha r) (worktreePath r) b (startedAt r) (endedAt r).

(** The files of the state directory. *)
Inductive artifact : Type :=
| ConfigFile | LockFile | GitignoreFile
| RunFile | IntentFile | PlanFile | PlanMdFile
| PatchFile (taskId : string)
| ApplyFile | ReportFile.

Definition artifact_eqb (a b : artifact) : bool :=
  match a, b with
  | ConfigFile, ConfigFile | LockFile, LockFile | GitignoreFile, GitignoreFile
  | RunFile, RunFile | IntentFile, IntentFile | PlanFile, PlanFile
  | PlanMdFile, PlanMdFile | ApplyFile, ApplyFile | ReportFile, ReportFile => true
  | PatchFile x, PatchFile y => String.eqb x y
  | _, _ => false
  end.

Inductive content : Type :=
| Json (v : value)
| RunDoc (r : run)
| Text (s : string).

(** The state directory is the list of the writes made to it, newest
    first; a file holds what was written to it last. *)
Record disk : Type := mkDisk { written : list (artifact * content) }.

Fixpoint newest (a : artifact) (writes : list (artifact * content)) : option content :=
  match writes with
  | [] => None
  | (b, c) :: older => if artifact_eqb a b then Some c else newest a older
  end.

Definition file (d : disk) (a : artifact) : option content := newest a (written d).

Definition emptyDisk : disk := mkDisk [].

Definition write (a : artifact) (c : content) (d : disk) : disk :=
  mkDisk ((a, c) :: written d).

(** The runs saved to [run.json] by a list of writes, oldest first. *)
Fixpoint savedRuns (writes : list (artifact * content)) : list run :=
  match writes with
  | [] => []
  | (RunFile, RunDoc r) :: older => (savedRuns older ++ [r])%list
  | _ :: older => savedRuns older
  end.

(** How a call ends: it returns, throws, or ends the process. *)
Inductive completion (A : Type) : Type :=
| Returned (a : A)
| Thrown (msg : string)
| Exited (code : Z).
Arguments Returned {A} a.
Arguments Thrown {A} msg.
Arguments Exited {A} code.

Section Host.

Variable host : Type.

Record machine : Type := mkMachine { fs : disk; outside : host }.

(** Computations over the machine. *)
Definition M (A : Type) : Type := machine -> machine * completion A.

Definition ret {A : Type} (a : A) : M A := fun m => (m, Returned a).

Definition bind {A B : Type} (c : M A) (f : A -> M B) : M B :=
  fun m =>
    match c m with
    | (m', Returned a) => f a m'
    | (m', Thrown msg) => (m', Thrown msg)
    | (m', Exited code) => (m', Exited code)
    end.

Definition throw {A : Type} (msg : string) : M A := fun m => (m, Thrown msg).

(** [process.exit(code)] *)
Definition exit {A : Type} (code : Z) : M A := fun m => (m, Exited code).

(** [try { c } catch (err) { handler(err.message) }] *)
Definition tryCatch {A : Type} (c : M A) (handler : string -> M A) : M A :=
  fun m =>
    match c m with
    | (m', Thrown msg) => handler msg m'
    | other => other
    end.

Definition ofResult {A : Type} (r : result A) : M A :=
  match r with
  | Ok a => ret a
  | Throw msg => throw msg
  end.

Definition readFile (a : artifact) : M (option content) :=
  fun m => (m, Returned (file (fs m) a)).

Definition writeFile (a : artifact) (c : content) : M unit :=
  fun m => (mkMachine (write a c (fs m)) (outside m), Returned tt).

(** An operation of the host that may change it and may throw. *)
Definition call {A : Type} (op : host -> host * result A) : M A :=
  fun m =>
    let (h, r) := op (outside m) in
    ofResult r (mkMachine (fs m) h).

(** An operation of the host that only reads it. *)
Definition ask {A : Type} (op : host -> A) : M A :=
  fun m => (m, Returned (op (outside m))).

Notation "x <- c1 ;; c2" := (bind c1 (fun x => c2))
  (at level 61, c1 at next level, right associativity).
Notation "c1 ;; c2" := (bind c1 (fun _ => c2))
  (at level 61, right associativity).
Notation "c >>= f" := (bind c f) (at level 62, left associativity).

(** *** The host *)

Variable nowIso : host -> string.
Variable getRepoRoot : host -> option string.
Variable getHeadSha : host -> host * result string.
Variable getCurrentBranch : host -> host * result string.
Variable existsSync : host -> string -> bool.
Variable defaultWorktreePath : string -> string -> option string -> string.
Variable ensureWorktree : string -> string -> string -> string -> host -> host * result string.
Variable removeWorktree : string -> string -> host -> host * result unit.
Variable commitAll : string -> string -> host -> host * result string.
(** The provider; [generatePatch task repoRoot packs]. *)
Variable generatePlan : string -> string -> list string -> host -> host * result value.
Variable generatePatch : value -> string -> list string -> host -> host * result value.
(** [diff.applyPatch worktreePath patchPath patchText allowedPathPrefixes] *)
Variable applyPatch : string -> string -> string -> value -> host -> host * result (list value).
(** [verifyMod.runVerify worktreePath verifyConfig] *)
Variable runVerify : string -> value -> host -> host * result value.
(** The ids of [catalog.loadPacks()] and the digest of the catalog. *)
Variable knownPacks : host -> list string.
Variable catalogDigest : host -> string.
(** [buildReport({ run, plan, applyResult, verifySummary })]: it reads the
    summary of the verification from the host, and it throws when it meets
    a plan, an apply result or a summary it cannot walk through. *)
Variable buildReport : run -> value -> value -> host -> result string.
(** The state directory of the project, as a path. *)
Variable stateDir : string.
(** [process.env.ECC_PROVIDER], or the empty string. *)
Variable eccProvider : host -> string.

(** *** run.js *)

Definition statusName (s : runStatus) : string :=
  match s with
  | Planned => "planned"
  | Executing => "executing"
  | Verifying => "verifying"
  | Succeeded => "succeeded"
  | Failed => "failed"
  end.

(** [validateRun] on a typed run: the checks a typed run can fail. *)
Definition validateRun (r : run) : list Validate.error :=
  (Validate.validateString "$.runId" (VStr (runId r)) 1
     ++ Validate.validateString "$.intent" (VStr (intent r)) 1
     ++ (if Validate.isBackend (VStr (backend r)) then []
         else Validate.pushErr "$.backend"
                ("expected " ++ dq ++ "codex" ++ dq ++ " or " ++ dq ++ "claude" ++ dq))
     ++ Validate.validateStringArray "$.packs" (VArr (map VStr (packs r))) 1
     ++ Validate.validateString "$.startedAt" (VStr (startedAt r)) 1
     ++ match endedAt r with
        | Some t => Validate.validateString "$.endedAt" (VStr t) 1
        | None => []
        end
     ++ Validate.validateString "$.base.repoRoot" (VStr (baseRepoRoot r)) 1)%list.

Definition throwIfErrors (errors : list Validate.error) (label : string) : M unit :=
  ofResult (Validate.throwIfErrors errors label).

Definition patchesDir (id : string) : string := pathJoin [stateDir; "runs"; id; "patches"].

Definition initRun (id intentText backendName : string) (packList : list string)
           (repoRoot branch sha : string) : M run :=
  existing <- readFile RunFile ;;
  match existing with
  | Some _ => throw ("Run already exists: " ++ id)
  | None =>
      writeFile IntentFile (Text (intentText ++ nl)) ;;
      now <- ask nowIso ;;
      let r := mkRun id intentText backendName packList Planned repoRoot branch sha
                     "" ("ecc/" ++ id) now None in
      throwIfErrors (validateRun r) "run" ;;
      writeFile RunFile (RunDoc r) ;;
      ret r
  end.

Definition loadRun : M (option run) :=
  existing <- readFile RunFile ;;
  match existing with
  | None => ret None
  | Some (RunDoc r) => throwIfErrors (validateRun r) "run" ;; ret (Some r)
  | Some _ => throw "run failed"
  end.

Definition saveRun (r : run) : M unit :=
  throwIfErrors (validateRun r) "run" ;;
  writeFile RunFile (RunDoc r).

Definition markRunEnded (r : run) (s : runStatus) : M run :=
  now <- ask nowIso ;;
  ret (withEndedAt (withStatus r s) now).

(** *** report.js *)

(** [loadIfExists]: [null] for a file that is missing or is not JSON. *)
Definition loadIfExists (c : option content) : value :=
  match c with
  | Some (Json v) => v
  | _ => VNull
  end.

Definition writeReport (id : string) : M unit :=
  runDoc <- readFile RunFile ;;
  match runDoc with
  | Some (RunDoc r) =>
      plan <- readFile PlanFile ;;
      applied <- readFile ApplyFile ;;
      report <- ask (buildReport r (loadIfExists plan) (loadIfExists applied)) ;;
      match report with
      | Ok text => writeFile ReportFile (Text (text ++ nl))
      | Throw msg => throw msg
      end
  | _ => throw ("missing run.json for runId=" ++ id)
  end.

(** *** config.js and lock.js *)

Definition createConfig (backendName : string) (packList : list string) (now : string)
  : value :=
  VObj [("version", VNum 1);
        ("backend", VStr backendName);
        ("packs", VArr (map VStr packList));
        ("verify", VObj [("mode", VStr "auto")]);
        ("createdAt", VStr now)].

Definition loadConfig : M (option value) :=
  existing <- readFile ConfigFile ;;
  match existing with
  | None => ret None
  | Some (Json cfg) =>
      throwIfErrors (Validate.validateConfig cfg) "ecc config" ;; ret (Some cfg)
  | Some _ => throw "ecc config failed"
  end.

Definition saveConfig (cfg : value) : M unit :=
  throwIfErrors (Validate.validateConfig cfg) "ecc config" ;;
  writeFile ConfigFile (Json cfg).

Definition buildRegistryLock (packList : value) : M value :=
  now <- ask nowIso ;;
  digest <- ask catalogDigest ;;
  let lock := VObj [("version", VNum 1);
                    ("lockedAt", VStr now);
                    ("engine", VObj [("name", VStr "ecc")]);
                    ("catalog", VObj [("type", VStr "embedded"); ("digest", VStr digest)]);
                    ("packs", packList)] in
  throwIfErrors (Validate.validateLock lock) "registry lock" ;;
  ret lock.

Definition writeRegistryLock (packList : value) (overwrite : bool) : M unit :=
  existing <- readFile LockFile ;;
  match existing with
  | Some _ =>
      if negb overwrite then ret tt
      else lock <- buildRegistryLock packList ;; writeFile LockFile (Json lock)
  | None => lock <- buildRegistryLock packList ;; writeFile LockFile (Json lock)
  end.

(** *** providers/index.js *)

Definition getProvider (backendName : value) : M unit :=
  env <- ask eccProvider ;;
  let env := toLowerCase (trim env) in
  if negb (String.eqb env "") then
    if String.eqb env "mock" || String.eqb env "codex" then ret tt
    else throw ("Unknown ECC_PROVIDER: " ++ env)
  else if value_eqb backendName (VStr "codex") then ret tt
  else if value_eqb backendName (VStr "claude") then
    throw ("ECC P0: backend " ++ dq ++ "claude" ++ dq
             ++ " is not implemented yet (use backend " ++ dq ++ "codex" ++ dq ++ ")")
  else throw ("Unknown backend: " ++ toString backendName).

(** *** exec.js *)

(** A [Map] whose keys are arbitrary values. *)
Fixpoint vmap_set (k v : value) (m : list (value * value)) : list (value * value) :=
  match m with
  | [] => [(k, v)]
  | (k', v') :: rest =>
      if value_eqb k k' then (k', v) :: rest else (k', v') :: vmap_set k v rest
  end.

Fixpoint vmap_get (m : list (value * value)) (k : value) : option value :=
  match m with
  | [] => None
  | (k', v) :: rest => if value_eqb k k' then Some v else vmap_get rest k
  end.

(** [t.k] where [t] may be [null] or [undefined]. *)
Definition member (t : value) (k : string) : result value :=
  match t with
  | VUndef | VNull =>
      Throw ("TypeError: Cannot read properties of " ++ toString t
               ++ " (reading '" ++ k ++ "')")
  | _ => Ok (get t k)
  end.

(** [new Map(tasks.map(t => [t.id, t]))], continued from [m]. *)
Fixpoint tasksById (m : list (value * value)) (tasks : list value)
  : result (list (value * value)) :=
  match tasks with
  | [] => Ok m
  | t :: rest =>
      match member t "id" with
      | Ok id => tasksById (vmap_set id t m) rest
      | Throw msg => Throw msg
      end
  end.

Record topoState : Type :=
  mkTopo { visiting : list value; visited : list value; out : list value }.

(** [for (const x of xs) visit(x)]; [None] when the fuel ran out. *)
Fixpoint visitEach (visit : value -> topoState -> option (result topoState))
         (ids : list value) (st : topoState) : option (result topoState) :=
  match ids with
  | [] => Some (Ok st)
  | id :: rest =>
      match visit id st with
      | Some (Ok st') => visitEach visit rest st'
      | other => other
      end
  end.

(** The closure [visit] of [topoSortTasks], driven by [fuel]. *)
Fixpoint visit (fuel : nat) (byId : list (value * value)) (id : value) (st : topoState)
  : option (result topoState) :=
  match fuel with
  | O => None
  | S fuel' =>
      if has id (visited st) then Some (Ok st)
      else if has id (visiting st) then
        Some (Throw ("cycle detected at task " ++ dq ++ toString id ++ dq))
      else
        match vmap_get byId id with
        | None =>
            Some (Throw "TypeError: Cannot read properties of undefined (reading 'dependsOn')")
        | Some t =>
            match visitEach (visit fuel' byId) (Validate.depsOf t)
                            (mkTopo (id :: visiting st) (visited st) (out st)) with
            | Some (Ok st') =>
                Some (Ok (mkTopo (delete id (visiting st')) (id :: visited st')
                                 (out st' ++ [t])%list))
            | other => other
            end
        end
  end.

Definition topoSortFuel (fuel : nat) (tasks : list value) : option (result (list value)) :=
  match tasksById [] tasks with
  | Throw msg => Some (Throw msg)
  | Ok byId =>
      match visitEach (visit fuel byId) (map (fun t => get t "id") tasks)
                      (mkTopo [] [] []) with
      | Some (Ok st) => Some (Ok (out st))
      | Some (Throw msg) => Some (Throw msg)
      | None => None
      end
  end.

(** [topoSortTasks]; the fuel is one more than the number of tasks, which
    is enough ([topoSortFuel_returns] below). *)
Definition topoSortTasks (tasks : list value) : result (list value) :=
  match topoSortFuel (S (List.length tasks)) tasks with
  | Some r => r
  | None => Throw "RangeError: Maximum call stack size exceeded"
  end.

(** [applyResult], with the entries pushed so far. *)
Definition applyResultDoc (appliedAt sha : string) (entries : list value) : value :=
  VObj [("version", VNum 1);
        ("appliedAt", VStr appliedAt);
        ("baseSha", VStr sha);
        ("tasks", VArr entries)].

Definition appliedEntry (task : value) (patchPath : string) : value :=
  VObj [("id", get task "id"); ("patchPath", VStr patchPath); ("ok", VBool true)].

Definition failedEntry (task : value) (patchPath error : string) : value :=
  VObj [("id", get task "id"); ("patchPath", VStr patchPath); ("ok", VBool false);
        ("error", VStr error)].

Definition patchPathOf (id : string) (task : value) : string :=
  pathJoin [patchesDir id; toString (get task "id") ++ ".diff"].

(** [err && err.message ? err.message : String(err)] for a thrown [Error] *)
Definition messageOf (msg : string) : string :=
  if String.eqb msg "" then "Error" else msg.

(** The loop [for (const task of ordered)] of [execRun]; [entries] is
    [applyResult.tasks]. *)
Fixpoint execTasks (id wt : string) (packList : list string) (appliedAt sha : string)
         (entries : list value) (ordered : list value) : M (list value) :=
  match ordered with
  | [] => ret entries
  | task :: rest =>
      patchOut <- call (generatePatch task wt packList) ;;
      let patchPath := patchPathOf id task in
      match (if truthy patchOut then get patchOut "patch" else VNull) with
      | VStr patch =>
          let text := if endsWithChar (chr 10) patch then patch else patch ++ nl in
          writeFile (PatchFile (toString (get task "id"))) (Text text) ;;
          tryCatch
            (call (applyPatch wt patchPath text (get task "allowedPathPrefixes")) ;;
             ret (entries ++ [appliedEntry task patchPath])%list)
            (fun msg =>
               writeFile ApplyFile
                 (Json (applyResultDoc appliedAt sha
                          (entries ++ [failedEntry task patchPath (messageOf msg)])%list)) ;;
               throw msg)
          >>= (fun entries' => execTasks id wt packList appliedAt sha entries' rest)
      | _ =>
          writeFile ApplyFile
            (Json (applyResultDoc appliedAt sha
                     (entries ++ [failedEntry task patchPath
                                    "provider returned non-string patch"])%list)) ;;
          throw ("provider returned non-string patch for task: " ++ toString (get task "id"))
      end
  end.

Record execResult : Type :=
  mkExecResult { exWorktreePath : string; exApplyResult : value; exRun : run;
                 exRepoRoot : string }.

Definition execRun (id : string) (worktreeRoot : option string) : M execResult :=
  loaded <- loadRun ;;
  match loaded with
  | None => throw ("unknown runId: " ++ id)
  | Some r =>
      planDoc <- readFile PlanFile ;;
      match planDoc with
      | None =>
          throw ("missing plan.json (run ecc plan first): "
                   ++ pathJoin [stateDir; "runs"; id; "plan.json"])
      | Some (Json plan) =>
          root <- ask getRepoRoot ;;
          match root with
          | None => throw "ecc exec requires a git repository"
          | Some repoRoot =>
              sha <- (if negb (String.eqb (baseSha r) "") then ret (baseSha r)
                      else call getHeadSha) ;;
              let branch := if negb (String.eqb (worktreeBranch r) "")
                            then worktreeBranch r else "ecc/" ++ id in
              present <- ask (fun h => existsSync h (worktreePath r)) ;;
              let desired := if negb (String.eqb (worktreePath r) "") && present
                             then worktreePath r
                             else defaultWorktreePath repoRoot id worktreeRoot in
              wt <- call (ensureWorktree repoRoot desired branch sha) ;;
              let r1 := withWorktreeBranch (withWorktreePath (withStatus r Executing) wt)
                                           branch in
              saveRun r1 ;;
              ordered <- ofResult
                           (match get plan "tasks" with
                            | VArr tasks => topoSortTasks tasks
                            | _ => Throw "TypeError: tasks.map is not a function"
                            end) ;;
              now <- ask nowIso ;;
              entries <- execTasks id wt (packs r1) now sha [] ordered ;;
              let applyResult := applyResultDoc now sha entries in
              throwIfErrors (Validate.validateApplyResult applyResult) "apply result" ;;
              writeFile ApplyFile (Json applyResult) ;;
              ret (mkExecResult wt applyResult r1 repoRoot)
          end
      | Some _ => throw "SyntaxError: Unexpected token in JSON"
      end
  end.

(** *** plan.js *)

Definition generatePlanFor (r : run) (projectRoot : string) : M value :=
  plan <- call (generatePlan (intent r) projectRoot (packs r)) ;;
  match Validate.validatePlan plan with
  | Some errors => throwIfErrors errors "plan"
  | None => throw "RangeError: Maximum call stack size exceeded"
  end ;;
  writeFile PlanFile (Json plan) ;;
  text <- ofResult (PlanMd.renderPlanMd plan) ;;
  writeFile PlanMdFile (Text text) ;;
  existing <- readFile RunFile ;;
  match existing with
  | None => saveRun r
  | Some _ => ret tt
  end ;;
  ret plan.

(** *** The commands of ecc.js *)

(** [parsePacksArg] *)
Definition parsePacksArg (arg : option string) : option (list string) :=
  match arg with
  | None => None
  | Some a =>
      if String.eqb a "" then None
      else Some (filter (fun x => negb (String.eqb x ""))
                        (map trim (splitChar ","%char a)))
  end.

Definition getDefaultPacks : list string := ["blueprint"; "forge"; "proof"; "sentinel"].

Definition validateSelectedPacks (selected : list string) : M unit :=
  known <- ask knownPacks ;;
  match filter (fun x => negb (existsb (String.eqb x) known)) selected with
  | [] => ret tt
  | unknown => throw ("Unknown packs: " ++ join ", " unknown)
  end.

Definition gitignoreContent : string :=
  join nl ["# ECC runtime artifacts (do not commit)"; "runs/"; "cache/"; "tmp/"; ""].

Definition ensureEccGitignore : M unit := writeFile GitignoreFile (Text gitignoreContent).

Definition cmdInit (backendArg packsArg : option string) : M unit :=
  let backendName := match backendArg with
                     | Some b => if String.eqb b "" then "codex" else b
                     | None => "codex"
                     end in
  if negb (String.eqb backendName "codex" || String.eqb backendName "claude") then
    throw ("init: --backend must be " ++ dq ++ "codex" ++ dq ++ " or " ++ dq ++ "claude" ++ dq)
  else
    let selected := match parsePacksArg packsArg with
                    | Some (x :: xs) => x :: xs
                    | _ => getDefaultPacks
                    end in
    validateSelectedPacks selected ;;
    loaded <- loadConfig ;;
    cfg <- match loaded with
           | Some cfg => ret cfg
           | None =>
               now <- ask nowIso ;;
               let cfg := createConfig backendName selected now in
               saveConfig cfg ;; ret cfg
           end ;;
    ensureEccGitignore ;;
    writeRegistryLock (get cfg "packs") false.

Definition packsOf (cfg : value) : list string :=
  match get cfg "packs" with
  | VArr ps => map toString ps
  | _ => []
  end.

(** [cmdPlan], from the run id that [ensureUniqueRunId] chose. *)
Definition cmdPlan (intentArg : option string) (id projectRoot : string) : M unit :=
  match intentArg with
  | None => throw "plan: missing <intent>"
  | Some intentText =>
      loaded <- loadConfig ;;
      match loaded with
      | None => throw "ECC is not initialized (run: ecc init)"
      | Some cfg =>
          root <- ask getRepoRoot ;;
          base <- match root with
                  | Some repoRoot =>
                      branch <- call getCurrentBranch ;;
                      sha <- call getHeadSha ;;
                      ret (repoRoot, branch, sha)
                  | None => ret (projectRoot, "", "")
                  end ;;
          let '(repoRoot, branch, sha) := base in
          r <- initRun id intentText (toString (get cfg "backend")) (packsOf cfg)
                       repoRoot branch sha ;;
          getProvider (get cfg "backend") ;;
          generatePlanFor r projectRoot ;;
          writeReport id
      end
  end.

(** [if (run) saveRun(markRunEnded(run, 'failed'))] on the run read back
    from the disk, then the report, then the error again. *)
Definition failRun (id msg : string) : M execResult :=
  loaded <- loadRun ;;
  match loaded with
  | Some r => ended <- markRunEnded r Failed ;; saveRun ended
  | None => ret tt
  end ;;
  writeReport id ;;
  throw msg.

(** [obj.k = v] *)
Fixpoint setField (k : string) (v : value) (fields : list (string * value))
  : list (string * value) :=
  match fields with
  | [] => [(k, v)]
  | (k', v') :: rest =>
      if String.eqb k k' then (k', v) :: rest else (k', v') :: setField k v rest
  end.

Definition setProp (o : value) (k : string) (v : value) : value :=
  match o with
  | VObj fields => VObj (setField k v fields)
  | _ => o
  end.

Definition cmdExec (idArg worktreeRoot : option string) (keepWorktree commit : bool)
  : M unit :=
  match idArg with
  | None => throw "exec: missing <runId>"
  | Some id =>
      loaded <- loadConfig ;;
      match loaded with
      | None => throw "ECC is not initialized (run: ecc init)"
      | Some cfg =>
          getProvider (get cfg "backend") ;;
          res <- tryCatch (execRun id worktreeRoot) (failRun id) ;;
          (if commit then
             reloaded <- loadRun ;;
             match reloaded with
             | None => throw ("unknown runId: " ++ id)
             | Some r =>
                 let r1 := withStatus r Verifying in
                 saveRun r1 ;;
                 summary <- call (runVerify (exWorktreePath res) (get cfg "verify")) ;;
                 (if negb (truthy (get summary "ok")) then
                    ended <- markRunEnded r1 Failed ;;
                    saveRun ended ;;
                    writeReport id ;;
                    exit 1
                  else ret tt) ;;
                 sha <- call (commitAll (exWorktreePath res) ("ecc: " ++ id)) ;;
                 let applyResult :=
                   setProp (exApplyResult res) "commit"
                           (VObj [("sha", VStr sha); ("message", VStr ("ecc: " ++ id))]) in
                 throwIfErrors (Validate.validateApplyResult applyResult) "apply result" ;;
                 writeFile ApplyFile (Json applyResult) ;;
                 ended <- markRunEnded r1 Succeeded ;;
                 saveRun ended ;;
                 (if negb keepWorktree then
                    tryCatch
                      (call (removeWorktree (exRepoRoot res) (exWorktreePath res)) ;;
                       saveRun (withWorktreePath ended ""))
                      (fun _ => ret tt)
                  else ret tt)
             end
           else ret tt) ;;
          writeReport id
      end
  end.

Definition missingWorktree : string :=
  "verify: missing worktree and changes were not committed. "
    ++ "Re-run: ecc exec <runId> (or use --commit to persist changes).".

Definition cmdVerify (idArg worktreeRoot : option string) : M unit :=
  match idArg with
  | None => throw "verify: missing <runId>"
  | Some id =>
      loaded <- loadConfig ;;
      match loaded with
      | None => throw "ECC is not initialized (run: ecc init)"
      | Some cfg =>
          found <- loadRun ;;
          match found with
          | None => throw ("unknown runId: " ++ id)
          | Some r =>
              present <- ask (fun h => existsSync h (worktreePath r)) ;;
              r1 <- (if String.eqb (worktreePath r) "" || negb present then
                       applied <- readFile ApplyFile ;;
                       hasCommit <- match applied with
                                    | None => ret false
                                    | Some (Json a) =>
                                        ret (truthy a && truthy (get a "commit")
                                               && truthy (get (get a "commit") "sha"))
                                    | Some _ => throw "SyntaxError: Unexpected token in JSON"
                                    end ;;
                       if negb hasCommit then throw missingWorktree
                       else
                         root <- ask getRepoRoot ;;
                         match root with
                         | None => throw "verify: requires a git repository"
                         | Some repoRoot =>
                             sha <- (if negb (String.eqb (baseSha r) "") then ret (baseSha r)
                                     else call getHeadSha) ;;
                             wt <- call (ensureWorktree repoRoot
                                           (defaultWorktreePath repoRoot id worktreeRoot)
                                           (worktreeBranch r) sha) ;;
                             let r' := withWorktreePath r wt in
                             saveRun r' ;; ret r'
                         end
                     else ret r) ;;
              let r2 := withStatus r1 Verifying in
              saveRun r2 ;;
              summary <- call (runVerify (worktreePath r2) (get cfg "verify")) ;;
              if negb (truthy (get summary "ok")) then
                ended <- markRunEnded r2 Failed ;;
                saveRun ended ;;
                writeReport id ;;
                exit 1
              else
                ended <- markRunEnded r2 Succeeded ;;
                saveRun ended ;;
                writeReport id
          end
      end
  end.

(** [cmdRun], from the run id that [ensureUniqueRunId] chose. *)
Definition cmdRun (intentArg : option string) (id projectRoot : string)
           (worktreeRoot : option string) (keepWorktree commit : bool) : M unit :=
  match intentArg with
  | None => throw "run: missing <intent>"
  | Some intentText =>
      loaded <- loadConfig ;;
      match loaded with
      | None => throw "ECC is not initialized (run: ecc init)"
      | Some cfg =>
          root <- ask getRepoRoot ;;
          base <- match root with
                  | Some repoRoot =>
                      branch <- call getCurrentBranch ;;
                      sha <- call getHeadSha ;;
                      ret (repoRoot, branch, sha)
                  | None => ret (projectRoot, "", "")
                  end ;;
          let '(repoRoot, branch, sha) := base in
          r <- initRun id intentText (toString (get cfg "backend")) (packsOf cfg)
                       repoRoot branch sha ;;
          getProvider (get cfg "backend") ;;
          generatePlanFor r projectRoot ;;
          writeReport id ;;
          res <- tryCatch (execRun id worktreeRoot) (failRun id) ;;
          reloaded <- loadRun ;;
          match reloaded with
          | Some l => saveRun (withStatus l Verifying)
          | None => ret tt
          end ;;
          summary <- call (runVerify (exWorktreePath res) (get cfg "verify")) ;;
          (if negb (truthy (get summary "ok")) then
             again <- loadRun ;;
             match again with
             | Some l => ended <- markRunEnded l Failed ;; saveRun ended
             | None => ret tt
             end ;;
             writeReport id ;;
             exit 1
           else ret tt) ;;
          (if commit then
             sha' <- call (commitAll (exWorktreePath res) ("ecc: " ++ id)) ;;
             writeFile ApplyFile
               (Json (setProp (exApplyResult res) "commit"
                        (VObj [("sha", VStr sha'); ("message", VStr ("ecc: " ++ id))])))
           else ret tt) ;;
          final <- loadRun ;;
          match final with
          | Some l => ended <- markRunEnded l Succeeded ;; saveRun ended
          | None => ret tt
          end ;;
          writeReport id ;;
          (if commit && negb keepWorktree then
             tryCatch
               (call (removeWorktree (exRepoRoot res) (exWorktreePath res)) ;;
                last <- loadRun ;;
                match last with
                | Some l => saveRun (withWorktreePath l "")
                | None => ret tt
                end)
               (fun _ => ret tt)
           else ret tt)
      end
  end.

(** [main], on the commands that touch a run. *)
Inductive command : Type :=
| Init (backendArg packsArg : option string)
| Plan (intentArg : option string) (id projectRoot : string)
| Exec (idArg worktreeRoot : option string) (keepWorktree commit : bool)
| Verify (idArg worktreeRoot : option string)
| Run (intentArg : option string) (id projectRoot : string) (worktreeRoot : option string)
      (keepWorktree commit : bool).

Definition main (cmd : command) : M unit :=
  match cmd with
  | Init backendArg packsArg => cmdInit backendArg packsArg
  | Plan intentArg id projectRoot => cmdPlan intentArg id projectRoot
  | Exec idArg worktreeRoot keepWorktree commit =>
      cmdExec idArg worktreeRoot keepWorktree commit
  | Verify idArg worktreeRoot => cmdVerify idArg worktreeRoot
  | Run intentArg id projectRoot worktreeRoot keepWorktree commit =>
      cmdRun intentArg id projectRoot worktreeRoot keepWorktree commit
  end.

(** *** What the specification says of the status of a run *)


Definition terminal (s : runStatus) : bool :=
  match s with
  | Succeeded | Failed => true
  | _ => false
  end.







(** *** What the specification says of the apply evidence *)




(** *** [topoSortTasks] returns *)

Lemma vmap_get_key (byId : list (value * value)) (id t : value) :
  vmap_get byId id = Some t -> In id (map fst byId).
Proof.
  induction byId as [|[k v] rest IH]; simpl; [discriminate|].
  destruct (value_eqb id k) eqn:E.
  - intros _. left. symmetry. now apply Validate.value_eqb_eq.
  - intro H. right. now apply IH.
Qed.

Definition topoFuel (byId : list (value * value)) (fuel : nat) (st : topoState) : Prop :=
  NoDup (visiting st)
  /\ incl (visiting st) (map fst byId)
  /\ List.length (map fst byId) < fuel + List.length (visiting st).

Lemma visitEach_visiting (step : value -> topoState -> option (result topoState)) :
  (forall id st st', step id st = Some (Ok st') -> visiting st' = visiting st) ->
  forall ids st st', visitEach step ids st = Some (Ok st') -> visiting st' = visiting st.
Proof.
  intros Hstep. induction ids as [|id ids IH]; simpl; intros st st' H.
  - now inversion H.
  - destruct (step id st) as [[st1|msg]|] eqn:E; try discriminate.
    rewrite (IH _ _ H). now apply (Hstep id).
Qed.

Lemma visit_visiting (byId : list (value * value)) (fuel : nat) :
  forall id st st', visit fuel byId id st = Some (Ok st') -> visiting st' = visiting st.
Proof.
  induction fuel as [|fuel IH]; simpl; intros id st st' H; [discriminate|].
  destruct (has id (visited st)); [now inversion H|].
  destruct (has id (visiting st)) eqn:Hvg; [discriminate|].
  destruct (vmap_get byId id) as [t|]; [|discriminate].
  destruct (visitEach _ _ _) as [[st2|msg]|] eqn:E; try discriminate.
  inversion H; subst; simpl.
  rewrite (visitEach_visiting _ IH _ _ _ E). simpl.
  apply Validate.delete_head. now apply Validate.has_false.
Qed.

Lemma visitEach_returns (step : value -> topoState -> option (result topoState))
      (ok : topoState -> Prop) :
  (forall id st, ok st -> step id st <> None) ->
  (forall id st st', ok st -> step id st = Some (Ok st') -> ok st') ->
  forall ids st, ok st -> visitEach step ids st <> None.
Proof.
  intros Hret Hkeep. induction ids as [|id ids IH]; simpl; intros st Hok; [discriminate|].
  destruct (step id st) as [[st1|msg]|] eqn:E.
  - apply IH. now apply (Hkeep id st).
  - discriminate.
  - intros _. exact (Hret id st Hok E).
Qed.

Lemma visit_returns (byId : list (value * value)) (fuel : nat) :
  forall id st, topoFuel byId fuel st -> visit fuel byId id st <> None.
Proof.
  induction fuel as [|fuel IH]; intros id st [Hnd [Hincl Hlen]].
  - exfalso. pose proof (NoDup_incl_length Hnd Hincl). simpl in Hlen. lia.
  - simpl. destruct (has id (visited st)); [discriminate|].
    destruct (has id (visiting st)) eqn:Hvg; [discriminate|].
    apply Validate.has_false in Hvg.
    destruct (vmap_get byId id) as [t|] eqn:Ht; [|discriminate].
    apply vmap_get_key in Ht.
    assert (Hgo : visitEach (visit fuel byId) (Validate.depsOf t)
                            (mkTopo (id :: visiting st) (visited st) (out st)) <> None).
    { apply (visitEach_returns _ (topoFuel byId fuel) IH).
      - intros x s s' [H1 [H2 H3]] E. unfold topoFuel.
        now rewrite (visit_visiting byId fuel _ _ _ E).
      - split; [|split]; simpl.
        + now constructor.
        + intros x [<- | Hx]; [exact Ht | now apply Hincl].
        + simpl in Hlen. lia. }
    destruct (visitEach _ _ _) as [[st2|msg]|]; [discriminate | discriminate | congruence].
Qed.

Lemma vmap_set_length (k v : value) (m : list (value * value)) :
  List.length (vmap_set k v m) <= S (List.length m).
Proof.
  induction m as [|[k' v'] m IH]; simpl; [lia|].
  destruct (value_eqb k k'); simpl; lia.
Qed.

Lemma tasksById_length (tasks : list value) :
  forall m byId, tasksById m tasks = Ok byId ->
                 List.length byId <= List.length m + List.length tasks.
Proof.
  induction tasks as [|t tasks IH]; simpl; intros m byId H.
  - inversion H; subst. lia.
  - destruct (member t "id") as [id|msg]; [|discriminate].
    apply IH in H. pose proof (vmap_set_length id t m). lia.
Qed.

(** The fuel of [topoSortTasks] never runs out. *)
Lemma topoSortFuel_returns (tasks : list value) :
  topoSortFuel (S (List.length tasks)) tasks <> None.
Proof.
  unfold topoSortFuel. destruct (tasksById [] tasks) as [byId|msg] eqn:E; [|discriminate].
  apply tasksById_length in E. simpl in E.
  assert (Hgo : visitEach (visit (S (List.length tasks)) byId)
                          (map (fun t => get t "id") tasks) (mkTopo [] [] []) <> None).
  { apply (visitEach_returns _ (topoFuel byId (S (List.length tasks)))
                             (visit_returns byId _)).
    - intros x s s' [H1 [H2 H3]] Ev. unfold topoFuel.
      now rewrite (visit_visiting byId _ _ _ _ Ev).
    - split; [constructor|]. split; [intros x []|]. simpl. rewrite length_map. lia. }
  destruct (visitEach _ _ _) as [[st|msg]|]; [discriminate | discriminate | congruence].
Qed.

(** *** The order [topoSortTasks] returns *)

Lemma vmap_get_set (k v : value) (m : list (value * value)) (k' : value) :
  vmap_get (vmap_set k v m) k' = if value_eqb k' k then Some v else vmap_get m k'.
Proof.
  induction m as [|[k0 v0] m IH]; simpl; [reflexivity|].
  destruct (value_eqb k k0) eqn:E; simpl.
  - apply Validate.value_eqb_eq in E. subst k0.
    destruct (value_eqb k' k); reflexivity.
  - rewrite IH. destruct (value_eqb k' k0) eqn:E0; [|reflexivity].
    destruct (value_eqb k' k) eqn:E1; [|reflexivity].
    apply Validate.value_eqb_eq in E0, E1. subst.
    rewrite Validate.value_eqb_refl in E. discriminate.
Qed.

Lemma member_id (t id : value) : member t "id" = Ok id -> id = Validate.taskId t.
Proof. destruct t; simpl; intro H; inversion H; reflexivity. Qed.

(** Every value of the map is a task of the list, stored under its id. *)
Lemma tasksById_get (tasks : list value) :
  forall m byId,
    tasksById m tasks = Ok byId ->
    forall k v, vmap_get byId k = Some v ->
                (In v tasks /\ Validate.taskId v = k) \/ vmap_get m k = Some v.
Proof.
  induction tasks as [|t tasks IH]; simpl; intros m byId H k v Hget.
  - inversion H; subst. now right.
  - destruct (member t "id") as [id|msg] eqn:Hid; [|discriminate].
    apply member_id in Hid.
    destruct (IH _ _ H k v Hget) as [[Hin Hk] | Hm]; [left; auto|].
    rewrite vmap_get_set in Hm. destruct (value_eqb k id) eqn:E; [|now right].
    apply Validate.value_eqb_eq in E. inversion Hm; subst. left. auto.
Qed.

(** Every task of the list has its id in the map. *)
Lemma tasksById_has (tasks : list value) :
  forall m byId,
    tasksById m tasks = Ok byId ->
    (forall k, vmap_get m k <> None -> vmap_get byId k <> None)
    /\ (forall t, In t tasks -> vmap_get byId (Validate.taskId t) <> None).
Proof.
  induction tasks as [|t tasks IH]; simpl; intros m byId H.
  - inversion H; subst. split; [auto | intros t []].
  - destruct (member t "id") as [id|msg] eqn:Hid; [|discriminate].
    apply member_id in Hid. destruct (IH _ _ H) as [Hkeep Hall]. split.
    + intros k Hk. apply Hkeep. rewrite vmap_get_set.
      destruct (value_eqb k id); [discriminate | exact Hk].
    + intros t' [<- | Hin]; [|now apply Hall].
      apply Hkeep. rewrite vmap_get_set, <- Hid, Validate.value_eqb_refl. discriminate.
Qed.

Lemma tasksById_objects (tasks : list value) :
  Forall (fun t => isObj t = true) tasks ->
  forall m, exists byId, tasksById m tasks = Ok byId.
Proof.
  induction 1 as [|t tasks Ht _ IH]; intro m; simpl; [now exists m|].
  destruct t; try discriminate. simpl. apply IH.
Qed.

(** In [out], every task comes after the tasks it depends on. *)
Definition depsFirst (out : list value) : Prop :=
  forall before t after,
    out = (before ++ t :: after)%list ->
    forall d, In d (Validate.depsOf t) ->
              exists t', In t' before /\ Validate.taskId t' = d.

Lemma depsFirst_snoc (out : list value) (t : value) :
  depsFirst out ->
  (forall d, In d (Validate.depsOf t) -> exists t', In t' out /\ Validate.taskId t' = d) ->
  depsFirst (out ++ [t]).
Proof.
  intros Hout Ht before x after Heq d Hd.
  destruct after as [|y after _] using rev_ind.
  - apply app_inj_tail in Heq. destruct Heq as [<- <-]. now apply Ht.
  - change (before ++ x :: after ++ [y])%list
      with (before ++ (x :: after) ++ [y])%list in Heq.
    rewrite app_assoc in Heq. apply app_inj_tail in Heq. destruct Heq as [Heq _].
    now apply (Hout before x after Heq d).
Qed.

Section Order.

Variable tasks : list value.
Variable byId : list (value * value).
Hypothesis indexed : tasksById [] tasks = Ok byId.

Lemma byId_task (id t : value) :
  vmap_get byId id = Some t -> In t tasks /\ Validate.taskId t = id.
Proof.
  intro H. destruct (tasksById_get tasks [] byId indexed id t H) as [Hin | Hm]; [exact Hin|].
  discriminate.
Qed.

(** What [visit] keeps: [visited] holds the ids of [out], last first and
    each once; [out] holds tasks of the list, dependencies first. *)
Definition sorted (st : topoState) : Prop :=
  map Validate.taskId (out st) = rev (visited st)
  /\ NoDup (visited st)
  /\ depsFirst (out st)
  /\ (forall t, In t (out st) -> In t tasks).

Lemma sorted_visited (st : topoState) (d : value) :
  sorted st -> In d (visited st) -> exists t', In t' (out st) /\ Validate.taskId t' = d.
Proof.
  intros [Hids _] Hd. apply in_rev in Hd. rewrite <- Hids in Hd.
  apply in_map_iff in Hd. destruct Hd as [t' [Ht' Hin]]. now exists t'.
Qed.

(** An id on the stack is not marked visited before its own visit ends. *)
Lemma visit_stack (fuel : nat) :
  forall id st st',
    visit fuel byId id st = Some (Ok st') ->
    forall y, In y (visiting st) -> In y (visited st') -> In y (visited st).
Proof.
  induction fuel as [|fuel IH]; simpl; intros id st st' H y Hy Hv; [discriminate|].
  destruct (has id (visited st)) eqn:Hvd; [inversion H; subst; exact Hv|].
  destruct (has id (visiting st)) eqn:Hvg; [discriminate|].
  destruct (vmap_get byId id) as [t|]; [|discriminate].
  destruct (visitEach _ _ _) as [[st2|msg]|] eqn:E; try discriminate.
  inversion H; subst; clear H. simpl in Hv. destruct Hv as [<- | Hv].
  - apply Validate.has_false in Hvg. contradiction.
  - assert (Hgen : forall ids s s',
               visitEach (visit fuel byId) ids s = Some (Ok s') ->
               In y (visiting s) -> In y (visited s') -> In y (visited s)).
    { induction ids as [|x ids IHids]; simpl; intros s s' Hs Hys Hvs.
      - inversion Hs; subst. exact Hvs.
      - destruct (visit fuel byId x s) as [[s1|msg]|] eqn:Ex; try discriminate.
        apply (IH x s s1 Ex y Hys). apply (IHids s1 s' Hs); [|exact Hvs].
        now rewrite (visit_visiting byId fuel x s s1 Ex). }
    apply (Hgen _ _ _ E); [now right | exact Hv].
Qed.

Lemma visit_sorted (fuel : nat) :
  forall id st st',
    sorted st ->
    visit fuel byId id st = Some (Ok st') ->
    sorted st' /\ In id (visited st') /\ incl (visited st) (visited st').
Proof.
  induction fuel as [|fuel IH]; simpl; intros id st st' Hst H; [discriminate|].
  destruct (has id (visited st)) eqn:Hvd.
  { inversion H; subst. apply Validate.has_In in Hvd.
    split; [exact Hst|]. split; [exact Hvd | apply incl_refl]. }
  destruct (has id (visiting st)) eqn:Hvg; [discriminate|].
  destruct (vmap_get byId id) as [t|] eqn:Ht; [|discriminate].
  destruct (visitEach _ _ _) as [[st2|msg]|] eqn:E; try discriminate.
  inversion H; subst; clear H.
  assert (Hgen : forall ids s s',
             sorted s ->
             visitEach (visit fuel byId) ids s = Some (Ok s') ->
             sorted s' /\ (forall d, In d ids -> In d (visited s'))
             /\ incl (visited s) (visited s')).
  { induction ids as [|x ids IHids]; simpl; intros s s' Hs Hrun.
    - inversion Hrun; subst. split; [exact Hs|]. split; [intros d [] | apply incl_refl].
    - destruct (visit fuel byId x s) as [[s1|msg]|] eqn:Ex; try discriminate.
      destruct (IH x s s1 Hs Ex) as [Hs1 [Hx Hinc1]].
      destruct (IHids s1 s' Hs1 Hrun) as [Hs' [Hall Hinc2]].
      split; [exact Hs'|]. split.
      + intros d [<- | Hd]; [now apply Hinc2 | now apply Hall].
      + intros z Hz. apply Hinc2, Hinc1, Hz. }
  assert (Hst0 : sorted (mkTopo (id :: visiting st) (visited st) (out st))) by exact Hst.
  destruct (Hgen _ _ _ Hst0 E) as [[Hids [Hnd [Hdeps Hin]]] [Hall Hinc]].
  destruct (byId_task id t Ht) as [Htask Hid].
  assert (Hfresh : ~ In id (visited st2)).
  { intro Hv. apply Validate.has_false in Hvd. apply Hvd.
    assert (Hgen2 : forall ids s s',
               visitEach (visit fuel byId) ids s = Some (Ok s') ->
               In id (visiting s) -> In id (visited s') -> In id (visited s)).
    { induction ids as [|x ids IHids]; simpl; intros s s' Hs Hys Hvs.
      - inversion Hs; subst. exact Hvs.
      - destruct (visit fuel byId x s) as [[s1|msg]|] eqn:Ex; try discriminate.
        apply (visit_stack fuel x s s1 Ex id Hys). apply (IHids s1 s' Hs); [|exact Hvs].
        now rewrite (visit_visiting byId fuel x s s1 Ex). }
    apply (Hgen2 _ _ _ E); [now left | exact Hv]. }
  split; [|split].
  - unfold sorted. simpl. split; [|split; [|split]].
    + rewrite map_app, Hids. simpl. now rewrite Hid.
    + now constructor.
    + apply depsFirst_snoc; [exact Hdeps|].
      intros d Hd. apply (sorted_visited st2); [repeat split; assumption | now apply Hall].
    + intros x Hx. apply in_app_or in Hx. destruct Hx as [Hx | [<- | []]]; auto.
  - now left.
  - intros z Hz. right. now apply Hinc.
Qed.

Lemma visitEach_sorted (fuel : nat) (ids : list value) :
  forall st st',
    sorted st ->
    visitEach (visit fuel byId) ids st = Some (Ok st') ->
    sorted st' /\ (forall d, In d ids -> In d (visited st')).
Proof.
  induction ids as [|x ids IH]; simpl; intros st st' Hst H.
  - inversion H; subst. split; [exact Hst | intros d []].
  - destruct (visit fuel byId x st) as [[s1|msg]|] eqn:Ex; try discriminate.
    destruct (visit_sorted fuel x st s1 Hst Ex) as [Hs1 [Hx _]].
    destruct (IH s1 st' Hs1 H) as [Hs' Hall]. split; [exact Hs'|].
    intros d [<- | Hd]; [|now apply Hall].
    assert (Hinc : forall ids0 s s',
               sorted s -> visitEach (visit fuel byId) ids0 s = Some (Ok s') ->
               incl (visited s) (visited s')).
    { induction ids0 as [|y ids0 IH0]; simpl; intros s s' Hs Hrun.
      - inversion Hrun; subst. apply incl_refl.
      - destruct (visit fuel byId y s) as [[s2|msg]|] eqn:Ey; try discriminate.
        destruct (visit_sorted fuel y s s2 Hs Ey) as [Hs2 [_ Hi]].
        intros z Hz. apply (IH0 s2 s' Hs2 Hrun), Hi, Hz. }
    apply (Hinc ids s1 st' Hs1 H). exact Hx.
Qed.

End Order.

Lemma sorted_start (tasks : list value) : sorted tasks (mkTopo [] [] []).
Proof.
  repeat split; simpl; try constructor; try contradiction.
  intros before t after H. destruct before; discriminate.
Qed.

(** What [topoSortTasks] returns, when it returns. *)
Lemma topoSortTasks_sorted (tasks ordered : list value) :
  topoSortTasks tasks = Ok ordered ->
  NoDup (map Validate.taskId ordered)
  /\ depsFirst ordered
  /\ (forall t, In t ordered -> In t tasks)
  /\ (forall t, In t tasks -> In (Validate.taskId t) (map Validate.taskId ordered)).
Proof.
  unfold topoSortTasks, topoSortFuel.
  destruct (tasksById [] tasks) as [byId|msg] eqn:Hidx; [|discriminate].
  destruct (visitEach _ _ _) as [[st|msg]|] eqn:E; try discriminate.
  intro H. inversion H; subst; clear H.
  destruct (visitEach_sorted tasks byId Hidx _ _ _ _ (sorted_start tasks) E)
    as [[Hids [Hnd [Hdeps Hin]]] Hall].
  split; [|split; [|split]]; auto.
  - rewrite Hids. now apply NoDup_rev.
  - intros t Ht. rewrite Hids. apply -> in_rev. apply Hall.
    apply in_map_iff. now exists t.
Qed.

Lemma NoDup_map_injective {A B : Type} (f : A -> B) (l : list A) :
  NoDup (map f l) -> forall a b, In a l -> In b l -> f a = f b -> a = b.
Proof.
  induction l as [|x l IH]; simpl; intros Hnd a b Ha Hb Hf; [contradiction|].
  inversion Hnd as [|? ? Hx Hl]; subst.
  destruct Ha as [<- | Ha], Hb as [<- | Hb]; auto.
  - exfalso. apply Hx. rewrite Hf. now apply in_map.
  - exfalso. apply Hx. rewrite <- Hf. now apply in_map.
Qed.

Section Accepted.

Variable plan : value.
Variable byId : list (value * value).
Hypothesis indexed : tasksById [] (Validate.planTasks plan) = Ok byId.
Hypothesis resolved : Validate.depsResolve plan.
Hypothesis acyclic : Validate.acyclic plan.

(** On a plan whose references resolve and that has no cycle, [visit]
    does not throw: the ids on the stack all depend on the id visited. *)
Lemma visit_no_throw (fuel : nat) :
  forall id st,
    (forall y, In y (visiting st) -> clos_trans value (Validate.dependsOn plan) y id) ->
    vmap_get byId id <> None ->
    forall msg, visit fuel byId id st <> Some (Throw msg).
Proof.
  induction fuel as [|fuel IH]; simpl; intros id st Hpath Hdom msg; [discriminate|].
  destruct (has id (visited st)); [discriminate|].
  destruct (has id (visiting st)) eqn:Hvg.
  { apply Validate.has_In in Hvg. exfalso. apply (acyclic id). now apply Hpath. }
  destruct (vmap_get byId id) as [t|] eqn:Ht; [|congruence].
  destruct (byId_task _ byId indexed id t Ht) as [Htask Hid].
  assert (Hgen : forall ids s,
             incl ids (Validate.depsOf t) ->
             visiting s = id :: visiting st ->
             forall msg', visitEach (visit fuel byId) ids s <> Some (Throw msg')).
  { induction ids as [|x ids IHids]; simpl; intros s Hinc Hs msg'; [discriminate|].
    assert (Hx : In x (Validate.depsOf t)) by (apply Hinc; now left).
    assert (Hstep : Validate.dependsOn plan id x) by now exists t.
    destruct (visit fuel byId x s) as [[s1|m]|] eqn:Ex.
    - apply IHids; [intros z Hz; apply Hinc; now right|].
      now rewrite (visit_visiting byId fuel x s s1 Ex).
    - exfalso. apply (IH x s) with (msg := m); [| |exact Ex].
      + rewrite Hs. intros y [<- | Hy]; [now apply t_step|].
        eapply t_trans; [now apply Hpath | now apply t_step].
      + destruct (resolved t x Htask Hx) as [t' [Hin' Hid']]. rewrite <- Hid'.
        now apply (proj2 (tasksById_has _ _ _ indexed)).
    - discriminate. }
  destruct (visitEach _ _ _) as [[st2|m]|] eqn:E; try discriminate.
  exfalso.
  exact (Hgen (Validate.depsOf t) (mkTopo (id :: visiting st) (visited st) (out st))
              (incl_refl _) eq_refl m E).
Qed.

Lemma visitEach_no_throw (fuel : nat) (ids : list value) :
  (forall id, In id ids -> vmap_get byId id <> None) ->
  forall st, visiting st = [] ->
             forall msg, visitEach (visit fuel byId) ids st <> Some (Throw msg).
Proof.
  induction ids as [|x ids IH]; simpl; intros Hdom st Hst msg; [discriminate|].
  destruct (visit fuel byId x st) as [[s1|m]|] eqn:Ex.
  - apply IH; [intros id Hid; apply Hdom; now right|].
    now rewrite (visit_visiting byId fuel x st s1 Ex).
  - exfalso. apply (visit_no_throw fuel x st) with (msg := m); [| |exact Ex].
    + rewrite Hst. intros y [].
    + apply Hdom. now left.
  - discriminate.
Qed.

End Accepted.

(** The plans [validatePlan] accepts are sorted without error, into a
    permutation of their tasks. *)
Lemma accepted_plan_sorted (plan : value) :
  Validate.validatePlan plan = Some [] ->
  exists ordered,
    topoSortTasks (Validate.planTasks plan) = Ok ordered
    /\ Permutation ordered (Validate.planTasks plan).
Proof.
  intro Hok. apply Validate.validatePlan_sound in Hok.
  destruct Hok as [_ [[tasks [Htasks [_ Hshapes]]] [_ [_ [Huniq [Hres Hac]]]]]].
  assert (Hpt : Validate.planTasks plan = tasks)
    by (unfold Validate.planTasks; now rewrite Htasks).
  unfold Validate.idsUnique in Huniq. rewrite Hpt in Huniq.
  destruct (tasksById_objects tasks) with (m := @nil (value * value)) as [byId Hidx].
  { eapply Forall_impl; [|exact Hshapes]. intros t Ht. apply Ht. }
  assert (Hsort : exists ordered, topoSortTasks tasks = Ok ordered).
  { pose proof (topoSortFuel_returns tasks) as Hret.
    unfold topoSortTasks. unfold topoSortFuel in *. rewrite Hidx in *.
    destruct (visitEach _ _ _) as [[st|msg]|] eqn:E; [now eexists | | congruence].
    exfalso. rewrite <- Hpt in Hidx.
    apply (visitEach_no_throw plan byId Hidx Hres Hac _ _) with (msg := msg) in E;
      [exact E | | reflexivity].
    intros id Hid. apply in_map_iff in Hid. destruct Hid as [t [<- Hin]].
    apply (proj2 (tasksById_has _ _ _ Hidx)). now rewrite Hpt. }
  destruct Hsort as [ordered Hsort]. rewrite Hpt. exists ordered. split; [exact Hsort|].
  destruct (topoSortTasks_sorted tasks ordered Hsort) as [Hnd [_ [Hin Hall]]].
  apply NoDup_Permutation.
  - now apply NoDup_map_inv in Hnd.
  - now apply NoDup_map_inv in Huniq.
  - intro t. split; [apply Hin|].
    intro Ht. pose proof (Hall t Ht) as Hid. apply in_map_iff in Hid.
    destruct Hid as [t' [Heq Hin']].
    rewrite <- (NoDup_map_injective _ _ Huniq t' t (Hin t' Hin') Ht Heq). exact Hin'.
Qed.

(** X1.  When [topoSortTasks] returns, every task of the result is a task
    of the input, every id of the input is scheduled, no id is scheduled
    twice, and every task comes after a task for each id in its
    [dependsOn]. *)
Theorem topoSortTasks_dependencies_first (tasks ordered : list value) :
  topoSortTasks tasks = Ok ordered ->
  NoDup (map Validate.taskId ordered)
  /\ depsFirst ordered
  /\ (forall t, In t ordered -> In t tasks)
  /\ (forall t, In t tasks -> In (Validate.taskId t) (map Validate.taskId ordered)).
Proof. apply topoSortTasks_sorted. Qed.

(** X2.  A plan that [validatePlan] accepts is sorted by [topoSortTasks]
    without error, and the result is a permutation of the plan's tasks. *)
Theorem accepted_plan_is_sorted (plan : value) :
  Validate.validatePlan plan = Some [] ->
  exists ordered,
    topoSortTasks (Validate.planTasks plan) = Ok ordered
    /\ Permutation ordered (Validate.planTasks plan).
Proof. apply accepted_plan_sorted. Qed.

(** *** The apply evidence, task by task *)



(** *** Reasoning about the writes of a computation

    [runsFrom d0 n1 c Q]: started on the disk [d0] extended by the writes
    [n1], the computation [c] ends on [d0] extended by writes [n] for which
    [Q n] holds of the way it ends. *)
Definition runsFrom {A : Type} (d0 : disk) (n1 : list (artifact * content)) (c : M A)
           (Q : list (artifact * content) -> completion A -> Prop) : Prop :=
  forall m m' out,
    written (fs m) = (n1 ++ written d0)%list ->
    c m = (m', out) ->
    exists n, written (fs m') = (n ++ written d0)%list /\ Q n out.

Lemma rf_bind {A B : Type} d0 n1 (c : M A) (f : A -> M B) Q :
  runsFrom d0 n1 c
           (fun n out1 =>
              match out1 with
              | Returned a => runsFrom d0 n (f a) Q
              | Thrown msg => Q n (Thrown msg)
              | Exited code => Q n (Exited code)
              end) ->
  runsFrom d0 n1 (bind c f) Q.
Proof.
  intros H m m' out Hm Hc. unfold bind in Hc.
  destruct (c m) as [m1 [a|msg|code]] eqn:E;
    destruct (H m m1 _ Hm E) as (n & Hn & HQ).
  - exact (HQ m1 m' out Hn Hc).
  - inversion Hc; subst. now exists n.
  - inversion Hc; subst. now exists n.
Qed.

Lemma rf_tryCatch {A : Type} d0 n1 (c : M A) (handler : string -> M A) Q :
  runsFrom d0 n1 c
           (fun n out1 =>
              match out1 with
              | Returned a => Q n (Returned a)
              | Thrown msg => runsFrom d0 n (handler msg) Q
              | Exited code => Q n (Exited code)
              end) ->
  runsFrom d0 n1 (tryCatch c handler) Q.
Proof.
  intros H m m' out Hm Hc. unfold tryCatch in Hc.
  destruct (c m) as [m1 [a|msg|code]] eqn:E;
    destruct (H m m1 _ Hm E) as (n & Hn & HQ).
  - inversion Hc; subst. now exists n.
  - exact (HQ m1 m' out Hn Hc).
  - inversion Hc; subst. now exists n.
Qed.

Lemma rf_ret {A : Type} d0 n1 (a : A) Q :
  Q n1 (Returned a) -> runsFrom d0 n1 (ret a) Q.
Proof. intros H m m' out Hm Hc. inversion Hc; subst. now exists n1. Qed.

Lemma rf_throw {A : Type} d0 n1 (msg : string) (Q : _ -> completion A -> Prop) :
  Q n1 (Thrown msg) -> runsFrom d0 n1 (throw msg) Q.
Proof. intros H m m' out Hm Hc. inversion Hc; subst. now exists n1. Qed.

Lemma rf_exit {A : Type} d0 n1 (code : Z) (Q : _ -> completion A -> Prop) :
  Q n1 (Exited code) -> runsFrom d0 n1 (exit code) Q.
Proof. intros H m m' out Hm Hc. inversion Hc; subst. now exists n1. Qed.

Lemma rf_readFile d0 n1 (a : artifact) Q :
  Q n1 (Returned (newest a (n1 ++ written d0))) -> runsFrom d0 n1 (readFile a) Q.
Proof.
  intros H m m' out Hm Hc. unfold readFile, file in Hc. inversion Hc; subst.
  exists n1. rewrite Hm. now split.
Qed.

Lemma rf_writeFile d0 n1 (a : artifact) (c : content) Q :
  Q ((a, c) :: n1) (Returned tt) -> runsFrom d0 n1 (writeFile a c) Q.
Proof.
  intros H m m' out Hm Hc. unfold writeFile in Hc. inversion Hc; subst.
  exists ((a, c) :: n1). simpl. rewrite Hm. now split.
Qed.

Lemma rf_ask {A : Type} d0 n1 (op : host -> A) Q :
  (forall h, Q n1 (Returned (op h))) -> runsFrom d0 n1 (ask op) Q.
Proof. intros H m m' out Hm Hc. inversion Hc; subst. now exists n1. Qed.

Lemma rf_call {A : Type} d0 n1 (op : host -> host * result A) Q :
  (forall a, Q n1 (Returned a)) -> (forall msg, Q n1 (Thrown msg)) ->
  runsFrom d0 n1 (call op) Q.
Proof.
  intros H1 H2 m m' out Hm Hc. unfold call in Hc.
  destruct (op (outside m)) as [h [a|msg]]; inversion Hc; subst; exists n1; auto.
Qed.

Lemma rf_conseq {A : Type} d0 n1 (c : M A) (Q Q' : _ -> completion A -> Prop) :
  runsFrom d0 n1 c Q -> (forall n out, Q n out -> Q' n out) -> runsFrom d0 n1 c Q'.
Proof.
  intros H HQ m m' out Hm Hc. destruct (H m m' out Hm Hc) as (n & Hn & Hq).
  exists n. auto.
Qed.

(** From a run of the whole machine to [runsFrom] and back. *)
Lemma rf_run {A : Type} (c : M A) Q (m m' : machine) (out : completion A) :
  runsFrom (fs m) [] c Q -> c m = (m', out) ->
  exists n, written (fs m') = (n ++ written (fs m))%list /\ Q n out.
Proof. intros H Hc. exact (H m m' out eq_refl Hc). Qed.

Lemma tail_nil {X : Type} (n1 : list X) : n1 = ([] ++ n1)%list.
Proof. reflexivity. Qed.

Lemma tail_cons {X : Type} (x : X) (l k n1 : list X) :
  l = (k ++ n1)%list -> x :: l = ((x :: k) ++ n1)%list.
Proof. now intros ->. Qed.

Lemma tail_app {X : Type} (a l k n1 : list X) :
  l = (k ++ n1)%list -> (a ++ l)%list = ((a ++ k) ++ n1)%list.
Proof. intros ->. now rewrite app_assoc. Qed.

Lemma savedRuns_app (a b : list (artifact * content)) :
  savedRuns (a ++ b) = (savedRuns b ++ savedRuns a)%list.
Proof.
  induction a as [|[x c] a IH]; simpl; [now rewrite app_nil_r|].
  destruct x; try exact IH. destruct c; try exact IH.
  rewrite IH. now rewrite app_assoc.
Qed.

Lemma newest_app (x : artifact) (a b : list (artifact * content)) :
  newest x (a ++ b) = match newest x a with Some c => Some c | None => newest x b end.
Proof.
  induction a as [|[y c] a IH]; simpl; [reflexivity|].
  destruct (artifact_eqb x y); [reflexivity | exact IH].
Qed.

Ltac rf_open :=
  unfold failRun, initRun, generatePlanFor, writeRegistryLock, buildRegistryLock,
    loadRun, saveRun, markRunEnded, writeReport, loadConfig, saveConfig,
    getProvider, ensureEccGitignore, validateSelectedPacks, throwIfErrors;
  cbv zeta.

Ltac rf_step :=
  lazymatch goal with
  | |- runsFrom _ _ (bind _ _) _ => apply rf_bind
  | |- runsFrom _ _ (tryCatch _ _) _ => apply rf_tryCatch
  | |- runsFrom _ _ (ret _) _ => apply rf_ret
  | |- runsFrom _ _ (throw _) _ => apply rf_throw
  | |- runsFrom _ _ (exit _) _ => apply rf_exit
  | |- runsFrom _ _ (readFile _) _ => apply rf_readFile
  | |- runsFrom _ _ (writeFile _ _) _ => apply rf_writeFile
  | |- runsFrom _ _ (ask _) _ => apply rf_ask; intro
  | |- runsFrom _ _ (call _) _ => apply rf_call; intro
  | |- runsFrom _ _ (ofResult ?r) _ => destruct r eqn:?; cbn [ofResult]
  | |- runsFrom _ _ (match ?x with _ => _ end) _ => destruct x eqn:?
  end;
  cbn beta iota; cbn [app newest artifact_eqb].

Ltac rf_tail := repeat first [apply tail_nil | apply tail_cons | apply tail_app].

(** The loop of [execRun] writes patch files, and [applied.json] when it
    throws; it saves no run. *)
Lemma execTasks_runs d0 (id wt : string) (packList : list string)
      (appliedAt sha : string) (ordered : list value) :
  forall n1 entries,
    runsFrom d0 n1 (execTasks id wt packList appliedAt sha entries ordered)
             (fun n out =>
                exists n2, n = (n2 ++ n1)%list /\ savedRuns n2 = []
                           /\ newest RunFile n2 = None
                           /\ (forall code, out <> Exited code)).
Proof.
  induction ordered as [|task rest IH]; intros n1 entries; cbn [execTasks].
  - rf_step. exists []. repeat split. discriminate.
  - repeat rf_step;
      try (eexists; split; [rf_tail | repeat split; discriminate]).
    eapply rf_conseq; [apply IH|]. cbn beta. intros n out (n2 & -> & Hs & Hn & Hout).
    eexists. split; [rf_tail|]. split; [|split; [|exact Hout]].
    + rewrite savedRuns_app, Hs. reflexivity.
    + rewrite newest_app, Hn. reflexivity.
Qed.

(** [execRun] saves the run once, as executing, unless it throws before;
    when it returns, [applied.json] holds the result it returns. *)
Lemma execRun_runs d0 n1 (id : string) (worktreeRoot : option string) :
  runsFrom d0 n1 (execRun id worktreeRoot)
           (fun n out =>
              exists n2,
                n = (n2 ++ n1)%list
                /\ match out with
                   | Returned res =>
                       (exists r, savedRuns n2 = [r] /\ status r = Executing
                                  /\ newest RunFile n2 = Some (RunDoc r))
                       /\ newest ApplyFile n2 = Some (Json (exApplyResult res))
                   | Thrown _ =>
                       savedRuns n2 = []
                       \/ exists r, savedRuns n2 = [r] /\ status r = Executing
                   | Exited _ => False
                   end).
Proof.
  unfold execRun. rf_open.
  repeat rf_step;
    try (eexists; split; [rf_tail | now left]);
    try (eexists; split; [rf_tail | right; eexists; split; reflexivity]).
  all: eapply rf_conseq; [apply execTasks_runs|]; cbn beta;
    intros n out (n2 & -> & Hs & Hn & Hout).
  all: destruct out as [entries|msg|code]; [| |now destruct (Hout code)].
  all: repeat rf_step.
  all: try (eexists; split; [rf_tail|]; right; eexists; split;
            [repeat (cbn [savedRuns app]; rewrite ?savedRuns_app, ?Hs); reflexivity
            | reflexivity]).
  all: eexists; split; [rf_tail|]; split; [|reflexivity].
  all: eexists; split; [|split];
    [ repeat (cbn [savedRuns app]; rewrite ?savedRuns_app, ?Hs); reflexivity
    | reflexivity
    | cbn [newest artifact_eqb]; rewrite newest_app, Hn; reflexivity ].
Qed.



(** *** The statuses a command saves *)

Ltac saved_norm :=
  repeat (cbn [savedRuns app]; rewrite ?savedRuns_app);
  repeat match goal with
         | H : savedRuns _ = _ |- _ => rewrite H
         end;
  cbn [app].








Ltac rf_execRun :=
  lazymatch goal with
  | |- runsFrom _ _ (execRun _ _) _ =>
      eapply rf_conseq; [apply execRun_runs|]; cbn beta;
      let n := fresh "n" in
      let out := fresh "out" in
      let n2 := fresh "n2" in
      let H := fresh "H" in
      intros n out (n2 & -> & H);
      destruct out as [?res|?msg|?code];
      [ destruct H as [(?r & ?Hs & ?Hst & ?Hrun) ?Hap]
      | destruct H as [?Hs | (?r & ?Hs & ?Hst)]
      | destruct H ]
  end.

Ltac rf_reload :=
  repeat (rf_step;
          repeat match goal with
                 | H : newest RunFile _ = _ |- context [newest RunFile (_ ++ _)] =>
                     rewrite !(newest_app RunFile), ?H; cbn beta iota
                 end).




(** *** [ecc init], twice *)

(** When [cmdInit] returns, the configuration and the lock exist; when
    they exist already, it leaves them as they are. *)
Lemma cmdInit_files d0 (backendArg packsArg : option string) :
  runsFrom d0 [] (cmdInit backendArg packsArg)
           (fun n out =>
              (out = Returned tt ->
               newest ConfigFile (n ++ written d0) <> None
               /\ newest LockFile (n ++ written d0) <> None)
              /\ (newest ConfigFile (written d0) <> None ->
                  newest LockFile (written d0) <> None ->
                  newest ConfigFile (n ++ written d0) = newest ConfigFile (written d0)
                  /\ newest LockFile (n ++ written d0) = newest LockFile (written d0))).
Proof.
  unfold cmdInit. rf_open.
  repeat rf_step;
    try match goal with
        | H : negb false = false |- _ => discriminate H
        end;
    (split;
     [ intro Hout; try discriminate Hout; cbn [app newest artifact_eqb];
       split; congruence
     | intros Hcfg Hlock; cbn [app newest artifact_eqb];
       split; congruence ]).
Qed.

(** A write that is neither to [config.json] nor to the registry lock. *)
Definition sparesConfigAndLock (w : artifact * content) : Prop :=
  fst w <> ConfigFile /\ fst w <> LockFile.

Lemma cmdInit_spares d0 (backendArg packsArg : option string) :
  runsFrom d0 [] (cmdInit backendArg packsArg)
           (fun n out =>
              newest ConfigFile (written d0) <> None ->
              newest LockFile (written d0) <> None ->
              Forall sparesConfigAndLock n).
Proof.
  unfold cmdInit. rf_open.
  repeat rf_step;
    intros Hcfg Hlock; try congruence;
    repeat constructor; discriminate.
Qed.

(** C8.  After an [ecc init] that returned, a second [ecc init] on the
    same state directory, with any arguments and at any later state of
    the host (another time on the clock, another catalog digest, other
    known packs), writes neither [config.json] nor the registry lock:
    both files hold what the first one wrote. *)
Theorem init_twice_keeps_config_and_lock
        (backend1 packs1 backend2 packs2 : option string) (m m1 later m2 : machine)
        (out : completion unit) :
  cmdInit backend1 packs1 m = (m1, Returned tt) ->
  fs later = fs m1 ->
  cmdInit backend2 packs2 later = (m2, out) ->
  file (fs m1) ConfigFile <> None
  /\ file (fs m1) LockFile <> None
  /\ (exists new,
        written (fs m2) = (new ++ written (fs m1))%list
        /\ Forall sparesConfigAndLock new)
  /\ file (fs m2) ConfigFile = file (fs m1) ConfigFile
  /\ file (fs m2) LockFile = file (fs m1) LockFile.
Proof.
  intros H1 Hsame H2.
  destruct (rf_run _ _ _ _ _ (cmdInit_files (fs m) backend1 packs1) H1)
    as (n & Hn & Hafter & _).
  destruct (rf_run _ _ _ _ _ (cmdInit_files (fs later) backend2 packs2) H2)
    as (n' & Hn' & _ & Hkeep).
  destruct (rf_run _ _ _ _ _ (cmdInit_spares (fs later) backend2 packs2) H2)
    as (n'' & Hn'' & Hspares).
  assert (n'' = n') as -> by (rewrite Hn' in Hn''; exact (app_inv_tail _ _ _ (eq_sym Hn''))).
  destruct (Hafter eq_refl) as [Hc Hl]. rewrite <- Hn in Hc, Hl.
  rewrite Hsame in *.
  destruct (Hkeep Hc Hl) as [Hc' Hl']. rewrite <- Hn' in Hc', Hl'.
  unfold file. repeat split; auto.
  exists n'. split; [exact Hn' | exact (Hspares Hc Hl)].
Qed.

(** *** How a command ends, and what [run.json] holds then *)

(** After the writes [n] on the disk [d0], [run.json] holds a run in the
    state [s], with [endedAt] when the state is terminal. *)
Definition endsIn (d0 : disk) (s : runStatus) (n : list (artifact * content)) : Prop :=
  exists r,
    newest RunFile (n ++ written d0) = Some (RunDoc r)
    /\ status r = s
    /\ (terminal s = true -> endedAt r <> None).

(** The state a command leaves when it returns. *)
Definition stateOnReturn (cmd : command) : option runStatus :=
  match cmd with
  | Init _ _ => None
  | Plan _ _ _ => Some Planned
  | Exec _ _ _ commit => Some (if commit then Succeeded else Executing)
  | Verify _ _ => Some Succeeded
  | Run _ _ _ _ _ _ => Some Succeeded
  end.

Definition outcome (d0 : disk) (cmd : command) (n : list (artifact * content))
           (out : completion unit) : Prop :=
  match out with
  | Returned _ =>
      match stateOnReturn cmd with
      | Some s => endsIn d0 s n
      | None => True
      end
  | Exited code => code = 1%Z /\ endsIn d0 Failed n
  | Thrown _ => True
  end.

Ltac outcome_leaf :=
  lazymatch goal with
  | |- outcome _ _ _ _ =>
      unfold outcome, stateOnReturn, endsIn; cbn beta iota;
      first
        [ exact I
        | try (split; [reflexivity|]);
          cbn [app newest artifact_eqb];
          repeat match goal with
                 | H : newest RunFile _ = _ |- context [newest RunFile (_ ++ _)] =>
                     rewrite !(newest_app RunFile), ?H; cbn beta iota
                 end;
          eexists; split; [reflexivity|];
          split; [first [reflexivity | assumption] | cbn; intros; discriminate] ]
  end.

Lemma cmdPlan_outcome d0 (intentArg : option string) (id projectRoot : string) :
  runsFrom d0 [] (cmdPlan intentArg id projectRoot)
           (outcome d0 (Plan intentArg id projectRoot)).
Proof.
  unfold cmdPlan. rf_open.
  repeat rf_step; try outcome_leaf.
Qed.

Lemma cmdVerify_outcome d0 (idArg worktreeRoot : option string) :
  runsFrom d0 [] (cmdVerify idArg worktreeRoot) (outcome d0 (Verify idArg worktreeRoot)).
Proof.
  unfold cmdVerify. rf_open.
  repeat rf_step; try outcome_leaf.
Qed.

Lemma cmdExec_outcome d0 (idArg worktreeRoot : option string) (keepWorktree commit : bool) :
  runsFrom d0 [] (cmdExec idArg worktreeRoot keepWorktree commit)
           (outcome d0 (Exec idArg worktreeRoot keepWorktree commit)).
Proof.
  unfold cmdExec. rf_open.
  repeat rf_step; try outcome_leaf.
  all: rf_execRun; rf_reload; try outcome_leaf.
Qed.

Lemma cmdRun_outcome d0 (intentArg : option string) (id projectRoot : string)
      (worktreeRoot : option string) (keepWorktree commit : bool) :
  runsFrom d0 [] (cmdRun intentArg id projectRoot worktreeRoot keepWorktree commit)
           (outcome d0 (Run intentArg id projectRoot worktreeRoot keepWorktree commit)).
Proof.
  unfold cmdRun. rf_open.
  repeat rf_step; try outcome_leaf.
  all: rf_execRun; rf_reload; try outcome_leaf.
Qed.

(** X12.  When [plan], [exec], [verify] or [run] returns, [run.json]
    holds the run as planned after [plan], as executing after [exec]
    without [--commit], and as succeeded with [endedAt] after
    [exec --commit], [verify] and [run].  When the command ends the process
    itself, with [process.exit] after a failed verification, the exit code
    is 1 and [run.json] holds the run as failed, with [endedAt].  Nothing
    is said of a command that throws. *)
Theorem run_state_matches_outcome
        (cmd : command) (m m' : machine) (out : completion unit) :
  main cmd m = (m', out) ->
  match out with
  | Returned _ =>
      match stateOnReturn cmd with
      | Some s =>
          exists r, file (fs m') RunFile = Some (RunDoc r) /\ status r = s
                    /\ (terminal s = true -> endedAt r <> None)
      | None => True
      end
  | Exited code =>
      code = 1%Z
      /\ exists r, file (fs m') RunFile = Some (RunDoc r) /\ status r = Failed
                   /\ endedAt r <> None
  | Thrown _ => True
  end.
Proof.
  intro H.
  assert (Hrun : runsFrom (fs m) [] (main cmd) (outcome (fs m) cmd)).
  { destruct cmd; cbn [main].
    - unfold cmdInit. rf_open. repeat rf_step; outcome_leaf.
    - apply cmdPlan_outcome.
    - apply cmdExec_outcome.
    - apply cmdVerify_outcome.
    - apply cmdRun_outcome. }
  destruct (rf_run _ _ _ _ _ Hrun H) as (n & Hn & Hout).
  unfold file. rewrite Hn.
  destruct out as [[]|msg|code]; unfold outcome, endsIn in Hout.
  - destruct (stateOnReturn cmd); [exact Hout | exact I].
  - exact I.
  - destruct Hout as [-> [r [Hr [Hs He]]]]. split; [reflexivity|].
    exists r. repeat split; auto.
Qed.

(** *** What [exec] and [verify] keep of a run *)

(** The fields [exec] and [verify] do not write: the identity of the run,
    its base and its start. *)
Definition sameRun (a b : run) : Prop :=
  runId a = runId b /\ intent a = intent b /\ backend a = backend b
  /\ packs a = packs b /\ baseRepoRoot a = baseRepoRoot b
  /\ baseBranch a = baseBranch b /\ baseSha a = baseSha b
  /\ startedAt a = startedAt b.

Definition keepsRun (d0 : disk) (n : list (artifact * content)) : Prop :=
  forall r0, newest RunFile (written d0) = Some (RunDoc r0) ->
             Forall (sameRun r0) (savedRuns n).

Ltac sameRun_leaf :=
  lazymatch goal with
  | |- keepsRun _ _ =>
      let r0 := fresh "r0" in
      let H0 := fresh "H0" in
      unfold keepsRun; intros r0 H0; saved_norm;
      repeat match goal with
             | H : sameRun _ _ |- _ => destruct H as (? & ? & ? & ? & ? & ? & ? & ?)
             end;
      repeat constructor; unfold sameRun;
      cbn [runId intent backend packs baseRepoRoot baseBranch baseSha startedAt
           withStatus withEndedAt withWorktreePath withWorktreeBranch];
      repeat split; congruence
  end.

(** [execRun] saves the run it loaded, at most once, with its identity. *)
Lemma execRun_keeps d0 (id : string) (worktreeRoot : option string) :
  runsFrom d0 [] (execRun id worktreeRoot)
           (fun n out =>
              (forall code, out <> Exited code)
              /\ ((savedRuns n = [] /\ newest RunFile n = None
                   /\ forall res, out <> Returned res)
                  \/ exists r0 r,
                       newest RunFile (written d0) = Some (RunDoc r0)
                       /\ sameRun r0 r
                       /\ savedRuns n = [r]
                       /\ newest RunFile n = Some (RunDoc r))).
Proof.
  unfold execRun. rf_open.
  repeat rf_step;
    try (split; [discriminate|]; left; repeat split; discriminate).
  all: try (split; [discriminate|]; right; eexists _, _;
            split; [reflexivity|]; split; [|split; reflexivity];
            unfold sameRun; cbn; repeat split; reflexivity).
  all: eapply rf_conseq; [apply execTasks_runs|]; cbn beta;
    intros n out (n2 & -> & Hs & Hn & Hout).
  all: destruct out as [entries|msg|code]; [| |now destruct (Hout code)].
  all: repeat rf_step.
  all: split; [discriminate|]; right; eexists _, _;
    split; [reflexivity|]; split;
    [|split;
      [ repeat (cbn [savedRuns app]; rewrite ?savedRuns_app, ?Hs); reflexivity
      | cbn [newest artifact_eqb]; rewrite newest_app, Hn; reflexivity ]];
    unfold sameRun; cbn; repeat split; reflexivity.
Qed.

Ltac rf_execRun_keeps :=
  lazymatch goal with
  | |- runsFrom _ _ (execRun _ _) _ =>
      eapply rf_conseq; [apply execRun_keeps|]; cbn beta;
      let n := fresh "n" in
      let out := fresh "out" in
      let H := fresh "H" in
      let Hex := fresh "Hex" in
      intros n out (Hex & H);
      destruct out as [?res|?msg|?code];
      [ destruct H as [(_ & _ & H) | (?r0 & ?r & ?Hdisk & ?Hsame & ?Hs & ?Hrun)];
        [now destruct (H res)|]
      | destruct H as [(?Hs & ?Hrun & _) | (?r0 & ?r & ?Hdisk & ?Hsame & ?Hs & ?Hrun)]
      | now destruct (Hex code) ]
  end.

Lemma cmdExec_keeps d0 (idArg worktreeRoot : option string) (keepWorktree commit : bool) :
  runsFrom d0 [] (cmdExec idArg worktreeRoot keepWorktree commit)
           (fun n _ => keepsRun d0 n).
Proof.
  unfold cmdExec. rf_open.
  repeat rf_step; try sameRun_leaf.
  all: rf_execRun_keeps; rf_reload; try sameRun_leaf.
Qed.

Lemma cmdVerify_keeps d0 (idArg worktreeRoot : option string) :
  runsFrom d0 [] (cmdVerify idArg worktreeRoot) (fun n _ => keepsRun d0 n).
Proof.
  unfold cmdVerify. rf_open.
  repeat rf_step; try sameRun_leaf.
Qed.

(** X13.  [exec] and [verify] write to [run.json] only runs with the id,
    intent, backend, packs, base (repository root, branch, commit) and
    start time of the run they found there: they change the status, the
    working copy and [endedAt] alone. *)
Theorem exec_and_verify_keep_the_base
        (m m' : machine) (out : completion unit) (r0 : run) :
  file (fs m) RunFile = Some (RunDoc r0) ->
  (forall idArg worktreeRoot keepWorktree commit,
      main (Exec idArg worktreeRoot keepWorktree commit) m = (m', out) ->
      exists new, written (fs m') = (new ++ written (fs m))%list
                  /\ Forall (sameRun r0) (savedRuns new))
  /\ (forall idArg worktreeRoot,
         main (Verify idArg worktreeRoot) m = (m', out) ->
         exists new, written (fs m') = (new ++ written (fs m))%list
                     /\ Forall (sameRun r0) (savedRuns new)).
Proof.
  intro Hdisk. split.
  - intros idArg worktreeRoot keepWorktree commit H.
    destruct (rf_run _ _ _ _ _ (cmdExec_keeps (fs m) idArg worktreeRoot keepWorktree commit) H)
      as (n & Hn & Hk).
    exists n. split; [exact Hn | exact (Hk r0 Hdisk)].
  - intros idArg worktreeRoot H.
    destruct (rf_run _ _ _ _ _ (cmdVerify_keeps (fs m) idArg worktreeRoot) H)
      as (n & Hn & Hk).
    exists n. split; [exact Hn | exact (Hk r0 Hdisk)].
Qed.

(** *** What reaches the disk has been validated *)

(** A write of the configuration, of the registry lock, of [run.json] or
    of [plan.json] holds a document its validator accepts. *)
Definition validWrite (w : artifact * content) : Prop :=
  match w with
  | (ConfigFile, c) => exists cfg, c = Json cfg /\ Validate.validateConfig cfg = []
  | (LockFile, c) => exists lock, c = Json lock /\ Validate.validateLock lock = []
  | (RunFile, c) => exists r, c = RunDoc r /\ validateRun r = []
  | (PlanFile, c) => exists plan, c = Json plan /\ Validate.validatePlan plan = Some []
  | _ => True
  end.

Lemma throwIfErrors_ok (errors : list Validate.error) (label : string) (a : unit) :
  Validate.throwIfErrors errors label = Ok a -> errors = [].
Proof. destruct errors; [reflexivity | discriminate]. Qed.

Ltac absurd_branch :=
  match goal with
  | H : Throw _ = Ok _ |- _ => discriminate H
  | H : Ok _ = Throw _ |- _ => discriminate H
  | H : Some _ = None |- _ => discriminate H
  | H : None = Some _ |- _ => discriminate H
  end.

Ltac valid_leaf :=
  lazymatch goal with
  | |- Forall validWrite _ =>
      try absurd_branch;
      repeat first [ apply Forall_nil | assumption | apply Forall_cons
                   | (apply Forall_app; split) ];
      cbn [validWrite];
      first
        [ exact I
        | eexists; split; [reflexivity|];
          first
            [ eapply throwIfErrors_ok; eassumption
            | match goal with
              | H : Validate.validatePlan ?p = Some ?l |- Validate.validatePlan ?p = Some [] =>
                  rewrite H; f_equal; eapply throwIfErrors_ok; eassumption
              end ] ]
  end.

Lemma execTasks_valid d0 (id wt : string) (packList : list string)
      (appliedAt sha : string) (ordered : list value) :
  forall n1 entries,
    runsFrom d0 n1 (execTasks id wt packList appliedAt sha entries ordered)
             (fun n _ => exists n2, n = (n2 ++ n1)%list /\ Forall validWrite n2).
Proof.
  induction ordered as [|task rest IH]; intros n1 entries; cbn [execTasks].
  - rf_step. exists []. split; [reflexivity | constructor].
  - repeat rf_step;
      try (lazymatch goal with
           | |- ex _ => eexists; split; [rf_tail | repeat constructor]
           end).
    eapply rf_conseq; [apply IH|]. cbn beta. intros n out (n2 & -> & Hv).
    eexists. split; [rf_tail|]. apply Forall_app. split; [exact Hv | repeat constructor].
Qed.

Lemma execRun_valid d0 n1 (id : string) (worktreeRoot : option string) :
  runsFrom d0 n1 (execRun id worktreeRoot)
           (fun n _ => exists n2, n = (n2 ++ n1)%list /\ Forall validWrite n2).
Proof.
  unfold execRun. rf_open.
  repeat rf_step;
    try (lazymatch goal with
         | |- ex _ => eexists; split; [rf_tail | valid_leaf]
         end).
  all: eapply rf_conseq; [apply execTasks_valid|]; cbn beta;
    intros n out (n2 & -> & Hv).
  all: destruct out as [entries|msg|code]; repeat rf_step.
  all: eexists; split; [rf_tail | valid_leaf].
Qed.

Ltac rf_execRun_valid :=
  lazymatch goal with
  | |- runsFrom _ _ (execRun _ _) _ =>
      eapply rf_conseq; [apply execRun_valid|]; cbn beta;
      let n := fresh "n" in
      let out := fresh "out" in
      let n2 := fresh "n2" in
      let Hv := fresh "Hv" in
      intros n out (n2 & -> & Hv);
      destruct out as [?res|?msg|?code]
  end.

Lemma main_valid d0 (cmd : command) :
  runsFrom d0 [] (main cmd) (fun n _ => Forall validWrite n).
Proof.
  destruct cmd; cbn [main].
  - unfold cmdInit. rf_open. repeat rf_step; valid_leaf.
  - unfold cmdPlan. rf_open. repeat rf_step; valid_leaf.
  - unfold cmdExec. rf_open. repeat rf_step; try valid_leaf.
    all: rf_execRun_valid; repeat rf_step; valid_leaf.
  - unfold cmdVerify. rf_open. repeat rf_step; valid_leaf.
  - unfold cmdRun. rf_open. repeat rf_step; try valid_leaf.
    all: rf_execRun_valid; repeat rf_step; valid_leaf.
Qed.

(** X14.  Whatever a command writes to the configuration, to the registry
    lock, to [run.json] or to [plan.json] is a document that its validator
    accepts: a document that fails validation does not reach the disk. *)
Theorem written_documents_are_valid
        (cmd : command) (m m' : machine) (out : completion unit) :
  main cmd m = (m', out) ->
  exists new,
    written (fs m') = (new ++ written (fs m))%list /\ Forall validWrite new.
Proof.
  intro H. exact (rf_run _ _ _ _ _ (main_valid (fs m) cmd) H).
Qed.

(** *** Commands that stop before they write *)

(** The argument a command cannot do without; the source tests it with
    [!arg], which holds of the empty string as well. *)
Definition argument (cmd : command) : option string :=
  match cmd with
  | Init _ _ => Some "init"
  | Plan intentArg _ _ => intentArg
  | Exec idArg _ _ _ => idArg
  | Verify idArg _ => idArg
  | Run intentArg _ _ _ _ _ => intentArg
  end.

Definition isInit (cmd : command) : bool :=
  match cmd with Init _ _ => true | _ => false end.

Definition notInitialized : string := "ECC is not initialized (run: ecc init)".

(** X15.  Without a configuration file, [plan], [exec], [verify] and [run]
    throw "ECC is not initialized (run: ecc init)" and leave the state
    directory and the repository as they are. *)
Theorem commands_need_init (cmd : command) (m : machine) (arg : string) :
  isInit cmd = false ->
  argument cmd = Some arg ->
  arg <> "" ->
  file (fs m) ConfigFile = None ->
  main cmd m = (m, Thrown notInitialized).
Proof.
  intros Hcmd Harg _ Hcfg.
  destruct cmd; try discriminate; cbn [argument] in Harg; subst; cbn [main];
    unfold cmdPlan, cmdExec, cmdVerify, cmdRun, loadConfig, bind, readFile;
    rewrite Hcfg; reflexivity.
Qed.

(** The backend and the packs [cmdInit] settles on. *)
Definition initBackend (backendArg : option string) : string :=
  match backendArg with
  | Some b => if String.eqb b "" then "codex" else b
  | None => "codex"
  end.

Definition initPacks (packsArg : option string) : list string :=
  match parsePacksArg packsArg with
  | Some (x :: xs) => x :: xs
  | _ => getDefaultPacks
  end.

(** X16.  [init] writes nothing unless the backend is [codex] or [claude]
    and every selected pack is a pack of the catalog: with another
    backend or an unknown pack it throws and leaves the state directory
    as it is. *)
Theorem cmdInit_checks_before_writing
        (backendArg packsArg : option string) (m m' : machine) (out : completion unit) :
  cmdInit backendArg packsArg m = (m', out) ->
  fs m' <> fs m ->
  (initBackend backendArg = "codex" \/ initBackend backendArg = "claude")
  /\ forall pack, In pack (initPacks packsArg) -> In pack (knownPacks (outside m)).
Proof.
  unfold cmdInit. fold (initBackend backendArg). fold (initPacks packsArg).
  destruct (String.eqb_spec (initBackend backendArg) "codex") as [Hb|Hb].
  - cbn [orb negb]. unfold bind at 1. unfold validateSelectedPacks at 1.
    unfold bind at 1. unfold ask at 1.
    destruct (filter _ (initPacks packsArg)) as [|u us] eqn:Hf.
    + intros _ _. split; [now left|].
      intros pack Hin.
      destruct (existsb (String.eqb pack) (knownPacks (outside m))) eqn:Hex.
      * apply existsb_exists in Hex. destruct Hex as [x [Hx Heq]].
        apply String.eqb_eq in Heq. now subst.
      * exfalso. assert (Hin' : In pack (filter (fun x => negb (existsb (String.eqb x)
                                                     (knownPacks (outside m))))
                                                 (initPacks packsArg))).
        { apply filter_In. split; [exact Hin | now rewrite Hex]. }
        rewrite Hf in Hin'. contradiction.
    + unfold throw. intros H Hne. inversion H; subst. congruence.
  - cbn [orb]. destruct (String.eqb_spec (initBackend backendArg) "claude") as [Hc|Hc].
    + cbn [negb]. unfold bind at 1. unfold validateSelectedPacks at 1.
      unfold bind at 1. unfold ask at 1.
      destruct (filter _ (initPacks packsArg)) as [|u us] eqn:Hf.
      * intros _ _. split; [now right|].
        intros pack Hin.
        destruct (existsb (String.eqb pack) (knownPacks (outside m))) eqn:Hex.
        -- apply existsb_exists in Hex. destruct Hex as [x [Hx Heq]].
           apply String.eqb_eq in Heq. now subst.
        -- exfalso. assert (Hin' : In pack (filter (fun x => negb (existsb (String.eqb x)
                                                       (knownPacks (outside m))))
                                                   (initPacks packsArg))).
           { apply filter_In. split; [exact Hin | now rewrite Hex]. }
           rewrite Hf in Hin'. contradiction.
      * unfold throw. intros H Hne. inversion H; subst. congruence.
    + cbn [negb]. unfold throw. intros H Hne. inversion H; subst. congruence.
Qed.

(** *** Errors of [exec] and [verify] *)

Lemma validateRun_ended (r : run) (s : runStatus) (now : string) :
  validateRun r = [] -> now <> "" -> validateRun (withEndedAt (withStatus r s) now) = [].
Proof.
  unfold validateRun. cbn [runId intent backend packs startedAt endedAt baseRepoRoot
                           withEndedAt withStatus].
  rewrite !Validate.app_nil_iff.
  intros [H1 [H2 [H3 [H4 [H5 [_ H7]]]]]] Hnow. repeat split; auto.
  apply Validate.validateString_nil. exists now. now split.
Qed.

(** X17.  The handler of [exec] for a failed [execRun], when [run.json]
    holds a valid run and the clock answers: the run is saved as failed
    with [endedAt]; then, when [buildReport] returns a text for the saved
    run, the plan and the apply result on the disk, the report is written
    and the error of [execRun] is thrown again; when [buildReport] throws,
    no report is written and the error of [buildReport] is thrown in place
    of the error of [execRun]. *)
Theorem exec_failure_is_recorded (id msg : string) (m : machine) (r : run) :
  file (fs m) RunFile = Some (RunDoc r) ->
  validateRun r = [] ->
  nowIso (outside m) <> "" ->
  let ended := withEndedAt (withStatus r Failed) (nowIso (outside m)) in
  let saved := write RunFile (RunDoc ended) (fs m) in
  match buildReport ended (loadIfExists (file (fs m) PlanFile))
                    (loadIfExists (file (fs m) ApplyFile)) (outside m) with
  | Ok text =>
      failRun id msg m
      = (mkMachine (write ReportFile (Text (text ++ nl)) saved) (outside m), Thrown msg)
  | Throw err => failRun id msg m = (mkMachine saved (outside m), Thrown err)
  end.
Proof.
  intros Hrun Hvalid Hnow ended saved.
  pose proof (validateRun_ended r Failed _ Hvalid Hnow) as Hended. fold ended in Hended.
  unfold failRun, loadRun, saveRun, markRunEnded, writeReport, throwIfErrors,
    bind, readFile, writeFile, ask, ret, throw.
  rewrite Hrun, Hvalid. cbn [Validate.throwIfErrors ofResult ret fs outside].
  fold ended. rewrite Hended. cbn [Validate.throwIfErrors ofResult ret fs outside].
  subst saved. unfold file. cbn [fs outside written write newest artifact_eqb].
  destruct (buildReport ended _ _ (outside m)); reflexivity.
Qed.

(** X18.  [exec] for a run id without [run.json], in an initialized
    project with a usable provider: the error "unknown runId" of
    [execRun] is caught, the handler finds no run to mark and asks for the
    report, and the command throws "missing run.json for runId=<id>"
    instead; nothing is written. *)
Theorem exec_unknown_run_reports_missing_run
        (id : string) (worktreeRoot : option string) (keepWorktree commit : bool)
        (m : machine) (cfg : value) :
  id <> "" ->
  file (fs m) ConfigFile = Some (Json cfg) ->
  Validate.validateConfig cfg = [] ->
  getProvider (get cfg "backend") m = (m, Returned tt) ->
  file (fs m) RunFile = None ->
  cmdExec (Some id) worktreeRoot keepWorktree commit m
  = (m, Thrown ("missing run.json for runId=" ++ id)).
Proof.
  intros _ Hcfg Hvalid Hprov Hrun.
  unfold cmdExec, loadConfig, throwIfErrors. unfold bind at 1. unfold bind at 1.
  unfold readFile at 1. rewrite Hcfg. unfold bind at 1.
  rewrite Hvalid. cbn [Validate.throwIfErrors ofResult ret].
  unfold bind at 1. rewrite Hprov. unfold bind at 1.
  unfold tryCatch, execRun, failRun, loadRun, writeReport, bind, readFile, throw, ret.
  rewrite Hrun. cbv beta iota zeta. rewrite Hrun. cbv beta iota zeta.
  rewrite Hrun. reflexivity.
Qed.

(** X19.  [verify] for a run whose working copy is gone (no path
    recorded, or the directory does not exist) and whose changes were not
    committed ([applied.json] absent, or a JSON document without a commit
    sha) throws "verify: missing worktree and changes were not committed.
    Re-run: ecc exec <runId> (or use --commit to persist changes)." and
    leaves the run and the repository as they are. *)
Theorem verify_needs_worktree_or_commit
        (id : string) (worktreeRoot : option string) (m : machine) (cfg : value) (r : run) :
  id <> "" ->
  file (fs m) ConfigFile = Some (Json cfg) ->
  Validate.validateConfig cfg = [] ->
  file (fs m) RunFile = Some (RunDoc r) ->
  validateRun r = [] ->
  worktreePath r = "" \/ existsSync (outside m) (worktreePath r) = false ->
  match file (fs m) ApplyFile with
  | None => True
  | Some (Json a) =>
      truthy a && truthy (get a "commit") && truthy (get (get a "commit") "sha") = false
  | Some _ => False
  end ->
  cmdVerify (Some id) worktreeRoot m
  = (m, Thrown ("verify: missing worktree and changes were not committed. "
                  ++ "Re-run: ecc exec <runId> (or use --commit to persist changes).")).
Proof.
  intros _ Hcfg Hvalid Hrun Hrvalid Hgone Happlied.
  unfold cmdVerify, loadConfig, loadRun, throwIfErrors, bind, readFile, ask, ret, throw.
  rewrite Hcfg, Hvalid. cbn [Validate.throwIfErrors ofResult ret].
  rewrite Hrun, Hrvalid. cbn [Validate.throwIfErrors ofResult ret].
  assert (Hcond : String.eqb (worktreePath r) ""
                  || negb (existsSync (outside m) (worktreePath r)) = true).
  { destruct Hgone as [-> | ->]; [reflexivity | apply orb_true_r]. }
  rewrite Hcond.
  destruct (file (fs m) ApplyFile) as [[a| |]|]; try contradiction; try reflexivity.
  rewrite Happlied. reflexivity.
Qed.

Lemma nonEmptyStr_strings (l : list string) :
  Forall Validate.nonEmptyStr (map VStr l) <-> Forall (fun s => s <> "") l.
Proof.
  induction l as [|x xs IH]; simpl; [split; constructor|].
  rewrite !Forall_cons_iff, IH. split; intros [Hx Hxs]; split; auto.
  - destruct Hx as [s [Hs Hne]]. inversion Hs; subst. exact Hne.
  - exists x. now split.
Qed.

(** X20.  The configuration [createConfig] builds passes [validateConfig]
    exactly when the backend is [codex] or [claude], there is at least
    one pack, no pack name is empty and the time stamp is not empty. *)
Theorem createConfig_is_valid (backendName : string) (packList : list string)
        (now : string) :
  Validate.validateConfig (createConfig backendName packList now) = []
  <-> (backendName = "codex" \/ backendName = "claude")
      /\ packList <> []
      /\ Forall (fun pack => pack <> "") packList
      /\ now <> "".
Proof.
  unfold Validate.validateConfig, createConfig.
  cbn [isObj negb get lookup String.eqb Ascii.eqb Bool.eqb value_eqb Z.eqb Pos.eqb orb
       app].
  rewrite !Validate.app_nil_iff, Validate.validateStringArray_nil,
    Validate.validateString_nil.
  unfold Validate.isBackend. cbn [value_eqb].
  split.
  - intros [Hb [[items [Hitems [Hlen Hall]]] [[s [Hs Hne]] _]]].
    inversion Hitems; subst items; clear Hitems. inversion Hs; subst s; clear Hs.
    split; [|split; [|split]]; auto.
    + destruct (String.eqb_spec backendName "codex"); [now left|].
      destruct (String.eqb_spec backendName "claude"); [now right | discriminate].
    + intros ->. simpl in Hlen. lia.
    + now apply nonEmptyStr_strings.
  - intros [Hb [Hne [Hall Hnow]]]. split; [|split; [|split]].
    + destruct Hb as [-> | ->]; reflexivity.
    + exists (map VStr packList). split; [reflexivity|]. split.
      * rewrite length_map. destruct packList; [congruence | simpl; lia].
      * now apply nonEmptyStr_strings.
    + exists now. now split.
    + reflexivity.
Qed.

End Host.

(** *** A host to run the commands on

    The state of the host is the list of the patches applied to the working
    copy, newest first.  The provider answers every task with a patch that
    adds a file named after the task below [src/]; for the task [bad] it
    answers with a patch for [README.md], and for the task [down] it
    fails.  Patches are applied by [Diff.applyPatch], without helper
    binary.  The verify runner fails exactly when the configuration asks
    for manual mode. *)

Definition sampleNow (h : list string) : string := "2026-01-01T00:00:00.000Z".
Definition sampleRepoRoot (h : list string) : option string := Some "/repo".
Definition sampleHeadSha (h : list string) : list string * result string := (h, Ok "abc123").
Definition sampleBranch (h : list string) : list string * result string := (h, Ok "main").
Definition sampleExists (h : list string) (path : string) : bool := true.
Definition sampleDefaultWorktree (repoRoot id : string) (root : option string) : string :=
  pathJoin ["/tmp/ecc-worktrees"; "repo"; id].
Definition sampleEnsureWorktree (repoRoot desired branch sha : string) (h : list string)
  : list string * result string := (h, Ok desired).
Definition sampleRemoveWorktree (repoRoot wt : string) (h : list string)
  : list string * result unit := (h, Ok tt).
Definition sampleCommitAll (wt message : string) (h : list string)
  : list string * result string := (h, Ok "def456").

Definition samplePlanDoc : value :=
  VObj [("version", VNum 1); ("intent", VStr "demo");
        ("tasks", VArr [Validate.sampleTask "t1" []; Validate.sampleTask "t2" ["t1"]])].

Definition sampleGeneratePlan (intentText root : string) (packList : list string)
           (h : list string) : list string * result value := (h, Ok samplePlanDoc).

(** The provider when it is up. *)
Definition steadyGeneratePatch (task : value) (wt : string) (packList : list string)
           (h : list string) : list string * result value :=
  let id := toString (get task "id") in
  if String.eqb id "bad" then
    (h, Ok (VObj [("patch", VStr "diff --git a/README.md b/README.md")]))
  else
    (h, Ok (VObj [("patch", VStr ("diff --git a/src/" ++ id ++ ".txt b/src/" ++ id ++ ".txt"))])).

Definition sampleGeneratePatch (task : value) (wt : string) (packList : list string)
           (h : list string) : list string * result value :=
  if String.eqb (toString (get task "id")) "down"
  then (h, Throw "codex output is not valid JSON")
  else steadyGeneratePatch task wt packList h.

Definition sampleApplyPatch (wt patchPath patchText : string) (allowed : value)
           (h : list string) : list string * result (list value) :=
  Diff.applyPatch (list string) Diff.sampleCheck Diff.sampleApply Diff.noKernel
                  h patchPath patchText allowed.

Definition sampleRunVerify (wt : string) (verifyConfig : value) (h : list string)
  : list string * result value :=
  (h, Ok (VObj [("version", VNum 1);
                ("ok", VBool (negb (value_eqb (get verifyConfig "mode") (VStr "manual"))))])).

Definition sampleKnownPacks (h : list string) : list string := getDefaultPacks.
Definition sampleDigest (h : list string) : string := "sha256:0f0f".
Definition sampleReport (r : run) (plan applied : value) (h : list string)
  : result string :=
  Ok ("# ECC Run Report: " ++ statusName r.(status)).
Definition sampleEnv (h : list string) : string := "mock".

Definition freshMachine : machine (list string) := mkMachine _ emptyDisk [].



Definition sampleExecRun :=
  execRun (list string) sampleNow sampleRepoRoot sampleHeadSha sampleExists
          sampleDefaultWorktree sampleEnsureWorktree sampleGeneratePatch sampleApplyPatch
          "/repo/.ecc".


Definition sampleRun : run :=
  mkRun "r1" "demo" "codex" ["forge"] Planned "/repo" "main" "abc123" "" "ecc/r1"
        "2026-01-01T00:00:00.000Z" None.



(** A state directory after [ecc plan], with a second task on which the
    provider fails. *)
Definition downMachine : machine (list string) :=
  mkMachine _
    (mkDisk [(PlanFile,
              Json (VObj [("version", VNum 1); ("intent", VStr "demo");
                          ("tasks", VArr [Validate.sampleTask "t1" [];
                                          Validate.sampleTask "down" ["t1"]])]));
             (RunFile, RunDoc sampleRun)])
    [].

(** When the provider fails on the second task, the first patch is applied
    to the working copy and no [applied.json] is written. *)
Example provider_failure_leaves_no_evidence :
  exists m' msg,
    sampleExecRun "r1" None downMachine = (m', Thrown msg)
    /\ outside _ m' = ["diff --git a/src/t1.txt b/src/t1.txt" ++ nl]
    /\ file (fs _ m') ApplyFile = None.
Proof. eexists _, _. vm_compute. repeat split. Qed.



Definition sampleMain : command -> M (list string) unit :=
  main (list string) sampleNow sampleRepoRoot sampleHeadSha sampleBranch sampleExists
       sampleDefaultWorktree sampleEnsureWorktree sampleRemoveWorktree sampleCommitAll
       sampleGeneratePlan sampleGeneratePatch sampleApplyPatch sampleRunVerify
       sampleKnownPacks sampleDigest sampleReport "/repo/.ecc" sampleEnv.

Definition sampleConfig : value :=
  createConfig "codex" getDefaultPacks "2026-01-01T00:00:00.000Z".

Definition succeededRun : run :=
  mkRun "r1" "demo" "codex" ["forge"] Succeeded "/repo" "main" "abc123"
        "/tmp/ecc-worktrees/repo/r1" "ecc/r1"
        "2026-01-01T00:00:00.000Z" (Some "2026-01-01T00:05:00.000Z").

(** A state directory whose run has succeeded. *)
Definition succeededMachine : machine (list string) :=
  mkMachine _
    (mkDisk [(RunFile, RunDoc succeededRun); (PlanFile, Json samplePlanDoc);
             (ConfigFile, Json sampleConfig)])
    [].

(** A state directory after [ecc init]. *)
Definition initializedMachine : machine (list string) :=
  mkMachine _ (mkDisk [(ConfigFile, Json sampleConfig)]) [].

Example run_saves_each_status :
  map status
      (savedRuns
         (written (fs _ (fst (sampleMain (Run (Some "demo") "r1" "/repo" None true false)
                                         initializedMachine)))))
  = [Planned; Executing; Verifying; Succeeded].
Proof. vm_compute. reflexivity. Qed.



Definition sampleInit : option string -> option string -> M (list string) unit :=
  cmdInit (list string) sampleNow sampleKnownPacks sampleDigest.

Example init_twice_writes_gitignore_only :
  map fst (written (fs _ (fst (sampleInit None None freshMachine))))
  = [LockFile; GitignoreFile; ConfigFile]
  /\ map fst (written (fs _ (fst (sampleInit (Some "claude") (Some "forge")
                                            (fst (sampleInit None None freshMachine))))))
     = [GitignoreFile; LockFile; GitignoreFile; ConfigFile].
Proof. split; vm_compute; reflexivity. Qed.

(** A host whose clock and catalog move: the state of the host is the
    list of the readings of its clock, newest first. *)
Definition hostClock (h : list string) : string := hd "2026-01-01T00:00:00.000Z" h.
Definition hostDigest (h : list string) : string :=
  match h with
  | [] => "sha256:0f0f"
  | _ => "sha256:1e1e"
  end.

Definition movingInit : option string -> option string -> M (list string) unit :=
  cmdInit (list string) hostClock sampleKnownPacks hostDigest.

(** The second [init] is run a year later, after the catalog changed. *)
Lemma init_twice_keeps_config_and_lock_witness :
  let m1 := fst (movingInit None None freshMachine) in
  let later := mkMachine _ (fs _ m1) ["2027-01-01T00:00:00.000Z"] in
  let m2 := fst (movingInit (Some "claude") (Some "forge") later) in
  (hostClock (outside _ later) <> hostClock (outside _ freshMachine)
   /\ hostDigest (outside _ later) <> hostDigest (outside _ freshMachine))
  /\ file (fs _ m1) ConfigFile <> None
  /\ file (fs _ m1) LockFile <> None
  /\ (exists new,
        written (fs _ m2) = (new ++ written (fs _ m1))%list
        /\ Forall sparesConfigAndLock new)
  /\ file (fs _ m2) ConfigFile = file (fs _ m1) ConfigFile
  /\ file (fs _ m2) LockFile = file (fs _ m1) LockFile.
Proof.
  split; [split; discriminate|].
  apply (init_twice_keeps_config_and_lock
           (list string) hostClock sampleKnownPacks hostDigest
           None None (Some "claude") (Some "forge") freshMachine
           (fst (movingInit None None freshMachine))
           (mkMachine _ (fs _ (fst (movingInit None None freshMachine)))
                      ["2027-01-01T00:00:00.000Z"])
           (fst (movingInit (Some "claude") (Some "forge")
                   (mkMachine _ (fs _ (fst (movingInit None None freshMachine)))
                              ["2027-01-01T00:00:00.000Z"])))
           (snd (movingInit (Some "claude") (Some "forge")
                   (mkMachine _ (fs _ (fst (movingInit None None freshMachine)))
                              ["2027-01-01T00:00:00.000Z"])))).
  - vm_compute. reflexivity.
  - reflexivity.
  - vm_compute. reflexivity.
Defined.

Lemma topoSortTasks_dependencies_first_witness :
  let a := Validate.sampleTask "a" ["b"] in
  let b := Validate.sampleTask "b" [] in
  NoDup (map Validate.taskId [b; a])
  /\ depsFirst [b; a]
  /\ (forall t, In t [b; a] -> In t [a; b])
  /\ (forall t, In t [a; b] -> In (Validate.taskId t) (map Validate.taskId [b; a])).
Proof.
  apply (topoSortTasks_dependencies_first
           [Validate.sampleTask "a" ["b"]; Validate.sampleTask "b" []]
           [Validate.sampleTask "b" []; Validate.sampleTask "a" ["b"]]).
  reflexivity.
Defined.

Lemma accepted_plan_is_sorted_witness :
  exists ordered,
    topoSortTasks (Validate.planTasks samplePlanDoc) = Ok ordered
    /\ Permutation ordered (Validate.planTasks samplePlanDoc).
Proof.
  apply (accepted_plan_is_sorted samplePlanDoc). reflexivity.
Defined.

(** A state directory whose run was executed, with a configuration in
    manual mode: the sample verify runner fails there. *)
Definition manualMachine : machine (list string) :=
  mkMachine _
    (mkDisk [(RunFile,
              RunDoc (mkRun "r1" "demo" "codex" ["forge"] Executing "/repo" "main" "abc123"
                            "/tmp/ecc-worktrees/repo/r1" "ecc/r1"
                            "2026-01-01T00:00:00.000Z" None));
             (PlanFile, Json samplePlanDoc);
             (ConfigFile,
              Json (VObj [("version", VNum 1); ("backend", VStr "codex");
                          ("packs", VArr [VStr "forge"]);
                          ("verify", VObj [("mode", VStr "manual")]);
                          ("createdAt", VStr "2026-01-01T00:00:00.000Z")]))])
    [].

Lemma run_state_matches_outcome_witness :
  snd (sampleMain (Verify (Some "r1") None) manualMachine) = Exited 1
  /\ exists r,
       file (fs _ (fst (sampleMain (Verify (Some "r1") None) manualMachine))) RunFile
       = Some (RunDoc r)
       /\ status r = Failed /\ endedAt r <> None.
Proof.
  pose proof (run_state_matches_outcome
                (list string) sampleNow sampleRepoRoot sampleHeadSha sampleBranch
                sampleExists sampleDefaultWorktree sampleEnsureWorktree sampleRemoveWorktree
                sampleCommitAll sampleGeneratePlan sampleGeneratePatch sampleApplyPatch
                sampleRunVerify sampleKnownPacks sampleDigest sampleReport
                "/repo/.ecc" sampleEnv (Verify (Some "r1") None) manualMachine
                (fst (sampleMain (Verify (Some "r1") None) manualMachine))
                (Exited 1)) as H.
  split; [reflexivity|]. apply H. reflexivity.
Defined.

Lemma exec_and_verify_keep_the_base_witness :
  exists new,
    written (fs _ (fst (sampleMain (Verify (Some "r1") None) succeededMachine)))
    = (new ++ written (fs _ succeededMachine))%list
    /\ Forall (sameRun succeededRun) (savedRuns new).
Proof.
  apply (proj2 (exec_and_verify_keep_the_base
                  (list string) sampleNow sampleRepoRoot sampleHeadSha sampleBranch
                  sampleExists sampleDefaultWorktree sampleEnsureWorktree
                  sampleRemoveWorktree sampleCommitAll sampleGeneratePlan
                  sampleGeneratePatch sampleApplyPatch
                  sampleRunVerify sampleKnownPacks sampleDigest sampleReport "/repo/.ecc" sampleEnv succeededMachine
                  (fst (sampleMain (Verify (Some "r1") None) succeededMachine))
                  (snd (sampleMain (Verify (Some "r1") None) succeededMachine))
                  succeededRun eq_refl) (Some "r1") None).
  vm_compute. reflexivity.
Defined.

Lemma written_documents_are_valid_witness :
  exists new,
    written (fs _ (fst (sampleMain (Run (Some "demo") "r1" "/repo" None true false)
                                   initializedMachine)))
    = (new ++ written (fs _ initializedMachine))%list
    /\ Forall validWrite new.
Proof.
  apply (written_documents_are_valid
           (list string) sampleNow sampleRepoRoot sampleHeadSha sampleBranch
           sampleExists sampleDefaultWorktree sampleEnsureWorktree sampleRemoveWorktree
           sampleCommitAll sampleGeneratePlan sampleGeneratePatch sampleApplyPatch
           sampleRunVerify sampleKnownPacks sampleDigest sampleReport
           "/repo/.ecc" sampleEnv (Run (Some "demo") "r1" "/repo" None true false)
           initializedMachine
           (fst (sampleMain (Run (Some "demo") "r1" "/repo" None true false)
                            initializedMachine))
           (snd (sampleMain (Run (Some "demo") "r1" "/repo" None true false)
                            initializedMachine))).
  vm_compute. reflexivity.
Defined.

(** A state directory after [ecc plan], in an initialized project. *)
Definition plannedProject : machine (list string) :=
  mkMachine _
    (mkDisk [(PlanFile, Json samplePlanDoc); (RunFile, RunDoc sampleRun);
             (ConfigFile, Json sampleConfig)])
    [].

Lemma commands_need_init_witness :
  sampleMain (Exec (Some "r1") None false false) freshMachine
  = (freshMachine, Thrown notInitialized).
Proof.
  apply (commands_need_init
           (list string) sampleNow sampleRepoRoot sampleHeadSha sampleBranch
           sampleExists sampleDefaultWorktree sampleEnsureWorktree sampleRemoveWorktree
           sampleCommitAll sampleGeneratePlan sampleGeneratePatch sampleApplyPatch
           sampleRunVerify sampleKnownPacks sampleDigest sampleReport
           "/repo/.ecc" sampleEnv (Exec (Some "r1") None false false) freshMachine "r1").
  - reflexivity.
  - reflexivity.
  - discriminate.
  - reflexivity.
Defined.

Lemma cmdInit_checks_before_writing_witness :
  (initBackend None = "codex" \/ initBackend None = "claude")
  /\ forall pack, In pack (initPacks (Some "forge, proof")) ->
                  In pack (sampleKnownPacks (outside _ freshMachine)).
Proof.
  apply (cmdInit_checks_before_writing
           (list string) sampleNow sampleKnownPacks sampleDigest
           None (Some "forge, proof") freshMachine
           (fst (sampleInit None (Some "forge, proof") freshMachine))
           (snd (sampleInit None (Some "forge, proof") freshMachine))).
  - vm_compute. reflexivity.
  - vm_compute. discriminate.
Defined.

Lemma exec_failure_is_recorded_witness :
  failRun (list string) sampleNow sampleReport "r1" "git apply failed" manualMachine
  = (mkMachine _
       (write ReportFile (Text ("# ECC Run Report: failed" ++ nl))
          (write RunFile
             (RunDoc (mkRun "r1" "demo" "codex" ["forge"] Failed "/repo" "main" "abc123"
                            "/tmp/ecc-worktrees/repo/r1" "ecc/r1"
                            "2026-01-01T00:00:00.000Z"
                            (Some "2026-01-01T00:00:00.000Z")))
             (fs _ manualMachine)))
       [],
     Thrown "git apply failed").
Proof.
  apply (exec_failure_is_recorded
           (list string) sampleNow sampleReport "r1" "git apply failed" manualMachine
           (mkRun "r1" "demo" "codex" ["forge"] Executing "/repo" "main" "abc123"
                  "/tmp/ecc-worktrees/repo/r1" "ecc/r1" "2026-01-01T00:00:00.000Z" None)).
  - reflexivity.
  - reflexivity.
  - discriminate.
Defined.

Lemma exec_unknown_run_reports_missing_run_witness :
  sampleMain (Exec (Some "r9") None false false) initializedMachine
  = (initializedMachine, Thrown ("missing run.json for runId=" ++ "r9")).
Proof.
  apply (exec_unknown_run_reports_missing_run
           (list string) sampleNow sampleRepoRoot sampleHeadSha
           sampleExists sampleDefaultWorktree sampleEnsureWorktree sampleRemoveWorktree
           sampleCommitAll sampleGeneratePatch sampleApplyPatch
           sampleRunVerify sampleReport
           "/repo/.ecc" sampleEnv "r9" None false false initializedMachine sampleConfig).
  - discriminate.
  - reflexivity.
  - reflexivity.
  - reflexivity.
  - reflexivity.
Defined.

Lemma verify_needs_worktree_or_commit_witness :
  sampleMain (Verify (Some "r1") None) plannedProject
  = (plannedProject,
     Thrown ("verify: missing worktree and changes were not committed. "
               ++ "Re-run: ecc exec <runId> (or use --commit to persist changes).")).
Proof.
  apply (verify_needs_worktree_or_commit
           (list string) sampleNow sampleRepoRoot sampleHeadSha
           sampleExists sampleDefaultWorktree sampleEnsureWorktree
           sampleRunVerify sampleReport
           "r1" None plannedProject sampleConfig sampleRun).
  - discriminate.
  - reflexivity.
  - reflexivity.
  - reflexivity.
  - reflexivity.
  - left. reflexivity.
  - exact I.
Defined.

(** A provider whose plan passes [validatePlan] and has a task without
    [dependsOn]: [ecc plan] saves [plan.json], fails to render it, and
    writes neither [plan.md] nor the report. *)
Definition bareGeneratePlan (intentText root : string) (packList : list string)
           (h : list string) : list string * result value := (h, Ok PlanMd.barePlan).

Example plan_without_dependsOn_is_saved_not_rendered :
  let ended :=
    main (list string) sampleNow sampleRepoRoot sampleHeadSha sampleBranch sampleExists
         sampleDefaultWorktree sampleEnsureWorktree sampleRemoveWorktree sampleCommitAll
         bareGeneratePlan sampleGeneratePatch sampleApplyPatch sampleRunVerify
         sampleKnownPacks sampleDigest sampleReport "/repo/.ecc" sampleEnv
         (Plan (Some "demo") "r1" "/repo") initializedMachine in
  snd ended = Thrown "TypeError: Cannot read properties of undefined (reading 'length')"
  /\ file (fs _ (fst ended)) PlanFile = Some (Json PlanMd.barePlan)
  /\ file (fs _ (fst ended)) PlanMdFile = None
  /\ file (fs _ (fst ended)) ReportFile = None.
Proof. vm_compute. repeat split. Qed.

End Engine.

(** ** The postinstall helper that fetches the kernel binary *)

Module KernelInstall.

Definition isDigit (c : ascii) : bool :=
  let n := nat_of_ascii c in (48 <=? n)%nat && (n <=? 57)%nat.

(** A character of the class [[a-fA-F0-9]] *)
Definition isHex (c : ascii) : bool :=
  let n := nat_of_ascii c in
  ((97 <=? n)%nat && (n <=? 102)%nat) || ((65 <=? n)%nat && (n <=? 70)%nat) || isDigit c.

(** A character of the class [[a-f0-9]] *)
Definition isLowerHex (c : ascii) : bool :=
  let n := nat_of_ascii c in
  ((97 <=? n)%nat && (n <=? 102)%nat) || isDigit c.

(** The match of [[a-fA-F0-9]{n}] at the start of [s]. *)
Fixpoint takeHex (n : nat) (s : string) : option string :=
  match n with
  | O => Some EmptyString
  | S n' =>
      match s with
      | EmptyString => None
      | String c rest =>
          if isHex c then
            match takeHex n' rest with
            | Some m => Some (String c m)
            | None => None
            end
          else None
      end
  end.

(** [s.match(/([a-fA-F0-9]{n})/)]: the match at the leftmost position
    that has one. *)
Fixpoint firstHexRun (n : nat) (s : string) : option string :=
  match takeHex n s with
  | Some m => Some m
  | None =>
      match s with
      | EmptyString => None
      | String _ rest => firstHexRun n rest
      end
  end.

(** [parseSha256(text)]; [None] is [null]. *)
Definition parseSha256 (text : value) : option string :=
  match firstHexRun 64 (trim (toString (or_else text (VStr "")))) with
  | Some m => Some (toLowerCase m)
  | None => None
  end.

(** [m] is a run of [n] hexadecimal digits of [s], after [pre]. *)
Definition hexRunAt (n : nat) (s pre m post : string) : Prop :=
  s = pre ++ m ++ post /\ String.length m = n /\ allChars isHex m = true.

Lemma takeHex_some (n : nat) :
  forall s m, takeHex n s = Some m <-> exists post, hexRunAt n s "" m post.
Proof.
  unfold hexRunAt. induction n as [|n IH]; intros s m; cbn [takeHex append].
  - split.
    + intros [= <-]. exists s. now repeat split.
    + intros [post [_ [Hlen _]]]. destruct m; [reflexivity | discriminate].
  - destruct s as [|c rest].
    + split; [discriminate|]. intros [post [Hs [Hlen _]]].
      destruct m; discriminate.
    + split.
      * destruct (isHex c) eqn:Hc; [|discriminate].
        destruct (takeHex n rest) as [m'|] eqn:E; [|discriminate].
        intros [= <-]. apply IH in E. destruct E as [post [Hs [Hlen Hall]]].
        exists post. cbn [append String.length allChars]. rewrite Hc, Hall, Hlen, Hs.
        now repeat split.
      * intros [post [Hs [Hlen Hall]]]. destruct m as [|k m']; [discriminate|].
        cbn [append String.length allChars] in *. injection Hs as -> Hrest.
        injection Hlen as Hlen. apply andb_true_iff in Hall. destruct Hall as [Hk Hall].
        rewrite Hk. rewrite (proj2 (IH rest m')); [reflexivity|]. now exists post.
Qed.

Lemma firstHexRun_leftmost (n : nat) (s : string) :
  match firstHexRun n s with
  | Some m =>
      exists pre post, hexRunAt n s pre m post
        /\ forall pre' m' post', hexRunAt n s pre' m' post' ->
                                 String.length pre <= String.length pre'
  | None => forall pre m post, ~ hexRunAt n s pre m post
  end.
Proof.
  induction s as [|c rest IH]; cbn [firstHexRun].
  - destruct (takeHex n "") as [m|] eqn:E.
    + apply takeHex_some in E. destruct E as [post H]. exists "", post.
      split; [exact H|]. intros. cbn. lia.
    + intros pre m post [Hs [Hlen Hall]].
      destruct pre; [|discriminate].
      assert (H : takeHex n "" = Some m) by (apply takeHex_some; now exists post).
      congruence.
  - destruct (takeHex n (String c rest)) as [m|] eqn:E.
    + apply takeHex_some in E. destruct E as [post H]. exists "", post.
      split; [exact H|]. intros. cbn. lia.
    + destruct (firstHexRun n rest) as [m|].
      * destruct IH as [pre [post [[Hs [Hlen Hall]] Hleft]]].
        exists (String c pre), post. split.
        -- repeat split; [|exact Hlen|exact Hall]. cbn [append]. now rewrite Hs.
        -- intros pre' m' post' [Hs' [Hlen' Hall']]. destruct pre' as [|k pre'].
           ++ assert (H : takeHex n (String c rest) = Some m')
                by (apply takeHex_some; now exists post').
              congruence.
           ++ cbn [append] in Hs'. injection Hs' as _ Hrest.
              cbn [String.length]. apply le_n_S. apply (Hleft pre' m' post').
              now repeat split.
      * intros pre m post [Hs [Hlen Hall]]. destruct pre as [|k pre].
        -- assert (H : takeHex n (String c rest) = Some m)
             by (apply takeHex_some; now exists post).
           congruence.
        -- cbn [append] in Hs. injection Hs as _ Hrest.
           apply (IH pre m post). now repeat split.
Qed.

Lemma hex_lower (c : ascii) : isHex c = true -> isLowerHex (lowerChar c) = true.
Proof.
  destruct c as [[] [] [] [] [] [] [] []]; intro H;
    first [discriminate H | reflexivity].
Qed.

Lemma toLowerCase_hex (m : string) :
  allChars isHex m = true ->
  String.length (toLowerCase m) = String.length m
  /\ allChars isLowerHex (toLowerCase m) = true.
Proof.
  induction m as [|c m IH]; cbn [allChars toLowerCase String.length]; intro H;
    [now split|].
  apply andb_true_iff in H. destruct H as [Hc Hm]. destruct (IH Hm) as [Hlen Hall].
  now rewrite Hlen, Hall, (hex_lower c Hc).
Qed.

(** X23.  [parseSha256] returns the leftmost run of 64 hexadecimal digits
    of the trimmed text, in lower case (so 64 characters of [0-9a-f]); it
    returns [null] exactly when the text has no such run.  The run may be
    part of a longer one. *)
Theorem parseSha256_leftmost_run (text : value) :
  let s := trim (toString (or_else text (VStr ""))) in
  match parseSha256 text with
  | Some h =>
      String.length h = 64
      /\ allChars isLowerHex h = true
      /\ exists pre m post,
           hexRunAt 64 s pre m post /\ h = toLowerCase m
           /\ forall pre' m' post', hexRunAt 64 s pre' m' post' ->
                                    String.length pre <= String.length pre'
  | None => forall pre m post, ~ hexRunAt 64 s pre m post
  end.
Proof.
  intro s. unfold parseSha256. fold s.
  pose proof (firstHexRun_leftmost 64 s) as H.
  destruct (firstHexRun 64 s) as [m|]; [|exact H].
  destruct H as [pre [post [Hrun Hleft]]].
  destruct (toLowerCase_hex m (proj2 (proj2 Hrun))) as [Hlen Hall].
  split; [rewrite Hlen; exact (proj1 (proj2 Hrun))|].
  split; [exact Hall|].
  exists pre, m, post. split; [exact Hrun | split; [reflexivity | exact Hleft]].
Qed.

(** A checksum file as [sha256sum] writes it, and 65 digits in a row. *)
Example parseSha256_checksum_line :
  parseSha256
    (VStr "E3B0C44298FC1C149AFBF4C8996FB92427AE41E4649B934CA495991B7852B855  ecc-kernel")
  = Some "e3b0c44298fc1c149afbf4c8996fb92427ae41e4649b934ca495991b7852b855"
  /\ parseSha256
       (VStr "e3b0c44298fc1c149afbf4c8996fb92427ae41e4649b934ca495991b7852b8550")
     = Some "e3b0c44298fc1c149afbf4c8996fb92427ae41e4649b934ca495991b7852b855"
  /\ parseSha256 (VStr "not found") = None
  /\ parseSha256 VUndef = None.
Proof. repeat split; vm_compute; reflexivity. Qed.

End KernelInstall.
